(** * A model of [advanced-vector/vector.h]

    [RawMemory<T>] owns a block of raw storage, [Vector<T>] keeps a
    [RawMemory<T>] and the number of constructed elements.  The model follows
    the header method by method: all of [RawMemory], and of [Vector] the
    constructors, the destructor, both assignment operators, [Swap],
    [Reserve], [Resize], [Emplace], [EmplaceBack], [PushBack], [Insert],
    [PopBack], [Erase], [Size], [Capacity], indexing and the iterators.

    - Storage is a heap of blocks, a block is a list of cells.  A cell keeps
      the stored value ([val], [None] while it is indeterminate) and whether
      an object lives there ([alive]): placement-new makes a cell alive, a
      destructor call ends that and, unless [T] is trivially destructible,
      leaves the value indeterminate; an assignment only changes the value.
    - Every constructor, assignment and destructor call of [T] is appended to
      a log, as a test with an instrumented element type would count them.
    - A method either returns ([Ok]), leaves by an exception ([Throw]) or has
      no defined result ([Fault]: a failed [assert], an access outside every
      block).
    - [size_t] is a 64-bit unsigned integer: its arithmetic wraps.
    - Constructors of [T] may throw; the assignment operators of [T] are
      taken not to throw.
    - [operator new] is taken to grant what it is asked for, and the byte
      count [n * sizeof(T)] that [Allocate] asks for is taken to be
      representable.  For twice a buffer that exists this is no limit in
      practice; where the count is the caller's ([Reserve], [Resize],
      [Vector(size_t)]) the theorems carry it as a hypothesis
      ([SIZE_MOD], [MAX_REQUEST]). *)

From Stdlib Require Import NArith ZArith Lia.
From stdpp Require Import base option list gmap.

Local Open Scope N_scope.

(** ** [size_t] *)

Definition SIZE_MOD : N := 2 ^ 64.

Definition size_add (a b : N) : N := (a + b) mod SIZE_MOD.
Definition size_sub (a b : N) : N := (a + SIZE_MOD - b mod SIZE_MOD) mod SIZE_MOD.
Definition size_mul (a b : N) : N := (a * b) mod SIZE_MOD.

(** the least power of two that is at least [n], 0 for [n = 0] *)
Definition pow2_ceiling (n : N) : N :=
  if n =? 0 then 0 else 2 ^ N.log2_up n.

(** ** Pointers

    A [T*] names a block and a slot offset in it; the null pointer has no
    block and offset 0. *)

Record ptr := Ptr { blk : option nat; off : N }.

Global Instance ptr_eq_dec : EqDecision ptr.
Proof. solve_decision. Defined.

Definition nullptr : ptr := Ptr None 0.
Definition ptr_add (p : ptr) (n : N) : ptr := Ptr (blk p) (off p + n).
Definition next (p : ptr) : ptr := ptr_add p 1.
Definition prev (p : ptr) : ptr := Ptr (blk p) (off p - 1).
Definition ptr_eqb (p q : ptr) : bool := bool_decide (p = q).
(** [p <= q] for two pointers into one array *)
Definition ptr_le (p q : ptr) : bool := bool_decide (blk p = blk q) && (off p <=? off q).
(** [std::distance(p, q)] for [p <= q]; as a number of loop steps, 0 when
    [q] is before [p] *)
Definition distance (p q : ptr) : N := off q - off p.

(** ** Outcomes and the monad of methods *)

Inductive outcome (S A : Type) : Type :=
| Ok (a : A) (s : S)
| Throw (s : S)
| Fault.
Arguments Ok {S A} a s.
Arguments Throw {S A} s.
Arguments Fault {S A}.

Definition M (S A : Type) : Type := S -> outcome S A.

Definition ret {S A} (a : A) : M S A := fun s => Ok a s.
Definition bind {S A B} (m : M S A) (k : A -> M S B) : M S B :=
  fun s => match m s with
           | Ok a s' => k a s'
           | Throw s' => Throw s'
           | Fault => Fault
           end.
Definition throw {S A} : M S A := fun s => Throw s.
Definition fault {S A} : M S A := fun _ => Fault.
(** [try { m } catch (...) { h }] *)
Definition try_catch {S A} (m : M S A) (h : M S A) : M S A :=
  fun s => match m s with
           | Throw s' => h s'
           | r => r
           end.
Definition assert_ {S} (b : bool) : M S unit := if b then ret tt else fault.

Notation "x <- m ;; k" := (bind m (fun x => k))
  (at level 100, m at next level, k at level 200, right associativity,
   only parsing).
Notation "m ;; k" := (bind m (fun _ => k))
  (at level 100, k at level 200, right associativity, only parsing).


(** ** The element type [T] with the traits the header asks for *)

Class Element (T : Type) := {
  (** [std::is_nothrow_move_constructible_v<T>] *)
  is_nothrow_move_constructible : bool;
  (** [std::is_copy_constructible_v<T>] *)
  is_copy_constructible : bool;
  (** does [T(const T&)] throw on this source value *)
  copy_throws : T -> bool;
  (** does [T(T&&)] throw on this source value *)
  move_throws : T -> bool;
  (** the value a moved-from object is left with *)
  moved_from : T -> T;
  (** [std::is_trivially_destructible_v<T>]: the destructor does nothing, so
      the bits of a destroyed object are still its value; for any other type
      a destroyed object has no value any more *)
  is_trivially_destructible : bool;
  (** [sizeof(T)], in bytes *)
  size_of : N;
}.

(** [PTRDIFF_MAX]: [operator new] refuses every request above it with
    [std::bad_alloc] *)
Definition MAX_REQUEST : N := 2 ^ 63 - 1.

(** One entry per call of a constructor, an assignment operator or the
    destructor of [T]; [ECtor] is a construction from the caller's arguments,
    the others name the slots involved. *)
Inductive event : Type :=
| ECtor (p : ptr)
| ECopyCtor (dst src : ptr)
| EMoveCtor (dst src : ptr)
| ECopyAssign (dst src : ptr)
| EMoveAssign (dst src : ptr)
| EDtor (p : ptr).

Record RawMemory := mkRaw { buffer_ : ptr; capacity_ : N }.
Record Vector := mkVec { data_ : RawMemory; size_ : N }.

Section Model.
Context {T : Type} `{Element T}.

Record cell := Cell { val : option T; alive : bool }.

Definition raw_cell : cell := Cell None false.

(** The machine: the [Vector] objects by address, the blocks of the free
    store by number, and the log of element life-cycle calls. *)
Record state := mkState {
  objs : gmap nat Vector;
  heap : gmap nat (list cell);
  log : list event;
}.

Local Abbreviation M := (M state).

(** *** Memory primitives *)

Definition load_cell (p : ptr) : M cell := fun s =>
  match blk p with
  | Some b =>
      match heap s !! b with
      | Some cs =>
          match cs !! N.to_nat (off p) with
          | Some c => Ok c s
          | None => Fault
          end
      | None => Fault
      end
  | None => Fault
  end.

Definition store_cell (p : ptr) (c : cell) : M unit := fun s =>
  match blk p with
  | Some b =>
      match heap s !! b with
      | Some cs =>
          if decide (N.to_nat (off p) < length cs)%nat
          then Ok tt (mkState (objs s) (<[b := <[N.to_nat (off p) := c]> cs]> (heap s)) (log s))
          else Fault
      | None => Fault
      end
  | None => Fault
  end.

Definition emit (e : event) : M unit := fun s =>
  Ok tt (mkState (objs s) (heap s) (log s ++ [e])).

(** [RawMemory::Allocate]: a fresh block of [n] raw slots, null for [n = 0].
    Line 78 asks [operator new] for [n * sizeof(T)] bytes, computed in
    [size_t]: the block has [n] slots when that product is below [SIZE_MOD]
    and the request is granted, which it is not above [MAX_REQUEST].  The
    model gives the [n] slots; a theorem on a count that the caller chooses
    states the bound on [n * size_of]. *)
Definition Allocate (n : N) : M ptr := fun s =>
  if n =? 0 then Ok nullptr s
  else let b := fresh (dom (heap s)) in
       Ok (Ptr (Some b) 0)
          (mkState (objs s) (<[b := replicate (N.to_nat n) raw_cell]> (heap s)) (log s)).

(** [RawMemory::Deallocate]: [operator delete], nothing for null *)
Definition Deallocate (buf : ptr) : M unit := fun s =>
  match blk buf with
  | None => if off buf =? 0 then Ok tt s else Fault
  | Some b =>
      match heap s !! b with
      | Some _ => if off buf =? 0
                  then Ok tt (mkState (objs s) (delete b (heap s)) (log s))
                  else Fault
      | None => Fault
      end
  end.

(** *** Calls on elements *)

Definition throws_on (f : T -> bool) (x : option T) : bool :=
  match x with Some v => f v | None => false end.

(** the bits a destructor call leaves in a slot *)
Definition destroyed (x : option T) : option T :=
  if is_trivially_destructible then x else None.

(** [std::destroy_at(p)] *)
Definition destroy_at (p : ptr) : M unit :=
  c <- load_cell p;;
  store_cell p (Cell (destroyed (val c)) false);;
  emit (EDtor p).

(** placement-new at [dst] of a copy of the object at [src] *)
Definition copy_construct (dst src : ptr) : M unit :=
  c <- load_cell src;;
  if throws_on copy_throws (val c) then throw
  else store_cell dst (Cell (val c) true);;
       emit (ECopyCtor dst src).

(** placement-new at [dst], moving from the object at [src] *)
Definition move_construct (dst src : ptr) : M unit :=
  c <- load_cell src;;
  if throws_on move_throws (val c) then throw
  else store_cell dst (Cell (val c) true);;
       c' <- load_cell src;;
       store_cell src (Cell (moved_from <$> val c) (alive c'));;
       emit (EMoveCtor dst src).

(** copy assignment of the object at [src] to the one at [dst] *)
Definition copy_assign_elem (dst src : ptr) : M unit :=
  c <- load_cell src;;
  d <- load_cell dst;;
  store_cell dst (Cell (val c) (alive d));;
  emit (ECopyAssign dst src).

(** move assignment of the object at [src] to the one at [dst] *)
Definition move_assign_elem (dst src : ptr) : M unit :=
  c <- load_cell src;;
  d <- load_cell dst;;
  store_cell dst (Cell (val c) (alive d));;
  c' <- load_cell src;;
  store_cell src (Cell (moved_from <$> val c) (alive c'));;
  emit (EMoveAssign dst src).

(** What [args...] of [Emplace] can be: a [const T&] or [T&&] to an object of
    the caller, a reference to a slot of the free store, or the arguments of
    another constructor, given by what it builds ([None] when it throws). *)
Inductive ctor_args : Type :=
| CopyOf (x : T)
| MoveOf (x : T)
| RefCopy (src : ptr)
| RefMove (src : ptr)
| Made (r : option T).

(** [Vector::ForwardConstruct]: [new (Iter) T(std::forward<Args>(args)...)] *)
Definition ForwardConstruct (Iter : ptr) (args : ctor_args) : M unit :=
  match args with
  | CopyOf x =>
      if copy_throws x then throw
      else store_cell Iter (Cell (Some x) true);; emit (ECtor Iter)
  | MoveOf x =>
      if move_throws x then throw
      else store_cell Iter (Cell (Some x) true);; emit (ECtor Iter)
  | RefCopy src => copy_construct Iter src
  | RefMove src => move_construct Iter src
  | Made (Some x) => store_cell Iter (Cell (Some x) true);; emit (ECtor Iter)
  | Made None => throw
  end.

(** *** The algorithms of [<memory>] and [<algorithm>] the header calls *)

Fixpoint destroy_loop (n : nat) (p : ptr) : M unit :=
  match n with
  | O => ret tt
  | S n' => destroy_at p;; destroy_loop n' (next p)
  end.

(** [std::destroy_n(first, n)] *)
Definition destroy_n (first : ptr) (n : N) : M unit :=
  destroy_loop (N.to_nat n) first.

(** [std::uninitialized_copy_n(first, n, out)]: when a copy throws, the
    objects built so far, [out .. cur), are destroyed and the exception goes
    on. *)
Fixpoint uninitialized_copy_loop (n : nat) (first cur out : ptr) : M unit :=
  match n with
  | O => ret tt
  | S n' =>
      try_catch (copy_construct cur first)
                (destroy_n out (distance out cur);; throw);;
      uninitialized_copy_loop n' (next first) (next cur) out
  end.

Definition uninitialized_copy_n (first : ptr) (n : N) (out : ptr) : M unit :=
  uninitialized_copy_loop (N.to_nat n) first out out.

(** [std::uninitialized_move_n(first, n, out)] *)
Fixpoint uninitialized_move_loop (n : nat) (first cur out : ptr) : M unit :=
  match n with
  | O => ret tt
  | S n' =>
      try_catch (move_construct cur first)
                (destroy_n out (distance out cur);; throw);;
      uninitialized_move_loop n' (next first) (next cur) out
  end.

Definition uninitialized_move_n (first : ptr) (n : N) (out : ptr) : M unit :=
  uninitialized_move_loop (N.to_nat n) first out out.

Fixpoint copy_loop (n : nat) (first out : ptr) : M unit :=
  match n with
  | O => ret tt
  | S n' => copy_assign_elem out first;; copy_loop n' (next first) (next out)
  end.

(** [std::copy_n(first, n, out)] *)
Definition copy_n (first : ptr) (n : N) (out : ptr) : M unit :=
  copy_loop (N.to_nat n) first out.

(** [std::copy(first, last, d_first)]: the library's loop runs
    [last - first] times, so not at all when [first] is past [last] *)
Definition std_copy (first last d_first : ptr) : M unit :=
  copy_loop (N.to_nat (distance first last)) first d_first.

Fixpoint move_loop (n : nat) (first out : ptr) : M unit :=
  match n with
  | O => ret tt
  | S n' => move_assign_elem out first;; move_loop n' (next first) (next out)
  end.

(** [std::move(first, last, d_first)], as [std::copy] *)
Definition std_move (first last d_first : ptr) : M unit :=
  move_loop (N.to_nat (distance first last)) first d_first.

Fixpoint move_backward_loop (n : nat) (last d_last : ptr) : M unit :=
  match n with
  | O => ret tt
  | S n' =>
      move_assign_elem (prev d_last) (prev last);;
      move_backward_loop n' (prev last) (prev d_last)
  end.

(** [std::move_backward(first, last, d_last)] *)
Definition move_backward (first last d_last : ptr) : M unit :=
  assert_ (ptr_le first last);;
  move_backward_loop (N.to_nat (distance first last)) last d_last.

(** *** [RawMemory<T>] *)

Definition RawMemory_default : RawMemory := mkRaw nullptr 0.

(** [RawMemory(size_t capacity)] *)
Definition RawMemory_new (capacity : N) : M RawMemory :=
  p <- Allocate capacity;;
  ret (mkRaw p capacity).

(** [~RawMemory()] *)
Definition RawMemory_dtor (m : RawMemory) : M unit :=
  Deallocate (buffer_ m).

(** [operator+(offset)] *)
Definition RawMemory_plus (m : RawMemory) (offset : N) : M ptr :=
  assert_ (offset <=? capacity_ m);;
  ret (ptr_add (buffer_ m) offset).

(** [operator[](index)], the reference as a pointer *)
Definition RawMemory_index (m : RawMemory) (index : N) : M ptr :=
  assert_ (index <? capacity_ m);;
  ret (ptr_add (buffer_ m) index).

Definition GetAddress (m : RawMemory) : ptr := buffer_ m.

(** [Swap(other)]: what [*this] and [other] hold afterwards *)
Definition RawMemory_Swap (m other : RawMemory) : RawMemory * RawMemory :=
  (mkRaw (buffer_ other) (capacity_ other), mkRaw (buffer_ m) (capacity_ m)).

(** [RawMemory(RawMemory &&other)] and [operator=(RawMemory &&rhs)]: what the
    target and the source hold afterwards.  The assignment releases
    nothing. *)
Definition RawMemory_move (rhs : RawMemory) : RawMemory * RawMemory :=
  (mkRaw (buffer_ rhs) (capacity_ rhs), mkRaw nullptr 0).

(** A local [RawMemory]: its destructor runs when the scope is left, by
    return or by exception.  [body] gives back what the local holds at the
    end; until the last statement, a [Swap] that cannot throw, it holds what
    it was made with. *)
Definition with_RawMemory {A} (local : RawMemory) (body : M (A * RawMemory)) : M A :=
  fun s => match body s with
           | Ok (a, local') s' => (RawMemory_dtor local';; ret a) s'
           | Throw s' => (RawMemory_dtor local;; throw) s'
           | Fault => Fault
           end.

(** *** [Vector<T>] *)

Definition get_vec (this : nat) : M Vector := fun s =>
  match objs s !! this with
  | Some v => Ok v s
  | None => Fault
  end.

Definition set_vec (this : nat) (v : Vector) : M unit := fun s =>
  Ok tt (mkState (<[this := v]> (objs s)) (heap s) (log s)).

Definition begin (v : Vector) : ptr := GetAddress (data_ v).
Definition end_ (v : Vector) : ptr := ptr_add (GetAddress (data_ v)) (size_ v).
Definition cbegin (v : Vector) : ptr := GetAddress (data_ v).
Definition cend (v : Vector) : ptr := ptr_add (GetAddress (data_ v)) (size_ v).

(** [Vector()] *)
Definition Vector_default : Vector := mkVec RawMemory_default 0.

(** [Size()], [Capacity()] *)
Definition Size (this : nat) : M N := v <- get_vec this;; ret (size_ v).
Definition Capacity (this : nat) : M N := v <- get_vec this;; ret (capacity_ (data_ v)).

(** [operator[](index)], the reference as a pointer *)
Definition Vector_index (this : nat) (index : N) : M ptr :=
  v <- get_vec this;;
  assert_ (index <? size_ v);;
  RawMemory_index (data_ v) index.

(** [Relocate(InFirst, dist, OutFirst)] *)
Definition Relocate (InFirst : ptr) (dist : N) (OutFirst : ptr) : M unit :=
  if is_nothrow_move_constructible || negb is_copy_constructible
  then uninitialized_move_n InFirst dist OutFirst
  else uninitialized_copy_n InFirst dist OutFirst.

(** [Vector(const Vector &other)], for a local: when a copy throws, the
    member [data_], already built, is destroyed. *)
Definition Vector_copy (other : Vector) : M Vector :=
  d <- RawMemory_new (size_ other);;
  let v := mkVec d (size_ other) in
  try_catch (uninitialized_copy_n (begin other) (size_ v) (begin v))
            (RawMemory_dtor d;; throw);;
  ret v.

(** [~Vector()]: the body, then the member's destructor *)
Definition Vector_dtor (v : Vector) : M unit :=
  destroy_n (begin v) (size_ v);;
  RawMemory_dtor (data_ v).

(** [Swap(other)] *)
Definition Swap (this other : nat) : M unit :=
  v <- get_vec this;;
  o <- get_vec other;;
  let (dv, do) := RawMemory_Swap (data_ v) (data_ o) in
  set_vec this (mkVec dv (size_ v));;
  set_vec other (mkVec do (size_ o));;
  v' <- get_vec this;;
  o' <- get_vec other;;
  set_vec this (mkVec (data_ v') (size_ o'));;
  set_vec other (mkVec (data_ o') (size_ v')).

(** [operator=(const Vector &rhs)] *)
Definition copy_assign (this rhs : nat) : M unit :=
  if negb (bool_decide (this = rhs)) then
    v <- get_vec this;;
    r <- get_vec rhs;;
    if capacity_ (data_ v) <? size_ r then
      rhs_copy <- Vector_copy r;;
      (* Swap(rhs_copy), then the local dies with what [*this] held *)
      let (data', copy_data) := RawMemory_Swap (data_ v) (data_ rhs_copy) in
      set_vec this (mkVec data' (size_ rhs_copy));;
      Vector_dtor (mkVec copy_data (size_ v))
    else
      copy_n (begin r) (N.min (size_ r) (size_ v)) (begin v);;
      (if size_ r <? size_ v
       then destroy_n (ptr_add (begin v) (size_ r)) (size_sub (size_ v) (size_ r))
       else uninitialized_copy_n (ptr_add (begin r) (size_ v))
                                 (size_sub (size_ r) (size_ v)) (end_ v));;
      set_vec this (mkVec (data_ v) (size_ r))
  else ret tt.

(** [operator=(Vector &&rhs)]: the buffer [*this] held is neither destroyed
    nor released. *)
Definition move_assign (this rhs : nat) : M unit :=
  if negb (bool_decide (this = rhs)) then
    v <- get_vec this;;
    r <- get_vec rhs;;
    let (data', rhs_data) := RawMemory_move (data_ r) in
    set_vec this (mkVec data' (size_ r));;
    set_vec rhs (mkVec rhs_data 0)
  else ret tt.

(** [Reserve(new_capacity)] *)
Definition Reserve (this : nat) (new_capacity : N) : M unit :=
  v <- get_vec this;;
  if new_capacity <=? capacity_ (data_ v) then ret tt
  else
    new_data <- RawMemory_new new_capacity;;
    with_RawMemory new_data (
      Relocate (begin v) (size_ v) (GetAddress new_data);;
      destroy_n (begin v) (size_ v);;
      let (data', new_data') := RawMemory_Swap (data_ v) new_data in
      set_vec this (mkVec data' (size_ v));;
      ret (tt, new_data')).

(** [Emplace(pos, args...)] *)
Definition Emplace (this : nat) (pos : ptr) (args : ctor_args) : M ptr :=
  v <- get_vec this;;
  assert_ (ptr_le (cbegin v) pos && ptr_le pos (cend v));;
  let dist := distance (cbegin v) pos in
  (if negb (size_ v =? capacity_ (data_ v)) then
     if ptr_eqb pos nullptr || ptr_eqb pos (end_ v) then
       if is_nothrow_move_constructible || is_copy_constructible then
         try_catch (p <- RawMemory_plus (data_ v) dist;;
                    ForwardConstruct p args)
                   (p <- RawMemory_plus (data_ v) dist;;
                    destroy_at p;;
                    throw)
       else
         p <- RawMemory_plus (data_ v) dist;;
         ForwardConstruct p args
     else
       src <- RawMemory_index (data_ v) (size_ v);;
       ForwardConstruct (end_ v) (RefMove src);;
       first <- RawMemory_plus (data_ v) dist;;
       move_backward first (end_ v) (next (end_ v));;
       last <- RawMemory_plus (data_ v) (size_ v);;
       destroy_at last;;
       p <- RawMemory_plus (data_ v) dist;;
       ForwardConstruct p args
   else
     new_data <- RawMemory_new (if 0 <? size_ v then size_mul (size_ v) 2 else 1);;
     with_RawMemory new_data (
       p <- RawMemory_plus new_data dist;;
       ForwardConstruct p args;;
       Relocate (begin v) dist (GetAddress new_data);;
       Relocate (ptr_add (begin v) dist) (size_sub (size_ v) dist)
                (ptr_add (ptr_add (GetAddress new_data) dist) 1);;
       destroy_n (begin v) (size_ v);;
       let (data', new_data') := RawMemory_Swap (data_ v) new_data in
       set_vec this (mkVec data' (size_ v));;
       ret (tt, new_data')));;
  v' <- get_vec this;;
  set_vec this (mkVec (data_ v') (size_add (size_ v') 1));;
  ret (ptr_add (begin v') dist).

(** [Insert(pos, const T &value)] and [Insert(pos, T &&value)] where
    [value] names an object of the caller's, outside the free store: no call
    of [Emplace] changes it, so it is given by its value. *)
Definition Insert (this : nat) (pos : ptr) (value : T) : M ptr :=
  Emplace this pos (CopyOf value).
Definition Insert_rvalue (this : nat) (pos : ptr) (value : T) : M ptr :=
  Emplace this pos (MoveOf value).

(** [Insert(pos, const T &value)] where [value] names the object in the slot
    [src] of the free store, an element of this vector for one, as in
    [v.Insert(v.begin(), v[2])]: the reference is passed on to [Emplace],
    which reads the slot when it builds the new element. *)
Definition Insert_ref (this : nat) (pos src : ptr) : M ptr :=
  Emplace this pos (RefCopy src).

(** [EmplaceBack(args...)], the reference as a pointer *)
Definition EmplaceBack (this : nat) (args : ctor_args) : M ptr :=
  v <- get_vec this;;
  Emplace this (end_ v) args.

(** [PushBack(const T &value)] and [PushBack(T &&value)] *)
Definition PushBack (this : nat) (value : T) : M unit :=
  EmplaceBack this (CopyOf value);; ret tt.
Definition PushBack_rvalue (this : nat) (value : T) : M unit :=
  EmplaceBack this (MoveOf value);; ret tt.

(** [PopBack()] *)
Definition PopBack (this : nat) : M unit :=
  v <- get_vec this;;
  set_vec this (mkVec (data_ v) (size_sub (size_ v) 1));;
  p <- RawMemory_plus (data_ v) (size_sub (size_ v) 1);;
  destroy_at p.

(** [Erase(pos)] *)
Definition Erase (this : nat) (pos : ptr) : M ptr :=
  v <- get_vec this;;
  assert_ (ptr_le (cbegin v) pos && ptr_le pos (cend v));;
  let dist := distance (cbegin v) pos in
  let iter := pos in
  (if is_nothrow_move_constructible || negb is_copy_constructible
   then std_move (next iter) (end_ v) iter
   else std_copy (next iter) (end_ v) iter);;
  PopBack this;;
  v' <- get_vec this;;
  ret (ptr_add (begin v') dist).

(** *** Value-initialisation: [Vector(size_t)] and [Resize]

    [T()] takes no argument, so what it builds is given from outside:
    [init k] is the value the [k]-th call of [T()] in one algorithm builds,
    [None] when that call throws. *)

Fixpoint uninitialized_value_construct_loop (n : nat) (k : nat) (cur first : ptr)
    (init : nat -> option T) : M unit :=
  match n with
  | O => ret tt
  | S n' =>
      try_catch (ForwardConstruct cur (Made (init k)))
                (destroy_n first (distance first cur);; throw);;
      uninitialized_value_construct_loop n' (S k) (next cur) first init
  end.

(** [std::uninitialized_value_construct_n(first, n)]: when a construction
    throws, the objects built so far are destroyed and the exception goes
    on. *)
Definition uninitialized_value_construct_n (first : ptr) (n : N)
    (init : nat -> option T) : M unit :=
  uninitialized_value_construct_loop (N.to_nat n) 0 first first init.

(** [Vector(size_t size)], for a local: when a construction throws, the
    member [data_], already built, is destroyed. *)
Definition Vector_sized (size : N) (init : nat -> option T) : M Vector :=
  d <- RawMemory_new size;;
  let v := mkVec d size in
  try_catch (uninitialized_value_construct_n (begin v) size init)
            (RawMemory_dtor d;; throw);;
  ret v.

(** [Vector(Vector &&other)], for a local: the new vector, [other] is left
    with no buffer and size 0. *)
Definition Vector_move (other : nat) : M Vector :=
  o <- get_vec other;;
  let (data', other_data) := RawMemory_move (data_ o) in
  set_vec other (mkVec other_data 0);;
  ret (mkVec data' (size_ o)).

(** [Resize(new_size)] *)
Definition Resize (this : nat) (new_size : N) (init : nat -> option T) : M unit :=
  v <- get_vec this;;
  if new_size =? size_ v then ret tt
  else
    (if new_size <? size_ v then
       destroy_n (ptr_add (GetAddress (data_ v)) new_size)
                 (size_sub (size_ v) new_size)
     else if size_ v <? new_size then
       (if capacity_ (data_ v) <? new_size then Reserve this new_size
        else ret tt);;
       v' <- get_vec this;;
       uninitialized_value_construct_n (end_ v') (size_sub new_size (size_ v')) init
     else ret tt);;
    v'' <- get_vec this;;
    set_vec this (mkVec (data_ v'') new_size).

(** what [Resize] to a larger size does once the capacity suffices: the new
    slots are value-initialised, then the size is set *)
Definition Resize_fill (this : nat) (new_size : N) (init : nat -> option T)
  : M unit :=
  (v' <- get_vec this;;
   uninitialized_value_construct_n (end_ v') (size_sub new_size (size_ v')) init);;
  v'' <- get_vec this;;
  set_vec this (mkVec (data_ v'') new_size).

(** [PushBack] of each element of [xs], front to back *)
Fixpoint PushBack_all (this : nat) (xs : list T) : M unit :=
  match xs with
  | [] => ret tt
  | x :: xs' => PushBack this x;; PushBack_all this xs'
  end.

(** *** What a caller observes *)

Definition block_of (s : state) (v : Vector) : list cell :=
  match blk (buffer_ (data_ v)) with
  | Some b => default [] (heap s !! b)
  | None => []
  end.

(** the bits of the slots [0, size) *)
Definition values (s : state) (v : Vector) : list (option T) :=
  val <$> take (N.to_nat (size_ v)) (block_of s v).

(** which slots of the buffer hold a live object *)
Definition lives (s : state) (v : Vector) : list bool :=
  alive <$> block_of s v.

(** *** Well-formed vectors *)

(** [m] holds what [Allocate] gave it: null and no capacity, or the start of
    a block of [capacity_] slots. *)
Definition owns (s : state) (m : RawMemory) : Prop :=
  off (buffer_ m) = 0 /\
  match blk (buffer_ m) with
  | Some b => exists cs, heap s !! b = Some cs /\
                         length cs = N.to_nat (capacity_ m)
  | None => capacity_ m = 0
  end.

Definition vector_ok (s : state) (v : Vector) : Prop :=
  owns s (data_ v) /\ size_ v <= capacity_ (data_ v) /\
  capacity_ (data_ v) < SIZE_MOD.

(** The invariant of the container: [0 <= size <= capacity], the slots
    [0, size) hold live objects, the slots [size, capacity) do not. *)
Definition invariant (s : state) (v : Vector) : Prop :=
  size_ v <= capacity_ (data_ v) /\
  lives s v = replicate (N.to_nat (size_ v)) true ++
              replicate (N.to_nat (capacity_ (data_ v) - size_ v)) false.

End Model.

Arguments cell : clear implicits.
Arguments state : clear implicits.
Arguments ctor_args : clear implicits.

(** a program that starts with [Vector<T> v;] at address 0 *)
Definition fresh_vector {T} : state T := mkState {[ 0%nat := Vector_default ]} ∅ [].

(** ** [Vector<int>] *)

#[export] Instance int_element : Element Z := {|
  is_nothrow_move_constructible := true;
  is_copy_constructible := true;
  copy_throws := fun _ => false;
  move_throws := fun _ => false;
  moved_from := fun x => x;
  is_trivially_destructible := true;
  size_of := 4;
|}.

(** [Vector<int>] at address 0 with elements 1, 2, 3 in a block of 4 slots *)
Definition int_vector_123 : state Z :=
  mkState {[ 0%nat := mkVec (mkRaw (Ptr (Some 5%nat) 0) 4) 3 ]}
          {[ 5%nat := [Cell (Some 1%Z) true; Cell (Some 2%Z) true;
                       Cell (Some 3%Z) true; raw_cell] ]}
          [].

(** [Vector<int>] at address 0 with elements 1, 2, 3 in a block of 3 slots *)
Definition int_vector_full : state Z :=
  mkState {[ 0%nat := mkVec (mkRaw (Ptr (Some 5%nat) 0) 3) 3 ]}
          {[ 5%nat := [Cell (Some 1%Z) true; Cell (Some 2%Z) true;
                       Cell (Some 3%Z) true] ]}
          [].

(** ** An element type with a destructor of its own

    The destructor releases what the object holds, so a destroyed object has
    no value left.  The copy constructor throws on a negative payload, the
    move constructor is not [noexcept] and leaves payload 0 behind. *)

Record Obj := mkObj { payload : Z }.

#[export] Instance obj_element : Element Obj := {|
  is_nothrow_move_constructible := false;
  is_copy_constructible := true;
  copy_throws := fun o => (payload o <? 0)%Z;
  move_throws := fun _ => false;
  moved_from := fun _ => mkObj 0;
  is_trivially_destructible := false;
  size_of := 8;
|}.

Definition live_obj (n : Z) : cell Obj := Cell (Some (mkObj n)) true.

(** [Vector<Obj>] at address 0 with elements 1, 2, 3 in a block of 4 slots *)
Definition obj_vector_123 : state Obj :=
  mkState {[ 0%nat := mkVec (mkRaw (Ptr (Some 5%nat) 0) 4) 3 ]}
          {[ 5%nat := [live_obj 1; live_obj 2; live_obj 3; raw_cell] ]}
          [].

(** [Vector<Obj>] at address 0 with elements 1, -2, 3 in a block of 3 slots *)
Definition obj_vector_full : state Obj :=
  mkState {[ 0%nat := mkVec (mkRaw (Ptr (Some 5%nat) 0) 3) 3 ]}
          {[ 5%nat := [live_obj 1; live_obj (-2); live_obj 3] ]}
          [].

(** [Vector<Obj> a] at address 0 with the element 1 in a block of 4 slots,
    [Vector<Obj> b] at address 1 with the elements 7, 8, 9 in a block of 3 *)
Definition obj_vector_pair : state Obj :=
  mkState {[ 0%nat := mkVec (mkRaw (Ptr (Some 5%nat) 0) 4) 1;
             1%nat := mkVec (mkRaw (Ptr (Some 6%nat) 0) 3) 3 ]}
          {[ 5%nat := [live_obj 1; raw_cell; raw_cell; raw_cell];
             6%nat := [live_obj 7; live_obj 8; live_obj 9] ]}
          [].

(** [Vector<Obj> a] at address 0 with the element 1 in a block of 1 slot,
    [Vector<Obj> b] at address 1 with the elements 7, [n], 9 in a block of 3 *)
Definition obj_vector_short (n : Z) : state Obj :=
  mkState {[ 0%nat := mkVec (mkRaw (Ptr (Some 5%nat) 0) 1) 1;
             1%nat := mkVec (mkRaw (Ptr (Some 6%nat) 0) 3) 3 ]}
          {[ 5%nat := [live_obj 1];
             6%nat := [live_obj 7; live_obj n; live_obj 9] ]}
          [].

(** ** A string-like element type

    The move constructor is [noexcept] and leaves an empty string behind,
    no copy throws, and the destructor releases the characters. *)

Record Str := mkStr { chars : list nat }.

#[export] Instance str_element : Element Str := {|
  is_nothrow_move_constructible := true;
  is_copy_constructible := true;
  copy_throws := fun _ => false;
  move_throws := fun _ => false;
  moved_from := fun _ => mkStr [];
  is_trivially_destructible := false;
  size_of := 32;
|}.

(** [Str()] gives the empty string and throws from its [m]-th call on *)
Definition str_init_until (m : nat) : nat -> option Str :=
  fun k => if (k <? m)%nat then Some (mkStr []) else None.

(** [Vector<Str>] at address 0 with two elements in a block of 2 slots *)
Definition str_vector_full : state Str :=
  mkState {[ 0%nat := mkVec (mkRaw (Ptr (Some 5%nat) 0) 2) 2 ]}
          {[ 5%nat := [Cell (Some (mkStr [1%nat])) true;
                       Cell (Some (mkStr [2%nat; 3%nat])) true] ]}
          [].

(** value-initialisation of [int] gives 0 *)
Definition int_init : nat -> option Z := fun _ => Some 0%Z.

(** [Obj()] gives payload 0 and throws from its [m]-th call on *)
Definition obj_init_until (m : nat) : nat -> option Obj :=
  fun k => if (k <? m)%nat then Some (mkObj 0) else None.

(** ** What the loops compute, on one block

    The pure counterparts of the element calls and of the loops over them;
    the lemmas below show that the loops run to these. *)

Section Pure.
Context {T : Type} `{Element T}.

(** slot [i] of block [b] *)
Definition at_ (b i : nat) : ptr := Ptr (Some b) (N.of_nat i).

(** the pointers a loop of [n] steps visits from [p] on *)
Fixpoint ptrs (n : nat) (p : ptr) : list ptr :=
  match n with
  | O => []
  | S n' => p :: ptrs n' (next p)
  end.

(** the pointers a backward loop of [n] steps visits below [p] *)
Fixpoint ptrs_back (n : nat) (p : ptr) : list ptr :=
  match n with
  | O => []
  | S n' => prev p :: ptrs_back n' (prev p)
  end.

(** [e] is a call on a slot [i] of block [b] with [lo <= i < hi]: its
    construction by copy, or its destruction *)
Definition on_slots (b lo hi : nat) (e : event) : Prop :=
  exists i, (lo <= i < hi)%nat /\
            (e = EDtor (at_ b i) \/ exists src, e = ECopyCtor (at_ b i) src).

Definition kill_cell (c : cell T) : cell T := Cell (destroyed (val c)) false.
Definition live_from (c : cell T) : cell T := Cell (val c) true.
Definition moved_cell (c : cell T) : cell T := Cell (moved_from <$> val c) (alive c).
Definition assigned (src dst : cell T) : cell T := Cell (val src) (alive dst).

(** [f] on each of the slots [j, j + n), front to back *)
Fixpoint alter_range (f : cell T -> cell T) (n j : nat) (cs : list (cell T))
  : list (cell T) :=
  match n with
  | O => cs
  | S n' => alter_range f n' (S j) (alter f j cs)
  end.

(** the slots [j, j + n) of [ds] written from the slots [i, i + n) of
    another block [ss], front to back; [f] makes the new cell from the source
    cell and the old cell *)
Fixpoint blit (f : cell T -> cell T -> cell T) (n i j : nat)
    (ss ds : list (cell T)) : list (cell T) :=
  match n with
  | O => ds
  | S n' =>
      match ss !! i, ds !! j with
      | Some c, Some d => blit f n' (S i) (S j) ss (<[j := f c d]> ds)
      | _, _ => ds
      end
  end.

(** what a copy or move constructor puts where [c] is the source *)
Definition built (c _ : cell T) : cell T := live_from c.

(** one assignment from slot [src] to slot [dst] of one block, by move or by
    copy *)
Definition assign_in (mv : bool) (dst src : nat) (cs : list (cell T)) : list (cell T) :=
  match cs !! src, cs !! dst with
  | Some c, Some d =>
      let cs1 := <[dst := assigned c d]> cs in
      if mv then
        match cs1 !! src with
        | Some c' => <[src := Cell (moved_from <$> val c) (alive c')]> cs1
        | None => cs1
        end
      else cs1
  | _, _ => cs
  end.

(** [std::move] or [std::copy] of the slots [j + 1, j + 1 + n) to [j] *)
Fixpoint shift_left (mv : bool) (n j : nat) (cs : list (cell T)) : list (cell T) :=
  match n with
  | O => cs
  | S n' => shift_left mv n' (S j) (assign_in mv j (S j) cs)
  end.

(** [std::move_backward] of the [n] slots below [l] to the slots below
    [l + 1] *)
Fixpoint shift_right (n l : nat) (cs : list (cell T)) : list (cell T) :=
  match n with
  | O => cs
  | S n' => shift_right n' (pred l) (assign_in true l (pred l) cs)
  end.

(** the slots [j, j + n) constructed by the calls [k, k + n) of [T()] *)
Fixpoint filled (init : nat -> option T) (n k j : nat) (cs : list (cell T))
  : list (cell T) :=
  match n with
  | O => cs
  | S n' => filled init n' (S k) (S j) (<[j := Cell (init k) true]> cs)
  end.

(** the state [Erase] at slot [p] of [v] ends in *)
Definition erased (this : nat) (v : Vector) (p : N) (s : state T) : state T :=
  let mv := is_nothrow_move_constructible || negb is_copy_constructible in
  let pos := ptr_add (begin v) p in
  let n := N.to_nat (size_ v - 1 - p) in
  match blk (buffer_ (data_ v)) with
  | Some b =>
      mkState (<[this := mkVec (data_ v) (size_ v - 1)]> (objs s))
              (<[b := alter kill_cell (N.to_nat (size_ v) - 1)%nat
                        (shift_left mv n (N.to_nat p) (block_of s v))]> (heap s))
              (log s ++
               zip_with (if mv then EMoveAssign else ECopyAssign)
                        (ptrs n pos) (ptrs n (next pos)) ++
               [EDtor (ptr_add (begin v) (size_ v - 1))])
  | None => s
  end.

(** [args] are arguments [T] is constructed from, and the object built
    has the value [x] *)
Definition builds (args : ctor_args T) (x : T) : Prop :=
  args = CopyOf x \/ args = MoveOf x \/ args = Made (Some x).

(** [args] are arguments [T] is constructed from, the constructor called
    does not throw on them, and the object built has the value [x] *)
Definition constructs (args : ctor_args T) (x : T) : Prop :=
  (args = CopyOf x /\ copy_throws x = false) \/
  (args = MoveOf x /\ move_throws x = false) \/
  args = Made (Some x).

(** [args] are arguments [T] is constructed from in the state [s], the
    constructor called does not throw on them, and the object built has the
    value [x]: arguments as in [constructs], or a [const T&] to a slot of the
    free store that holds [x], an element of a vector for one *)
Definition makes (s : state T) (args : ctor_args T) (x : T) : Prop :=
  constructs args x \/
  exists b i cs c, args = RefCopy (at_ b i) /\ heap s !! b = Some cs /\
                   cs !! i = Some c /\ val c = Some x /\ copy_throws x = false.

(** what the reference [v[i]] names when [Emplace] at slot [p] builds the new
    element from it, [V] being the values before the call.  With a free slot
    and [p] before the end ([shifted]), the elements from [p] on have been
    moved one slot up by then: the reference names the element that was at
    [i - 1], and at [i = p] the object left by the move.  Otherwise the new
    element is built first, from the element at [i]. *)
Definition read_through (V : list (option T)) (shifted : bool) (p i : nat)
  : option (option T) :=
  if shifted then
    if decide (i < p)%nat then V !! i
    else if decide (i = p) then option_map moved_from <$> V !! p
    else V !! (i - 1)%nat
  else V !! i.

(** whether [Relocate] and [Erase] move or copy *)
Definition by_move : bool :=
  is_nothrow_move_constructible || negb is_copy_constructible.

(** the source cells after [Relocate] of the slots [i, i + n) *)
Definition relocated_src (n i : nat) (ss : list (cell T)) : list (cell T) :=
  if by_move then alter_range moved_cell n i ss else ss.

(** the new block [Emplace] fills when it has to grow *)
Definition grown (A : list (cell T)) (cap' p sz : nat) (x : T) : list (cell T) :=
  blit built (sz - p) p (S p) A
    (blit built p 0 0 A
       (<[p := Cell (Some x) true]> (replicate cap' raw_cell))).

End Pure.

(** [destroy_at] on each of the slots [j, j + n) *)
Abbreviation kill := (alter_range kill_cell).

(** * Theorems *)

(** ** The scenario on [Vector<int>] *)

(** C1: from an empty [Vector<int>], three [PushBack] give [1,2,3] while the
    capacity goes 0, 1, 2, 4; [Insert] of 9 at [begin()+1] gives [1,9,2,3];
    [Erase] at [begin()+2] gives [1,9,3]; [PopBack] gives [1,9]. *)
Theorem scenario_int :
  exists s1 s2 s3 s4 s5 s6 v1 v2 v3 v4 v5 v6 it it',
    Capacity 0%nat (fresh_vector (T := Z)) = Ok 0 fresh_vector /\
    PushBack_rvalue 0%nat 1%Z fresh_vector = Ok tt s1 /\
    objs s1 !! 0%nat = Some v1 /\
    values s1 v1 = [Some 1%Z] /\ capacity_ (data_ v1) = 1 /\
    PushBack_rvalue 0%nat 2%Z s1 = Ok tt s2 /\
    objs s2 !! 0%nat = Some v2 /\
    values s2 v2 = [Some 1%Z; Some 2%Z] /\ capacity_ (data_ v2) = 2 /\
    PushBack_rvalue 0%nat 3%Z s2 = Ok tt s3 /\
    objs s3 !! 0%nat = Some v3 /\
    values s3 v3 = [Some 1%Z; Some 2%Z; Some 3%Z] /\
    capacity_ (data_ v3) = 4 /\
    Insert_rvalue 0%nat (ptr_add (begin v3) 1) 9%Z s3 = Ok it s4 /\
    objs s4 !! 0%nat = Some v4 /\
    values s4 v4 = [Some 1%Z; Some 9%Z; Some 2%Z; Some 3%Z] /\
    it = ptr_add (begin v4) 1 /\
    Erase 0%nat (ptr_add (begin v4) 2) s4 = Ok it' s5 /\
    objs s5 !! 0%nat = Some v5 /\
    values s5 v5 = [Some 1%Z; Some 9%Z; Some 3%Z] /\
    PopBack 0%nat s5 = Ok tt s6 /\
    objs s6 !! 0%nat = Some v6 /\
    values s6 v6 = [Some 1%Z; Some 9%Z].
Proof.
  do 14 eexists.
  do 22 (split; [vm_compute; reflexivity|]).
  vm_compute; reflexivity.
Qed.

(** ** Calls that change nothing *)

Section Frame.
Context {T : Type} `{Element T}.

(** C9: [Reserve(k)] with [k <= Capacity()] returns at once; the vector
    object, every block of the free store (so every element, its value and its
    address) and the log of element calls are as before. *)
Theorem Reserve_within_capacity (this : nat) (v : Vector) (s : state T) (k : N) :
  objs s !! this = Some v ->
  k <= capacity_ (data_ v) ->
  Reserve this k s = Ok tt s.
Proof.
  intros Hv Hk. unfold Reserve, bind, get_vec. rewrite Hv.
  apply N.leb_le in Hk. rewrite Hk. reflexivity.
Qed.

(** C10: [v = v] and [v = std::move(v)] see [this == &rhs] and return with
    nothing changed: same size, capacity, buffer and elements. *)
Theorem self_assignment_noop (this : nat) (s : state T) :
  copy_assign this this s = Ok tt s /\
  move_assign this this s = Ok tt s.
Proof.
  unfold copy_assign, move_assign.
  rewrite bool_decide_eq_true_2 by reflexivity. split; reflexivity.
Qed.

End Frame.

Lemma Reserve_within_capacity_witness :
  (2 <= 4)%N /\ Reserve 0%nat 2 obj_vector_123 = Ok tt obj_vector_123.
Proof.
  split; [lia|].
  apply (Reserve_within_capacity 0%nat (mkVec (mkRaw (Ptr (Some 5%nat) 0) 4) 3)
           obj_vector_123 2); [reflexivity | simpl; lia].
Defined.

(** ** Running the element calls and the loops *)

Section Runs.
Context {T : Type} `{Element T}.
Implicit Types (s : state T) (cs ss ds : list (cell T)) (b bs bd i j n : nat).

Lemma at_next b i : next (at_ b i) = at_ b (S i).
Proof. unfold next, ptr_add, at_. simpl. f_equal. lia. Qed.

Lemma at_prev b i : prev (at_ b (S i)) = at_ b i.
Proof. unfold prev, at_. simpl. f_equal. lia. Qed.

Lemma at_distance b i j : N.to_nat (distance (at_ b i) (at_ b j)) = (j - i)%nat.
Proof. unfold distance, at_. simpl. lia. Qed.

Lemma load_cell_at s b i cs c :
  heap s !! b = Some cs -> cs !! i = Some c ->
  load_cell (at_ b i) s = Ok c s.
Proof.
  intros Hb Hi. unfold load_cell, at_. simpl.
  rewrite Hb, Nat2N.id, Hi. reflexivity.
Qed.

Lemma store_cell_at s b i cs c :
  heap s !! b = Some cs -> (i < length cs)%nat ->
  store_cell (at_ b i) c s
  = Ok tt (mkState (objs s) (<[b := <[i := c]> cs]> (heap s)) (log s)).
Proof.
  intros Hb Hi. unfold store_cell, at_. simpl.
  rewrite Hb, Nat2N.id. rewrite decide_True by assumption. reflexivity.
Qed.

Lemma alter_lookup {A} (f : A -> A) (l : list A) i x :
  l !! i = Some x -> alter f i l = <[i := f x]> l.
Proof.
  intros Hx. apply list_eq. intros k.
  destruct (decide (i = k)) as [->|Hne].
  - rewrite list_lookup_alter_eq, Hx, list_lookup_insert_eq; [done|].
    eapply lookup_lt_Some; eauto.
  - rewrite list_lookup_alter_ne, list_lookup_insert_ne; done.
Qed.

Lemma destroy_at_run s b i cs :
  heap s !! b = Some cs -> (i < length cs)%nat ->
  destroy_at (at_ b i) s
  = Ok tt (mkState (objs s) (<[b := alter kill_cell i cs]> (heap s))
                   (log s ++ [EDtor (at_ b i)])).
Proof.
  intros Hb Hi. destruct (lookup_lt_is_Some_2 cs i Hi) as [c Hc].
  unfold destroy_at, bind. rewrite (load_cell_at s b i cs c Hb Hc).
  rewrite (store_cell_at s b i cs _ Hb Hi). unfold emit. simpl.
  rewrite (alter_lookup _ _ _ _ Hc). reflexivity.
Qed.

Lemma length_kill n : forall j cs, length (kill n j cs) = length cs.
Proof.
  induction n as [|n IH]; intros j cs; simpl; [done|].
  rewrite IH. apply length_alter.
Qed.

Lemma destroy_loop_run b n : forall j cs s,
  heap s !! b = Some cs -> (j + n <= length cs)%nat ->
  destroy_loop n (at_ b j) s
  = Ok tt (mkState (objs s) (<[b := kill n j cs]> (heap s))
                   (log s ++ (EDtor <$> ptrs n (at_ b j)))).
Proof.
  induction n as [|n IH]; intros j cs s Hb Hn; simpl.
  - unfold ret. rewrite insert_id by assumption. rewrite app_nil_r.
    destruct s; reflexivity.
  - unfold bind. rewrite (destroy_at_run s b j cs Hb) by lia.
    rewrite at_next. rewrite (IH (S j) (alter kill_cell j cs)); simpl.
    + rewrite insert_insert_eq, <- app_assoc. reflexivity.
    + apply lookup_insert_eq.
    + rewrite length_alter. lia.
Qed.

Lemma copy_construct_run s bs bd i j ss ds c :
  heap s !! bs = Some ss -> ss !! i = Some c ->
  heap s !! bd = Some ds -> (j < length ds)%nat ->
  copy_construct (at_ bd j) (at_ bs i) s
  = if throws_on copy_throws (val c) then Throw s
    else Ok tt (mkState (objs s) (<[bd := <[j := live_from c]> ds]> (heap s))
                        (log s ++ [ECopyCtor (at_ bd j) (at_ bs i)])).
Proof.
  intros Hs Hc Hd Hj. unfold copy_construct, bind.
  rewrite (load_cell_at s bs i ss c Hs Hc).
  destruct (throws_on copy_throws (val c)); [reflexivity|].
  rewrite (store_cell_at s bd j ds _ Hd Hj). reflexivity.
Qed.

(** [uninitialized_copy_n] between two blocks writes to the destination
    block only, and throws exactly when the copy of one of the sources
    does. *)
Lemma uninitialized_copy_loop_frame bs bd ss j0 n : forall i j ds s,
  heap s !! bs = Some ss -> heap s !! bd = Some ds -> bs <> bd ->
  (i + n <= length ss)%nat -> (j0 <= j)%nat -> (j + n <= length ds)%nat ->
  exists ds' l',
    length ds' = length ds /\
    ((uninitialized_copy_loop n (at_ bs i) (at_ bd j) (at_ bd j0) s
      = Ok tt (mkState (objs s) (<[bd := ds']> (heap s)) l') /\
      forall k c, (k < n)%nat -> ss !! (i + k)%nat = Some c ->
                  throws_on copy_throws (val c) = false) \/
     (uninitialized_copy_loop n (at_ bs i) (at_ bd j) (at_ bd j0) s
      = Throw (mkState (objs s) (<[bd := ds']> (heap s)) l') /\
      exists k c, (k < n)%nat /\ ss !! (i + k)%nat = Some c /\
                  throws_on copy_throws (val c) = true)).
Proof.
  induction n as [|n IH]; intros i j ds s Hs Hd Hne Hi Hj0 Hj; simpl.
  - exists ds, (log s). split; [done|]. left. split; [|intros; lia].
    unfold ret. rewrite insert_id by assumption. destruct s; reflexivity.
  - destruct (lookup_lt_is_Some_2 ss i) as [c Hc]; [lia|].
    unfold bind, try_catch.
    rewrite (copy_construct_run s bs bd i j ss ds c Hs Hc Hd) by lia.
    destruct (throws_on copy_throws (val c)) eqn:Hthr.
    + unfold destroy_n. rewrite at_distance.
      rewrite (destroy_loop_run bd (j - j0) j0 ds s Hd) by lia.
      eexists _, _. split; [apply length_kill|]. right. split; [reflexivity|].
      exists 0%nat, c. rewrite Nat.add_0_r. split; [lia|done].
    + rewrite !at_next.
      set (s1 := mkState _ _ _).
      destruct (IH (S i) (S j) (<[j := live_from c]> ds) s1)
        as (ds' & l' & Hlen & Hcase); subst s1; simpl.
      * rewrite lookup_insert_ne by done. assumption.
      * apply lookup_insert_eq.
      * assumption.
      * lia.
      * lia.
      * rewrite length_insert. lia.
      * rewrite length_insert in Hlen. exists ds', l'. split; [assumption|].
        simpl in Hcase. rewrite insert_insert_eq in Hcase.
        destruct Hcase as [[Hrun Hall]|[Hrun (k & c' & Hk & Hc' & Ht)]].
        -- left. split; [exact Hrun|]. intros k c' Hk Hc'.
           destruct k as [|k].
           ++ rewrite Nat.add_0_r in Hc'. congruence.
           ++ apply (Hall k c'); [lia|].
              rewrite <- Hc'. f_equal. lia.
        -- right. split; [exact Hrun|]. exists (S k), c'.
           split; [lia|]. split; [|assumption].
           rewrite <- Hc'. f_equal. lia.
Qed.

Lemma fresh_block_free s : heap s !! fresh (dom (heap s)) = None.
Proof. apply not_elem_of_dom. apply is_fresh. Qed.

Lemma Reserve_by_copy (this : nat) (v : Vector) (s : state T) (m : N) :
  objs s !! this = Some v ->
  vector_ok s v ->
  capacity_ (data_ v) < m ->
  is_nothrow_move_constructible = false ->
  is_copy_constructible = true ->
  ((exists s', Reserve this m s = Ok tt s') /\
   forall i c, (i < N.to_nat (size_ v))%nat -> block_of s v !! i = Some c ->
               throws_on copy_throws (val c) = false) \/
  ((exists l', Reserve this m s = Throw (mkState (objs s) (heap s) l')) /\
   exists i c, (i < N.to_nat (size_ v))%nat /\ block_of s v !! i = Some c /\
               throws_on copy_throws (val c) = true).
Proof.
  intros Hv ((Hoff & Hown) & Hsz & Hcap) Hm Hmv Hcp.
  destruct v as [[[bo o] cap] sz]; simpl in *. subst o.
  unfold Reserve, bind, get_vec. rewrite Hv. simpl.
  destruct (N.leb_spec m cap) as [|_]; [lia|].
  unfold RawMemory_new, bind, Allocate.
  destruct (N.eqb_spec m 0) as [|_]; [lia|].
  unfold ret at 1. unfold with_RawMemory, bind, Relocate.
  rewrite Hmv, Hcp. simpl.
  unfold uninitialized_copy_n, begin, GetAddress. simpl.
  set (b := fresh (dom (heap s))).
  assert (Hb : heap s !! b = None) by apply fresh_block_free.
  destruct bo as [bs|].
  - destruct Hown as (ss & Hss & Hlen).
    assert (Hne : bs <> b) by congruence.
    change (Ptr (Some bs) 0) with (at_ bs 0).
    change (Ptr (Some b) 0) with (at_ b 0).
    set (s1 := mkState _ _ _).
    destruct (uninitialized_copy_loop_frame bs b ss 0 (N.to_nat sz) 0 0
                (replicate (N.to_nat m) raw_cell) s1)
      as (ds' & l' & Hlen' & [[Hrun Hall]|[Hrun Hex]]); subst s1; simpl.
    + rewrite lookup_insert_ne by done. assumption.
    + apply lookup_insert_eq.
    + assumption.
    + lia.
    + lia.
    + rewrite length_replicate. lia.
    + left. rewrite Hrun. simpl. unfold destroy_n.
      erewrite (destroy_loop_run bs (N.to_nat sz) 0 ss); simpl.
      * unfold set_vec, ret, RawMemory_dtor, Deallocate. simpl.
        rewrite lookup_insert_eq. split; [eauto|].
        unfold block_of. simpl. rewrite Hss. simpl. exact Hall.
      * rewrite insert_insert_eq, lookup_insert_ne by done. assumption.
      * lia.
    + right. rewrite Hrun. unfold RawMemory_dtor, Deallocate, bind, throw. simpl.
      rewrite lookup_insert_eq. simpl.
      rewrite !insert_insert_eq, delete_insert_id by assumption.
      split; [eauto|]. unfold block_of. simpl. rewrite Hss. simpl.
      destruct Hex as (k & c & Hk & Hc & Ht). exists k, c. auto.
  - assert (sz = 0) by lia. subst sz. simpl.
    left. unfold destroy_n, ret, set_vec, RawMemory_dtor, Deallocate. simpl.
    split; [eauto|]. intros; lia.
Qed.

(** C3: [Reserve(n)] beyond the capacity on a type that is relocated by
    copy.  When it leaves by an exception, the vector object and the whole
    free store are what they were before the call: same size, capacity,
    buffer and cells.  And when the byte count [n * sizeof(T)] of the
    request is representable in [size_t], it does leave by an exception as
    soon as the copy of one of the elements throws. *)
Theorem Reserve_strong_guarantee (this : nat) (v : Vector) (s : state T) (m : N) :
  objs s !! this = Some v ->
  vector_ok s v ->
  capacity_ (data_ v) < m ->
  is_nothrow_move_constructible = false ->
  is_copy_constructible = true ->
  (forall s', Reserve this m s = Throw s' ->
              objs s' = objs s /\ heap s' = heap s) /\
  (m * size_of (T := T) < SIZE_MOD ->
   (exists i c, (i < N.to_nat (size_ v))%nat /\ block_of s v !! i = Some c /\
                throws_on copy_throws (val c) = true) ->
   exists s', Reserve this m s = Throw s').
Proof.
  intros Hv Hok Hm Hmv Hcp.
  destruct (Reserve_by_copy this v s m Hv Hok Hm Hmv Hcp)
    as [[[s1 Hrun] Hall]|[[l' Hrun] _]].
  - split.
    + intros s' Hs'. congruence.
    + intros _ (i & c & Hi & Hc & Ht).
      rewrite (Hall i c Hi Hc) in Ht. discriminate.
  - split.
    + intros s' Hs'. rewrite Hrun in Hs'. injection Hs' as <-. split; reflexivity.
    + intros _ _. eauto.
Qed.

End Runs.

Lemma Reserve_strong_guarantee_witness :
  exists s',
    Reserve 0%nat 6 obj_vector_full = Throw s' /\
    objs s' = objs obj_vector_full /\ heap s' = heap obj_vector_full.
Proof.
  destruct (Reserve_strong_guarantee 0%nat
              (mkVec (mkRaw (Ptr (Some 5%nat) 0) 3) 3) obj_vector_full 6)
    as [Hsame Hthrows].
  - reflexivity.
  - split; [split; [reflexivity|]|split; [simpl; lia|reflexivity]].
    exists [live_obj 1; live_obj (-2); live_obj 3]. split; reflexivity.
  - simpl. lia.
  - reflexivity.
  - reflexivity.
  - destruct Hthrows as [s' Hrun].
    + reflexivity.
    + exists 1%nat, (live_obj (-2)).
      split; [simpl; lia|]. split; reflexivity.
    + exists s'. split; [exact Hrun|]. apply Hsame. exact Hrun.
Defined.

(** ** Assignments inside one block *)

Section Shifts.
Context {T : Type} `{Element T}.
Implicit Types (s : state T) (cs : list (cell T)) (b i j n : nat).

Lemma assign_in_eq mv d sr cs c x :
  cs !! sr = Some c -> cs !! d = Some x -> d <> sr ->
  assign_in mv d sr cs
  = if mv then <[sr := moved_cell c]> (<[d := assigned c x]> cs)
    else <[d := assigned c x]> cs.
Proof.
  intros Hc Hx Hne. unfold assign_in. rewrite Hc, Hx.
  destruct mv; [|reflexivity].
  rewrite list_lookup_insert_ne, Hc by done. reflexivity.
Qed.

Lemma length_assign_in mv d sr cs : length (assign_in mv d sr cs) = length cs.
Proof.
  unfold assign_in. destruct (cs !! sr) as [c|]; [|done].
  destruct (cs !! d) as [x|]; [|done].
  destruct mv; [|by rewrite length_insert].
  destruct (<[d := assigned c x]> cs !! sr); by rewrite ?length_insert.
Qed.

Lemma alive_assign_in mv d sr cs :
  alive <$> assign_in mv d sr cs = alive <$> cs.
Proof.
  unfold assign_in. destruct (cs !! sr) as [c|] eqn:Hc; [|done].
  destruct (cs !! d) as [x|] eqn:Hx; [|done].
  assert (Hd : alive <$> <[d := assigned c x]> cs = alive <$> cs).
  { rewrite list_fmap_insert. apply list_insert_id.
    rewrite list_lookup_fmap, Hx. reflexivity. }
  destruct mv; [|exact Hd].
  destruct (<[d := assigned c x]> cs !! sr) as [c'|] eqn:Hc'; [|exact Hd].
  rewrite list_fmap_insert, Hd. simpl. apply list_insert_id.
  rewrite <- Hd, list_lookup_fmap, Hc'. reflexivity.
Qed.

Lemma move_assign_elem_run s b d sr cs :
  heap s !! b = Some cs -> (d < length cs)%nat -> (sr < length cs)%nat ->
  move_assign_elem (at_ b d) (at_ b sr) s
  = Ok tt (mkState (objs s) (<[b := assign_in true d sr cs]> (heap s))
                   (log s ++ [EMoveAssign (at_ b d) (at_ b sr)])).
Proof.
  intros Hb Hd Hsr.
  destruct (lookup_lt_is_Some_2 cs sr Hsr) as [c Hc].
  destruct (lookup_lt_is_Some_2 cs d Hd) as [x Hx].
  unfold move_assign_elem, bind.
  rewrite (load_cell_at s b sr cs c Hb Hc), (load_cell_at s b d cs x Hb Hx).
  rewrite (store_cell_at s b d cs _ Hb Hd).
  destruct (lookup_lt_is_Some_2 (<[d := Cell (val c) (alive x)]> cs) sr)
    as [c' Hc']; [by rewrite length_insert|].
  erewrite load_cell_at; [| apply lookup_insert_eq | exact Hc'].
  erewrite store_cell_at; [| apply lookup_insert_eq | by rewrite length_insert].
  unfold emit. simpl. rewrite insert_insert_eq.
  unfold assign_in, assigned. rewrite Hc, Hx, Hc'. reflexivity.
Qed.

Lemma copy_assign_elem_run s b d sr cs :
  heap s !! b = Some cs -> (d < length cs)%nat -> (sr < length cs)%nat ->
  copy_assign_elem (at_ b d) (at_ b sr) s
  = Ok tt (mkState (objs s) (<[b := assign_in false d sr cs]> (heap s))
                   (log s ++ [ECopyAssign (at_ b d) (at_ b sr)])).
Proof.
  intros Hb Hd Hsr.
  destruct (lookup_lt_is_Some_2 cs sr Hsr) as [c Hc].
  destruct (lookup_lt_is_Some_2 cs d Hd) as [x Hx].
  unfold copy_assign_elem, bind.
  rewrite (load_cell_at s b sr cs c Hb Hc), (load_cell_at s b d cs x Hb Hx).
  rewrite (store_cell_at s b d cs _ Hb Hd).
  unfold emit. simpl. unfold assign_in, assigned. rewrite Hc, Hx. reflexivity.
Qed.

Lemma length_shift_left mv n : forall j cs,
  length (shift_left mv n j cs) = length cs.
Proof.
  induction n as [|n IH]; intros j cs; simpl; [done|].
  rewrite IH. apply length_assign_in.
Qed.

Lemma alive_shift_left mv n : forall j cs,
  alive <$> shift_left mv n j cs = alive <$> cs.
Proof.
  induction n as [|n IH]; intros j cs; simpl; [done|].
  rewrite IH. apply alive_assign_in.
Qed.

(** after the shift, slot [i] of [j, j + n) has the bits slot [i + 1] had *)
Lemma shift_left_val mv n : forall j cs i,
  (j + n < length cs)%nat -> (i < j + n)%nat ->
  val <$> (shift_left mv n j cs !! i)
  = if decide (i < j)%nat then val <$> (cs !! i) else val <$> (cs !! S i).
Proof.
  induction n as [|n IH]; intros j cs i Hlen Hi; simpl.
  - rewrite decide_True by lia. reflexivity.
  - destruct (lookup_lt_is_Some_2 cs (S j)) as [c Hc]; [lia|].
    destruct (lookup_lt_is_Some_2 cs j) as [x Hx]; [lia|].
    rewrite IH by (rewrite ?length_assign_in; lia).
    rewrite (assign_in_eq mv j (S j) cs c x Hc Hx) by lia.
    destruct (decide (i < S j)%nat) as [Hlt|Hge].
    + destruct (decide (i < j)%nat) as [Hlt'|Hge'].
      * destruct mv; rewrite ?list_lookup_insert_ne by lia; reflexivity.
      * assert (i = j) by lia. subst i. rewrite Hc.
        destruct mv; rewrite ?(list_lookup_insert_ne _ (S j)) by lia;
          rewrite list_lookup_insert_eq by lia; reflexivity.
    + rewrite decide_False by lia.
      destruct mv; rewrite ?list_lookup_insert_ne by lia; reflexivity.
Qed.

Lemma shift_left_values mv n j cs :
  (j + n < length cs)%nat ->
  val <$> take (j + n) (shift_left mv n j cs)
  = take j (val <$> cs) ++ take n (drop (S j) (val <$> cs)).
Proof.
  intros Hlen. apply list_eq. intros i.
  rewrite list_lookup_fmap.
  destruct (decide (i < j + n)%nat) as [Hi|Hi].
  - rewrite lookup_take_lt by lia. rewrite shift_left_val by lia.
    destruct (decide (i < j)%nat) as [Hlt|Hge].
    + rewrite lookup_app_l by (rewrite length_take, length_fmap; lia).
      rewrite lookup_take_lt by lia. apply eq_sym, list_lookup_fmap.
    + rewrite lookup_app_r by (rewrite length_take, length_fmap; lia).
      rewrite length_take, length_fmap.
      rewrite lookup_take_lt by lia. rewrite lookup_drop, list_lookup_fmap.
      f_equal. f_equal. lia.
  - rewrite lookup_take_ge by lia. simpl. symmetry.
    apply lookup_ge_None. rewrite length_app, !length_take, length_drop, length_fmap.
    lia.
Qed.

Lemma move_loop_run b n : forall j cs s,
  heap s !! b = Some cs -> (j + n < length cs)%nat ->
  move_loop n (at_ b (S j)) (at_ b j) s
  = Ok tt (mkState (objs s) (<[b := shift_left true n j cs]> (heap s))
             (log s ++ zip_with EMoveAssign (ptrs n (at_ b j)) (ptrs n (at_ b (S j))))).
Proof.
  induction n as [|n IH]; intros j cs s Hb Hn; simpl.
  - unfold ret. rewrite insert_id by assumption. rewrite app_nil_r.
    destruct s; reflexivity.
  - unfold bind. rewrite (move_assign_elem_run s b j (S j) cs Hb) by lia.
    rewrite !at_next. rewrite (IH (S j) (assign_in true j (S j) cs)); simpl.
    + rewrite insert_insert_eq, <- app_assoc. reflexivity.
    + apply lookup_insert_eq.
    + rewrite length_assign_in. lia.
Qed.

Lemma copy_loop_run b n : forall j cs s,
  heap s !! b = Some cs -> (j + n < length cs)%nat ->
  copy_loop n (at_ b (S j)) (at_ b j) s
  = Ok tt (mkState (objs s) (<[b := shift_left false n j cs]> (heap s))
             (log s ++ zip_with ECopyAssign (ptrs n (at_ b j)) (ptrs n (at_ b (S j))))).
Proof.
  induction n as [|n IH]; intros j cs s Hb Hn; simpl.
  - unfold ret. rewrite insert_id by assumption. rewrite app_nil_r.
    destruct s; reflexivity.
  - unfold bind. rewrite (copy_assign_elem_run s b j (S j) cs Hb) by lia.
    rewrite !at_next. rewrite (IH (S j) (assign_in false j (S j) cs)); simpl.
    + rewrite insert_insert_eq, <- app_assoc. reflexivity.
    + apply lookup_insert_eq.
    + rewrite length_assign_in. lia.
Qed.

End Shifts.

(** ** [PopBack] and [Erase] *)

Section EraseProofs.
Context {T : Type} `{Element T}.
Implicit Types (s : state T) (cs : list (cell T)) (b i j n : nat).

Lemma size_sub_small (a c : N) : c <= a -> a < SIZE_MOD -> size_sub a c = a - c.
Proof.
  intros Hc Ha. unfold size_sub.
  rewrite (N.mod_small c) by lia.
  replace (a + SIZE_MOD - c) with (a - c + 1 * SIZE_MOD) by lia.
  rewrite N.Div0.mod_add. apply N.mod_small. lia.
Qed.

Lemma size_add_small (a c : N) : a + c < SIZE_MOD -> size_add a c = a + c.
Proof. intros Hac. unfold size_add. apply N.mod_small. assumption. Qed.

Lemma ptr_le_same bo (a c : N) : ptr_le (Ptr bo a) (Ptr bo c) = (a <=? c).
Proof. unfold ptr_le. simpl. rewrite bool_decide_eq_true_2 by done. done. Qed.

Lemma at_of_N b (p : N) : Ptr (Some b) p = at_ b (N.to_nat p).
Proof. unfold at_. f_equal. lia. Qed.

(** the vector of a well-formed object with a non-empty buffer *)
Lemma vector_ok_block s v :
  vector_ok s v -> 0 < capacity_ (data_ v) ->
  exists b cs, data_ v = mkRaw (Ptr (Some b) 0) (capacity_ (data_ v)) /\
               heap s !! b = Some cs /\
               length cs = N.to_nat (capacity_ (data_ v)).
Proof.
  intros ((Hoff & Hown) & _ & _) Hcap.
  destruct v as [[[bo o] cap] sz]; simpl in *. subst o.
  destruct bo as [b|]; [|lia].
  destruct Hown as (cs & Hcs & Hlen). eauto.
Qed.

Lemma PopBack_run this s b cap sz cs :
  objs s !! this = Some (mkVec (mkRaw (Ptr (Some b) 0) cap) sz) ->
  heap s !! b = Some cs -> length cs = N.to_nat cap ->
  0 < sz -> sz <= cap -> cap < SIZE_MOD ->
  PopBack this s
  = Ok tt (mkState (<[this := mkVec (mkRaw (Ptr (Some b) 0) cap) (sz - 1)]> (objs s))
                   (<[b := alter kill_cell (N.to_nat sz - 1)%nat cs]> (heap s))
                   (log s ++ [EDtor (Ptr (Some b) (sz - 1))])).
Proof.
  intros Hv Hb Hlen Hsz Hle Hcap.
  unfold PopBack, bind, get_vec. rewrite Hv. simpl.
  rewrite size_sub_small by lia.
  unfold RawMemory_plus, bind, assert_. simpl.
  destruct (N.leb_spec (sz - 1) cap) as [_|]; [|lia].
  unfold ret at 1. unfold ptr_add. simpl. rewrite N.add_0_l.
  rewrite (at_of_N b (sz - 1)).
  erewrite destroy_at_run; simpl; [|exact Hb|lia].
  rewrite <- (at_of_N b (sz - 1)).
  replace (N.to_nat (sz - 1)) with (N.to_nat sz - 1)%nat by lia.
  reflexivity.
Qed.

Lemma Erase_run this v s (p : N) :
  objs s !! this = Some v -> vector_ok s v -> p < size_ v ->
  Erase this (ptr_add (begin v) p) s
  = Ok (ptr_add (begin v) p) (erased this v p s).
Proof.
  intros Hv Hok Hp.
  destruct (vector_ok_block s v Hok) as (b & cs & Hd & Hb & Hlen).
  { destruct Hok as (_ & ? & _). lia. }
  destruct Hok as (_ & Hsz & Hcap).
  destruct v as [d sz]; simpl in *.
  set (cap := capacity_ d) in *. clearbody cap. subst d. simpl in *.
  unfold erased, block_of. simpl. rewrite Hb. simpl.
  unfold Erase, bind, get_vec. rewrite Hv. simpl.
  unfold cbegin, cend, begin, end_, GetAddress, ptr_add. simpl.
  rewrite !N.add_0_l, !ptr_le_same.
  destruct (N.leb_spec 0 p) as [_|]; [|lia].
  destruct (N.leb_spec p sz) as [_|]; [|lia].
  simpl. unfold distance. simpl. rewrite N.sub_0_r.
  unfold next, ptr_add. simpl.
  set (n := N.to_nat (sz - 1 - p)).
  assert (Hn : N.to_nat (sz - (p + 1)) = n) by (subst n; lia).
  rewrite !(at_of_N b). 
  replace (N.to_nat (p + 1)) with (S (N.to_nat p)) by lia.
  destruct (is_nothrow_move_constructible || negb is_copy_constructible).
  - unfold std_move. rewrite at_distance.
    replace (N.to_nat sz - S (N.to_nat p))%nat with n by lia.
    rewrite (move_loop_run b n (N.to_nat p) cs s Hb) by lia.
    erewrite PopBack_run; simpl;
      [|exact Hv|apply lookup_insert_eq|rewrite length_shift_left; exact Hlen
       |lia|lia|lia].
    rewrite lookup_insert_eq. unfold ret. simpl.
    rewrite !insert_insert_eq, <- !app_assoc.
    unfold at_. rewrite ?N2Nat.id, ?N.add_0_l. reflexivity.
  - unfold std_copy. rewrite at_distance.
    replace (N.to_nat sz - S (N.to_nat p))%nat with n by lia.
    rewrite (copy_loop_run b n (N.to_nat p) cs s Hb) by lia.
    erewrite PopBack_run; simpl;
      [|exact Hv|apply lookup_insert_eq|rewrite length_shift_left; exact Hlen
       |lia|lia|lia].
    rewrite lookup_insert_eq. unfold ret. simpl.
    rewrite !insert_insert_eq, <- !app_assoc.
    unfold at_. rewrite ?N2Nat.id, ?N.add_0_l. reflexivity.
Qed.

(** the vector and its values in the state [Erase] ends in *)
Lemma erased_values (this : nat) (v : Vector) (s : state T) (p : N) :
  vector_ok s v ->
  p < size_ v ->
  objs (erased this v p s) !! this = Some (mkVec (data_ v) (size_ v - 1)) /\
  values (erased this v p s) (mkVec (data_ v) (size_ v - 1))
  = take (N.to_nat p) (values s v) ++ drop (S (N.to_nat p)) (values s v).
Proof.
  intros Hok Hp.
  destruct (vector_ok_block s v Hok) as (b & cs & Hd & Hb & Hlen).
  { destruct Hok as (_ & ? & _). lia. }
  destruct Hok as (_ & Hsz & Hcap).
  destruct v as [d sz]; simpl in *.
  set (cap := capacity_ d) in *. clearbody cap. subst d. simpl in *.
  unfold erased, values, block_of. simpl. rewrite Hb. simpl.
  rewrite !lookup_insert_eq. simpl. split; [reflexivity|].
  set (mv := is_nothrow_move_constructible || negb is_copy_constructible).
  set (n := N.to_nat (sz - 1 - p)). set (j := N.to_nat p).
  assert (Hjn : (N.to_nat sz - 1 = j + n)%nat) by (subst j n; lia).
  destruct (lookup_lt_is_Some_2 (shift_left mv n j cs) (j + n)) as [c Hc].
  { rewrite length_shift_left. lia. }
  rewrite Hjn, (alter_lookup _ _ _ _ Hc).
  replace (N.to_nat (sz - 1)) with (j + n)%nat by lia.
  rewrite take_insert_ge by lia.
  rewrite shift_left_values by lia.
  rewrite !fmap_take. rewrite take_take.
  replace (j `min` N.to_nat sz)%nat with j by lia.
  f_equal. rewrite take_drop_commute. do 2 f_equal. lia.
Qed.

(** C6: [Erase(pos)] for [0 <= pos < size] returns [begin() + pos]; the
    values are the old ones without the one at [pos], so every later element
    sits one slot nearer the beginning; the size is one less; the only slot
    whose object is destroyed is the last one, [size - 1]; and the calls on
    elements are [size - 1 - pos] assignments from slot [i + 1] to slot [i],
    front to back, move assignments when the type is nothrow-move-constructible
    or not copy-constructible and copy assignments otherwise, and then that
    one destructor call. *)
Theorem Erase_shifts_and_destroys (this : nat) (v : Vector) (s : state T) (p : N) :
  objs s !! this = Some v ->
  vector_ok s v ->
  p < size_ v ->
  exists s',
    Erase this (ptr_add (begin v) p) s
      = Ok (ptr_add (begin (mkVec (data_ v) (size_ v - 1))) p) s' /\
    objs s' !! this = Some (mkVec (data_ v) (size_ v - 1)) /\
    values s' (mkVec (data_ v) (size_ v - 1))
      = take (N.to_nat p) (values s v) ++ drop (S (N.to_nat p)) (values s v) /\
    lives s' (mkVec (data_ v) (size_ v - 1))
      = <[N.to_nat (size_ v - 1) := false]> (lives s v) /\
    log s'
      = log s ++
        zip_with (if is_nothrow_move_constructible || negb is_copy_constructible
                  then EMoveAssign else ECopyAssign)
                 (ptrs (N.to_nat (size_ v - 1 - p)) (ptr_add (begin v) p))
                 (ptrs (N.to_nat (size_ v - 1 - p)) (next (ptr_add (begin v) p))) ++
        [EDtor (ptr_add (begin v) (size_ v - 1))].
Proof.
  intros Hv Hok Hp. exists (erased this v p s).
  split; [rewrite (Erase_run this v s p Hv Hok Hp); reflexivity|].
  destruct (erased_values this v s p Hok Hp) as [Hobj Hvals].
  split; [exact Hobj|]. split; [exact Hvals|].
  destruct (vector_ok_block s v Hok) as (b & cs & Hd & Hb & Hlen).
  { destruct Hok as (_ & ? & _). lia. }
  destruct Hok as (_ & Hsz & Hcap).
  destruct v as [d sz]; simpl in *.
  set (cap := capacity_ d) in *. clearbody cap. subst d. simpl in *.
  clear Hobj Hvals.
  unfold erased, lives, block_of. simpl. rewrite Hb. simpl.
  rewrite !lookup_insert_eq. simpl.
  set (mv := is_nothrow_move_constructible || negb is_copy_constructible).
  set (n := N.to_nat (sz - 1 - p)). set (j := N.to_nat p).
  assert (Hjn : (N.to_nat sz - 1 = j + n)%nat) by (subst j n; lia).
  destruct (lookup_lt_is_Some_2 (shift_left mv n j cs) (j + n)) as [c Hc].
  { rewrite length_shift_left. lia. }
  rewrite Hjn, (alter_lookup _ _ _ _ Hc).
  split; [|reflexivity].
  rewrite list_fmap_insert. simpl. rewrite alive_shift_left.
  f_equal. lia.
Qed.

End EraseProofs.

Lemma Erase_shifts_and_destroys_witness :
  exists s',
    Erase 0%nat (Ptr (Some 5%nat) 0) obj_vector_123
      = Ok (Ptr (Some 5%nat) 0) s' /\
    values s' (mkVec (mkRaw (Ptr (Some 5%nat) 0) 4) 2)
      = [Some (mkObj 2); Some (mkObj 3)] /\
    lives s' (mkVec (mkRaw (Ptr (Some 5%nat) 0) 4) 2)
      = [true; true; false; false].
Proof.
  destruct (Erase_shifts_and_destroys 0%nat
              (mkVec (mkRaw (Ptr (Some 5%nat) 0) 4) 3) obj_vector_123 0)
    as (s' & Hrun & _ & Hvals & Hlives & _).
  - reflexivity.
  - split; [split; [reflexivity|]|split; [simpl; lia|reflexivity]].
    exists [live_obj 1; live_obj 2; live_obj 3; raw_cell]. split; reflexivity.
  - simpl. lia.
  - exists s'. split; [exact Hrun|]. split; [exact Hvals|exact Hlives].
Defined.

(** ** Loops from one block to another *)

Section Blits.
Context {T : Type} `{Element T}.
Implicit Types (s : state T) (cs ss ds : list (cell T)) (b bs bd i j k n : nat).

Lemma length_alter_range f n : forall j cs,
  length (alter_range f n j cs) = length cs.
Proof.
  induction n as [|n IH]; intros j cs; simpl; [done|].
  rewrite IH. apply length_alter.
Qed.

Lemma alter_range_lookup f n : forall j cs k,
  alter_range f n j cs !! k
  = if decide (j <= k < j + n)%nat then f <$> cs !! k else cs !! k.
Proof.
  induction n as [|n IH]; intros j cs k; simpl.
  - rewrite decide_False by lia. reflexivity.
  - rewrite IH. destruct (decide (k = j)) as [->|Hne].
    + rewrite decide_False by lia. rewrite decide_True by lia.
      apply list_lookup_alter_eq.
    + rewrite list_lookup_alter_ne by done.
      destruct (decide (S j <= k < S j + n)%nat);
        [rewrite decide_True by lia|rewrite decide_False by lia]; reflexivity.
Qed.

Lemma length_blit f n : forall i j ss ds,
  length (blit f n i j ss ds) = length ds.
Proof.
  induction n as [|n IH]; intros i j ss ds; simpl; [done|].
  destruct (ss !! i); [|done]. destruct (ds !! j); [|done].
  rewrite IH. apply length_insert.
Qed.

Lemma blit_lookup f n : forall i j ss ds k,
  (i + n <= length ss)%nat -> (j + n <= length ds)%nat ->
  blit f n i j ss ds !! k
  = if decide (j <= k < j + n)%nat
    then match ss !! (i + (k - j))%nat, ds !! k with
         | Some c, Some d => Some (f c d)
         | _, _ => None
         end
    else ds !! k.
Proof.
  induction n as [|n IH]; intros i j ss ds k Hi Hj; simpl.
  - rewrite decide_False by lia. reflexivity.
  - destruct (lookup_lt_is_Some_2 ss i) as [c Hc]; [lia|].
    destruct (lookup_lt_is_Some_2 ds j) as [d Hd]; [lia|].
    rewrite Hc, Hd. rewrite IH by (rewrite ?length_insert; lia).
    destruct (decide (k = j)) as [->|Hne].
    + rewrite decide_False by lia. rewrite decide_True by lia.
      rewrite list_lookup_insert_eq by lia.
      replace (i + (j - j))%nat with i by lia. rewrite Hc, Hd. reflexivity.
    + rewrite list_lookup_insert_ne by done.
      destruct (decide (S j <= k < S j + n)%nat);
        [rewrite decide_True by lia|rewrite decide_False by lia];
        [|reflexivity].
      replace (S i + (k - S j))%nat with (i + (k - j))%nat by lia. reflexivity.
Qed.

Lemma blit_ext f n : forall i j ss ss' ds,
  (forall k, (i <= k < i + n)%nat -> ss !! k = ss' !! k) ->
  blit f n i j ss ds = blit f n i j ss' ds.
Proof.
  induction n as [|n IH]; intros i j ss ss' ds Hk; simpl; [done|].
  rewrite <- (Hk i) by lia.
  destruct (ss !! i); [|done]. destruct (ds !! j); [|done].
  apply IH. intros k Hr. apply Hk. lia.
Qed.

Lemma copy_assign_elem_cross s bs bd i j ss ds c d :
  heap s !! bs = Some ss -> ss !! i = Some c ->
  heap s !! bd = Some ds -> ds !! j = Some d ->
  copy_assign_elem (at_ bd j) (at_ bs i) s
  = Ok tt (mkState (objs s) (<[bd := <[j := assigned c d]> ds]> (heap s))
                   (log s ++ [ECopyAssign (at_ bd j) (at_ bs i)])).
Proof.
  intros Hs Hc Hd Hj. unfold copy_assign_elem, bind.
  rewrite (load_cell_at s bs i ss c Hs Hc), (load_cell_at s bd j ds d Hd Hj).
  rewrite (store_cell_at s bd j ds _ Hd) by (eapply lookup_lt_Some; eauto).
  reflexivity.
Qed.

Lemma copy_loop_cross bs bd ss n : forall i j ds s,
  heap s !! bs = Some ss -> heap s !! bd = Some ds -> bs <> bd ->
  (i + n <= length ss)%nat -> (j + n <= length ds)%nat ->
  copy_loop n (at_ bs i) (at_ bd j) s
  = Ok tt (mkState (objs s) (<[bd := blit assigned n i j ss ds]> (heap s))
             (log s ++ zip_with ECopyAssign (ptrs n (at_ bd j)) (ptrs n (at_ bs i)))).
Proof.
  induction n as [|n IH]; intros i j ds s Hs Hd Hne Hi Hj; simpl.
  - unfold ret. rewrite insert_id by assumption. rewrite app_nil_r.
    destruct s; reflexivity.
  - destruct (lookup_lt_is_Some_2 ss i) as [c Hc]; [lia|].
    destruct (lookup_lt_is_Some_2 ds j) as [d Hdj]; [lia|].
    unfold bind. rewrite (copy_assign_elem_cross s bs bd i j ss ds c d) by done.
    rewrite !at_next, Hc, Hdj.
    rewrite (IH (S i) (S j) (<[j := assigned c d]> ds)); simpl.
    + rewrite insert_insert_eq, <- app_assoc. reflexivity.
    + rewrite lookup_insert_ne by done. assumption.
    + apply lookup_insert_eq.
    + assumption.
    + lia.
    + rewrite length_insert. lia.
Qed.

Lemma uninitialized_copy_loop_ok bs bd ss j0 n : forall i j ds s,
  heap s !! bs = Some ss -> heap s !! bd = Some ds -> bs <> bd ->
  (i + n <= length ss)%nat -> (j + n <= length ds)%nat ->
  (forall k c, (k < n)%nat -> ss !! (i + k)%nat = Some c ->
               throws_on copy_throws (val c) = false) ->
  uninitialized_copy_loop n (at_ bs i) (at_ bd j) (at_ bd j0) s
  = Ok tt (mkState (objs s) (<[bd := blit built n i j ss ds]> (heap s))
             (log s ++ zip_with ECopyCtor (ptrs n (at_ bd j)) (ptrs n (at_ bs i)))).
Proof.
  induction n as [|n IH]; intros i j ds s Hs Hd Hne Hi Hj Hthr; simpl.
  - unfold ret. rewrite insert_id by assumption. rewrite app_nil_r.
    destruct s; reflexivity.
  - destruct (lookup_lt_is_Some_2 ss i) as [c Hc]; [lia|].
    destruct (lookup_lt_is_Some_2 ds j) as [d Hdj]; [lia|].
    unfold bind, try_catch.
    rewrite (copy_construct_run s bs bd i j ss ds c Hs Hc Hd) by lia.
    rewrite (Hthr 0%nat c) by (rewrite ?Nat.add_0_r; done || lia).
    rewrite !at_next, Hc, Hdj.
    rewrite (IH (S i) (S j) (<[j := live_from c]> ds)); simpl.
    + rewrite insert_insert_eq, <- app_assoc. reflexivity.
    + rewrite lookup_insert_ne by done. assumption.
    + apply lookup_insert_eq.
    + assumption.
    + lia.
    + rewrite length_insert. lia.
    + intros k c' Hk Hc'. apply (Hthr (S k) c'); [lia|].
      rewrite <- Hc'. f_equal. lia.
Qed.

Lemma move_construct_cross s bs bd i j ss ds c :
  heap s !! bs = Some ss -> ss !! i = Some c ->
  heap s !! bd = Some ds -> (j < length ds)%nat -> bs <> bd ->
  throws_on move_throws (val c) = false ->
  move_construct (at_ bd j) (at_ bs i) s
  = Ok tt (mkState (objs s)
             (<[bs := <[i := moved_cell c]> ss]>
                (<[bd := <[j := live_from c]> ds]> (heap s)))
             (log s ++ [EMoveCtor (at_ bd j) (at_ bs i)])).
Proof.
  intros Hs Hc Hd Hj Hne Hthr. unfold move_construct, bind.
  rewrite (load_cell_at s bs i ss c Hs Hc), Hthr.
  rewrite (store_cell_at s bd j ds _ Hd Hj).
  erewrite load_cell_at; [|simpl; rewrite lookup_insert_ne by done; exact Hs|exact Hc].
  erewrite store_cell_at;
    [|simpl; rewrite lookup_insert_ne by done; exact Hs|eapply lookup_lt_Some; eauto].
  reflexivity.
Qed.

Lemma uninitialized_move_loop_ok bs bd j0 n : forall i j ss ds s,
  heap s !! bs = Some ss -> heap s !! bd = Some ds -> bs <> bd ->
  (i + n <= length ss)%nat -> (j + n <= length ds)%nat ->
  (forall x : T, move_throws x = false) ->
  uninitialized_move_loop n (at_ bs i) (at_ bd j) (at_ bd j0) s
  = Ok tt (mkState (objs s)
             (<[bs := alter_range moved_cell n i ss]>
                (<[bd := blit built n i j ss ds]> (heap s)))
             (log s ++ zip_with EMoveCtor (ptrs n (at_ bd j)) (ptrs n (at_ bs i)))).
Proof.
  induction n as [|n IH]; intros i j ss ds s Hs Hd Hne Hi Hj Hthr; simpl.
  - unfold ret. rewrite (insert_id _ bd) by assumption.
    rewrite insert_id by assumption. rewrite app_nil_r.
    destruct s; reflexivity.
  - destruct (lookup_lt_is_Some_2 ss i) as [c Hc]; [lia|].
    destruct (lookup_lt_is_Some_2 ds j) as [d Hdj]; [lia|].
    unfold bind, try_catch.
    rewrite (move_construct_cross s bs bd i j ss ds c) by
      (try done; try lia; destruct (val c); simpl; auto).
    rewrite !at_next, Hc, Hdj.
    rewrite (IH (S i) (S j) (<[i := moved_cell c]> ss) (<[j := live_from c]> ds));
      simpl.
    + rewrite (alter_lookup _ _ _ _ Hc).
      rewrite (insert_insert_ne _ bd bs) by done.
      rewrite !insert_insert_eq.
      rewrite <- app_assoc. change (built c d) with (live_from c).
      rewrite (blit_ext built n (S i) (S j) (<[i := moved_cell c]> ss) ss);
        [reflexivity|].
      intros k Hk. apply list_lookup_insert_ne. lia.
    + apply lookup_insert_eq.
    + rewrite lookup_insert_ne by done. apply lookup_insert_eq.
    + assumption.
    + rewrite length_insert. lia.
    + rewrite length_insert. lia.
    + assumption.
Qed.

End Blits.

(** ** Copy assignment into storage that is large enough *)

Section CopyAssign.
Context {T : Type} `{Element T}.
Implicit Types (s : state T) (cs ss ds : list (cell T)) (b bs bd i j k n : nat).

Lemma lookup_patch {A} (l mid : list A) j k :
  (j <= length l)%nat ->
  (take j l ++ mid ++ drop (j + length mid) l) !! k
  = if decide (k < j)%nat then l !! k
    else if decide (k < j + length mid)%nat then mid !! (k - j)%nat
    else l !! k.
Proof.
  intros Hj. destruct (decide (k < j)%nat).
  - rewrite lookup_app_l by (rewrite length_take; lia).
    apply lookup_take_lt. assumption.
  - rewrite lookup_app_r by (rewrite length_take; lia).
    rewrite length_take. replace (j `min` length l)%nat with j by lia.
    destruct (decide (k < j + length mid)%nat).
    + apply lookup_app_l. lia.
    + rewrite lookup_app_r by lia. rewrite lookup_drop. f_equal. lia.
Qed.

Lemma lookup_patch_n {A} (l mid : list A) j n k :
  length mid = n -> (j <= length l)%nat ->
  (take j l ++ mid ++ drop (j + n) l) !! k
  = if decide (k < j)%nat then l !! k
    else if decide (k < j + n)%nat then mid !! (k - j)%nat
    else l !! k.
Proof. intros <- Hj. apply lookup_patch. assumption. Qed.

Lemma take_alter_range f n j cs m :
  (m <= j)%nat -> take m (alter_range f n j cs) = take m cs.
Proof.
  intros Hm. apply list_eq. intros k.
  destruct (decide (k < m)%nat).
  - rewrite !lookup_take_lt by assumption.
    rewrite alter_range_lookup. rewrite decide_False by lia. reflexivity.
  - rewrite !lookup_take_ge by lia. reflexivity.
Qed.

Lemma alive_kill n j cs :
  (j + n <= length cs)%nat ->
  alive <$> kill n j cs
  = take j (alive <$> cs) ++ replicate n false ++ drop (j + n) (alive <$> cs).
Proof.
  intros Hn. apply list_eq. intros k.
  rewrite (lookup_patch_n _ _ j n) by (rewrite ?length_replicate, ?length_fmap; lia).
  rewrite !list_lookup_fmap, alter_range_lookup.
  destruct (decide (k < j)%nat).
  - rewrite decide_False by lia. reflexivity.
  - destruct (decide (k < j + n)%nat).
    + rewrite decide_True by lia. rewrite lookup_replicate_2 by lia.
      destruct (lookup_lt_is_Some_2 cs k) as [c ->]; [lia|]. reflexivity.
    + rewrite decide_False by lia. reflexivity.
Qed.

Lemma alive_blit_assigned n i j ss ds :
  (i + n <= length ss)%nat -> (j + n <= length ds)%nat ->
  alive <$> blit assigned n i j ss ds = alive <$> ds.
Proof.
  intros Hi Hj. apply list_eq. intros k.
  rewrite !list_lookup_fmap, blit_lookup by assumption.
  destruct (decide _) as [Hk|]; [|reflexivity].
  destruct (lookup_lt_is_Some_2 ss (i + (k - j))) as [c ->]; [lia|].
  destruct (lookup_lt_is_Some_2 ds k) as [d ->]; [lia|]. reflexivity.
Qed.

Lemma alive_blit_built n i j ss ds :
  (i + n <= length ss)%nat -> (j + n <= length ds)%nat ->
  alive <$> blit built n i j ss ds
  = take j (alive <$> ds) ++ replicate n true ++ drop (j + n) (alive <$> ds).
Proof.
  intros Hi Hj. apply list_eq. intros k.
  rewrite (lookup_patch_n _ _ j n) by (rewrite ?length_replicate, ?length_fmap; lia).
  rewrite !list_lookup_fmap, blit_lookup by assumption.
  destruct (decide (k < j)%nat).
  - rewrite decide_False by lia. reflexivity.
  - destruct (decide (k < j + n)%nat).
    + rewrite decide_True by lia. rewrite lookup_replicate_2 by lia.
      destruct (lookup_lt_is_Some_2 ss (i + (k - j))) as [c ->]; [lia|].
      destruct (lookup_lt_is_Some_2 ds k) as [d ->]; [lia|]. reflexivity.
    + rewrite decide_False by lia. reflexivity.
Qed.

Lemma val_blit f n i j ss ds :
  (forall c d, val (f c d) = val c) ->
  (i + n <= length ss)%nat -> (j + n <= length ds)%nat ->
  val <$> blit f n i j ss ds
  = take j (val <$> ds) ++ take n (drop i (val <$> ss)) ++ drop (j + n) (val <$> ds).
Proof.
  intros Hf Hi Hj. apply list_eq. intros k.
  rewrite (lookup_patch_n _ _ j n)
    by (rewrite ?length_take, ?length_drop, ?length_fmap; lia).
  rewrite !list_lookup_fmap, blit_lookup by assumption.
  destruct (decide (k < j)%nat).
  - rewrite decide_False by lia. reflexivity.
  - destruct (decide (k < j + n)%nat).
    + rewrite decide_True by lia. rewrite lookup_take_lt by lia.
      rewrite lookup_drop, list_lookup_fmap.
      destruct (lookup_lt_is_Some_2 ss (i + (k - j))) as [c ->]; [lia|].
      destruct (lookup_lt_is_Some_2 ds k) as [d ->]; [lia|].
      simpl. rewrite Hf. reflexivity.
    + rewrite decide_False by lia. reflexivity.
Qed.

Lemma at_add_N b i (p : N) : ptr_add (at_ b i) p = at_ b (i + N.to_nat p).
Proof. unfold ptr_add, at_. simpl. f_equal. lia. Qed.

Lemma copy_loop_cross_gen p bs bd ss n i j ds s :
  heap s !! bd = Some ds -> (j + n <= length ds)%nat ->
  (n <> 0%nat ->
   p = at_ bs i /\ heap s !! bs = Some ss /\ bs <> bd /\ (i + n <= length ss)%nat) ->
  copy_loop n p (at_ bd j) s
  = Ok tt (mkState (objs s) (<[bd := blit assigned n i j ss ds]> (heap s))
             (log s ++ zip_with ECopyAssign (ptrs n (at_ bd j)) (ptrs n p))).
Proof.
  intros Hd Hj Hsrc. destruct n as [|n].
  - simpl. unfold ret. rewrite insert_id by assumption. rewrite app_nil_r.
    destruct s; reflexivity.
  - destruct Hsrc as (-> & Hs & Hne & Hi); [lia|].
    apply copy_loop_cross; assumption.
Qed.

Lemma uninitialized_copy_loop_gen p bs bd ss j0 n i j ds s :
  heap s !! bd = Some ds -> (j + n <= length ds)%nat ->
  (n <> 0%nat ->
   p = at_ bs i /\ heap s !! bs = Some ss /\ bs <> bd /\ (i + n <= length ss)%nat) ->
  (forall k c, (k < n)%nat -> ss !! (i + k)%nat = Some c ->
               throws_on copy_throws (val c) = false) ->
  uninitialized_copy_loop n p (at_ bd j) (at_ bd j0) s
  = Ok tt (mkState (objs s) (<[bd := blit built n i j ss ds]> (heap s))
             (log s ++ zip_with ECopyCtor (ptrs n (at_ bd j)) (ptrs n p))).
Proof.
  intros Hd Hj Hsrc Hthr. destruct n as [|n].
  - simpl. unfold ret. rewrite insert_id by assumption. rewrite app_nil_r.
    destruct s; reflexivity.
  - destruct Hsrc as (-> & Hs & Hne & Hi); [lia|].
    apply uninitialized_copy_loop_ok; assumption.
Qed.

Lemma vector_ok_length s v :
  vector_ok s v -> 0 < size_ v ->
  exists b, buffer_ (data_ v) = at_ b 0 /\
            heap s !! b = Some (block_of s v) /\
            length (block_of s v) = N.to_nat (capacity_ (data_ v)).
Proof.
  intros Hok Hsz.
  destruct (vector_ok_block s v Hok) as (b & cs & Hd & Hb & Hlen).
  { destruct Hok as (_ & ? & _). lia. }
  exists b. unfold block_of. rewrite Hd. simpl. rewrite Hb. simpl. auto.
Qed.


(** C8: [a = b] for two vectors with [b.Size() <= a.Capacity()] keeps [a]'s
    buffer and capacity.  The first [min] elements are copy-assigned from [b],
    slot by slot; when [b] is shorter the slots [b.size, a.size) of [a] are
    destroyed, otherwise the slots [a.size, b.size) of [a] are
    copy-constructed from the same slots of [b].  Every read is of one of
    [b]'s elements, the call returns, and afterwards [a] has [b]'s size and
    [b]'s values in order, and [b] is untouched. *)
Theorem copy_assign_reuses_storage (a b : nat) (va vb : Vector) (s : state T) :
  a <> b ->
  objs s !! a = Some va ->
  objs s !! b = Some vb ->
  vector_ok s va ->
  vector_ok s vb ->
  (blk (buffer_ (data_ va)) = None \/
   blk (buffer_ (data_ va)) <> blk (buffer_ (data_ vb))) ->
  size_ vb <= capacity_ (data_ va) ->
  (forall c, c ∈ take (N.to_nat (size_ vb)) (block_of s vb) ->
             throws_on copy_throws (val c) = false) ->
  exists s',
    copy_assign a b s = Ok tt s' /\
    objs s' = <[a := mkVec (data_ va) (size_ vb)]> (objs s) /\
    values s' (mkVec (data_ va) (size_ vb)) = values s vb /\
    block_of s' vb = block_of s vb /\
    lives s' (mkVec (data_ va) (size_ vb))
    = (if size_ vb <? size_ va
       then take (N.to_nat (size_ vb)) (lives s va) ++
            replicate (N.to_nat (size_ va - size_ vb)) false ++
            drop (N.to_nat (size_ va)) (lives s va)
       else take (N.to_nat (size_ va)) (lives s va) ++
            replicate (N.to_nat (size_ vb - size_ va)) true ++
            drop (N.to_nat (size_ vb)) (lives s va)) /\
    log s'
    = log s ++
      zip_with ECopyAssign
        (ptrs (N.to_nat (N.min (size_ vb) (size_ va))) (begin va))
        (ptrs (N.to_nat (N.min (size_ vb) (size_ va))) (begin vb)) ++
      (if size_ vb <? size_ va
       then EDtor <$> ptrs (N.to_nat (size_ va - size_ vb))
                           (ptr_add (begin va) (size_ vb))
       else zip_with ECopyCtor
              (ptrs (N.to_nat (size_ vb - size_ va)) (end_ va))
              (ptrs (N.to_nat (size_ vb - size_ va))
                    (ptr_add (begin vb) (size_ va)))).
Proof.
  intros Hab Ha Hb Hoka Hokb Hapart Hfit Hthr.
  unfold copy_assign, bind, get_vec.
  rewrite bool_decide_eq_false_2 by assumption. simpl. rewrite Ha, Hb.
  destruct (N.ltb_spec (capacity_ (data_ va)) (size_ vb)) as [|_]; [lia|].
  unfold copy_n.
  destruct (N.eq_dec (capacity_ (data_ va)) 0) as [Hcap0|Hcap0].
  - (* no storage at all: both are empty *)
    assert (Hsb : size_ vb = 0) by lia.
    assert (Hsa : size_ va = 0) by (destruct Hoka as (_ & ? & _); lia).
    rewrite Hsb, Hsa. simpl. unfold ret, set_vec. simpl.
    eexists. split; [reflexivity|]. simpl.
    unfold values, lives, block_of. simpl. rewrite Hsb. simpl.
    change (N.to_nat 0) with 0%nat. rewrite drop_0, app_nil_r. auto.
  - destruct (vector_ok_block s va Hoka) as (ba & A & Hda & HA & HlenA); [lia|].
    pose proof Hoka as (_ & Hsa & Hcapa).
    pose proof Hokb as (_ & Hsb & Hcapb).
    set (B := block_of s vb).
    set (bb := default 0%nat (blk (buffer_ (data_ vb)))).
    assert (Hsrc : 0 < size_ vb ->
              buffer_ (data_ vb) = at_ bb 0 /\ heap s !! bb = Some B /\
              bb <> ba /\ (N.to_nat (size_ vb) <= length B)%nat).
    { intros Hpos. destruct (vector_ok_length s vb Hokb Hpos) as (x & Hx & HB & HlenB).
      unfold bb, B. rewrite Hx. simpl. repeat split; try assumption.
      - rewrite Hda, Hx in Hapart. simpl in Hapart.
        destruct Hapart as [|Hne]; [done|]. congruence.
      - lia. }
    destruct va as [da sa], vb as [[pb capb] sb]; simpl in *.
    set (capa := capacity_ da) in *. clearbody capa. subst da. simpl in *.
    unfold begin, end_, GetAddress. simpl.
    change (Ptr (Some ba) 0) with (at_ ba 0).
    set (m := N.to_nat (N.min sb sa)).
    rewrite (copy_loop_cross_gen pb bb ba B m 0 0 A s HA); [|lia|].
    2:{ intros Hm. destruct Hsrc as (Hpb & HB & Hne & Hlen); [lia|].
        repeat split; try assumption. lia. }
    assert (HlenB : (N.to_nat sb <= length B)%nat).
    { destruct (N.eq_dec sb 0) as [->|]; [simpl; lia|]. apply Hsrc. lia. }
    assert (Hframe : forall A' o l,
              block_of (mkState o (<[ba := A']> (heap s)) l)
                       (mkVec (mkRaw pb capb) sb) = B).
    { intros A' o l. unfold B, block_of. simpl.
      destruct (blk pb) as [x|] eqn:Hx; [|reflexivity].
      rewrite lookup_insert_ne; [reflexivity|].
      destruct Hapart as [|Hne]; [done|]. congruence. }
    assert (Hafter : forall A' o l sz,
              block_of (mkState o (<[ba := A']> (heap s)) l)
                       (mkVec (mkRaw (at_ ba 0) capa) sz) = A').
    { intros A' o l sz. unfold block_of. simpl.
      rewrite lookup_insert_eq. reflexivity. }
    assert (Hbefore : forall sz,
              block_of s (mkVec (mkRaw (at_ ba 0) capa) sz) = A).
    { intros sz. unfold block_of. simpl. rewrite HA. reflexivity. }
    assert (HvalA1 : val <$> blit assigned m 0 0 B A
                     = take m (val <$> B) ++ drop m (val <$> A)).
    { rewrite val_blit by (try done; subst m; lia).
      rewrite take_0, drop_0. reflexivity. }
    unfold values, lives. simpl.
    destruct (N.ltb_spec sb sa) as [Hlt|Hge].
    + rewrite size_sub_small by lia. unfold destroy_n.
      rewrite at_add_N. simpl.
      erewrite destroy_loop_run; simpl;
        [|apply lookup_insert_eq|rewrite length_blit; lia].
      unfold set_vec. simpl. rewrite insert_insert_eq.
      eexists. split; [reflexivity|]. simpl.
      rewrite Hframe, !Hafter, !Hbefore. fold B.
      split; [reflexivity|]. split; [|split; [reflexivity|split]].
      * rewrite take_alter_range by lia. rewrite !fmap_take.
        rewrite HvalA1.
        replace m with (N.to_nat sb) by (subst m; lia).
        rewrite take_app_le by (rewrite length_take, length_fmap; lia).
        rewrite take_take. f_equal. lia.
      * rewrite alive_kill by (rewrite length_blit; lia).
        rewrite alive_blit_assigned by (subst m; lia).
        do 3 f_equal. lia.
      * rewrite <- app_assoc. rewrite ?at_add_N. reflexivity.
    + rewrite size_sub_small by lia. unfold uninitialized_copy_n.
      rewrite at_add_N. simpl.
      erewrite (uninitialized_copy_loop_gen (ptr_add pb sa) bb ba B);
        simpl; [|apply lookup_insert_eq|rewrite length_blit; lia| |].
      2:{ intros Hn. destruct Hsrc as (Hpb & HB & Hne & Hlen); [lia|].
          split; [rewrite Hpb; apply at_add_N|]. simpl.
          split; [rewrite lookup_insert_ne by done; exact HB|].
          split; [exact Hne|]. lia. }
      2:{ intros k c Hk Hc. apply Hthr. apply list_elem_of_lookup.
          exists (N.to_nat sa + k)%nat. rewrite lookup_take_lt by lia. exact Hc. }
      unfold set_vec. simpl. rewrite insert_insert_eq.
      eexists. split; [reflexivity|]. simpl.
      rewrite Hframe, !Hafter, !Hbefore. fold B.
      split; [reflexivity|]. split; [|split; [reflexivity|split]].
      * rewrite !fmap_take.
        rewrite val_blit by (rewrite ?length_blit; try done; lia).
        rewrite HvalA1.
        replace m with (N.to_nat sa) by (subst m; lia).
        rewrite (take_app_length' (take (N.to_nat sa) (val <$> B)))
          by (rewrite length_take, length_fmap; lia).
        rewrite app_assoc, take_take_drop.
        rewrite take_app_le by (rewrite length_take, length_fmap; lia).
        rewrite take_take. f_equal. lia.
      * rewrite alive_blit_built by (rewrite ?length_blit; lia).
        rewrite alive_blit_assigned by (subst m; lia).
        do 3 f_equal. lia.
      * rewrite <- app_assoc. rewrite ?at_add_N. reflexivity.
Qed.
End CopyAssign.

Lemma copy_assign_reuses_storage_witness :
  exists s',
    copy_assign 0%nat 1%nat obj_vector_pair = Ok tt s' /\
    objs s' !! 0%nat = Some (mkVec (mkRaw (Ptr (Some 5%nat) 0) 4) 3) /\
    values s' (mkVec (mkRaw (Ptr (Some 5%nat) 0) 4) 3)
      = [Some (mkObj 7); Some (mkObj 8); Some (mkObj 9)] /\
    lives s' (mkVec (mkRaw (Ptr (Some 5%nat) 0) 4) 3)
      = [true; true; true; false] /\
    log s' = [ECopyAssign (Ptr (Some 5%nat) 0) (Ptr (Some 6%nat) 0);
              ECopyCtor (Ptr (Some 5%nat) 1) (Ptr (Some 6%nat) 1);
              ECopyCtor (Ptr (Some 5%nat) 2) (Ptr (Some 6%nat) 2)].
Proof.
  destruct (copy_assign_reuses_storage 0%nat 1%nat
              (mkVec (mkRaw (Ptr (Some 5%nat) 0) 4) 1)
              (mkVec (mkRaw (Ptr (Some 6%nat) 0) 3) 3) obj_vector_pair)
    as (s' & Hrun & Hobjs & Hvals & _ & Hlives & Hlog).
  - discriminate.
  - reflexivity.
  - reflexivity.
  - split; [split; [reflexivity|]|split; [simpl; lia|reflexivity]].
    exists [live_obj 1; raw_cell; raw_cell; raw_cell]. split; reflexivity.
  - split; [split; [reflexivity|]|split; [simpl; lia|reflexivity]].
    exists [live_obj 7; live_obj 8; live_obj 9]. split; reflexivity.
  - right. simpl. discriminate.
  - simpl. lia.
  - intros c Hc. vm_compute in Hc.
    repeat (apply elem_of_cons in Hc as [->|Hc]; [reflexivity|]).
    apply elem_of_nil in Hc. destruct Hc.
  - exists s'. split; [exact Hrun|]. rewrite Hobjs.
    split; [reflexivity|]. split; [exact Hvals|]. split; [exact Hlives|exact Hlog].
Defined.

(** ** The pieces of [Emplace] *)

Section EmplacePieces.
Context {T : Type} `{Element T}.
Implicit Types (s : state T) (cs ss ds : list (cell T)) (b bs bd i j k l n : nat).

Lemma ForwardConstruct_run s b i cs args x :
  builds args x ->
  (forall y : T, copy_throws y = false) ->
  (forall y : T, move_throws y = false) ->
  heap s !! b = Some cs -> (i < length cs)%nat ->
  ForwardConstruct (at_ b i) args s
  = Ok tt (mkState (objs s) (<[b := <[i := Cell (Some x) true]> cs]> (heap s))
                   (log s ++ [ECtor (at_ b i)])).
Proof.
  intros [->|[->| ->]] Hcp Hmv Hb Hi; simpl; unfold bind;
    rewrite ?Hcp, ?Hmv, (store_cell_at s b i cs _ Hb Hi); reflexivity.
Qed.

Lemma move_construct_self s b i cs c :
  heap s !! b = Some cs -> cs !! i = Some c ->
  throws_on move_throws (val c) = false ->
  move_construct (at_ b i) (at_ b i) s
  = Ok tt (mkState (objs s)
             (<[b := <[i := Cell (moved_from <$> val c) true]> cs]> (heap s))
             (log s ++ [EMoveCtor (at_ b i) (at_ b i)])).
Proof.
  intros Hb Hc Hthr. unfold move_construct, bind.
  assert (Hi : (i < length cs)%nat) by (eapply lookup_lt_Some; eauto).
  rewrite (load_cell_at s b i cs c Hb Hc), Hthr.
  rewrite (store_cell_at s b i cs _ Hb Hi).
  erewrite load_cell_at;
    [|apply lookup_insert_eq|apply list_lookup_insert_eq; exact Hi].
  erewrite store_cell_at; [|apply lookup_insert_eq|by rewrite length_insert].
  unfold emit. simpl. rewrite insert_insert_eq, list_insert_insert_eq.
  reflexivity.
Qed.

Lemma length_shift_right n : forall l cs,
  length (shift_right n l cs) = length cs.
Proof.
  induction n as [|n IH]; intros l cs; simpl; [done|].
  rewrite IH. apply length_assign_in.
Qed.

(** after the shift, slot [k] of [(l - n, l]] has the bits slot [k - 1] had;
    slot [l - n], the one moved from last, is left out *)
Lemma shift_right_val n : forall l cs k,
  (n <= l)%nat -> (l < length cs)%nat -> k <> (l - n)%nat ->
  val <$> (shift_right n l cs !! k)
  = if decide (l - n < k <= l)%nat then val <$> (cs !! (k - 1)%nat)
    else val <$> (cs !! k).
Proof.
  induction n as [|n IH]; intros l cs k Hn Hl Hk; simpl.
  - rewrite decide_False by lia. reflexivity.
  - destruct l as [|l']; [lia|]. simpl.
    destruct (lookup_lt_is_Some_2 cs l') as [c Hc]; [lia|].
    destruct (lookup_lt_is_Some_2 cs (S l')) as [x Hx]; [lia|].
    rewrite IH by (rewrite ?length_assign_in; lia).
    rewrite (assign_in_eq true (S l') l' cs c x Hc Hx) by lia.
    destruct (decide (l' - n < k <= l')%nat) as [Hin|Hout].
    + rewrite decide_True by lia.
      rewrite !list_lookup_insert_ne by lia. reflexivity.
    + destruct (decide (k = S l')) as [->|Hne].
      * rewrite decide_True by lia.
        rewrite list_lookup_insert_ne by lia.
        rewrite list_lookup_insert_eq by lia.
        replace (S l' - 1)%nat with l' by lia. rewrite Hc. reflexivity.
      * rewrite decide_False by lia.
        rewrite !list_lookup_insert_ne by lia. reflexivity.
Qed.

Lemma move_backward_loop_run b n : forall l cs s,
  heap s !! b = Some cs -> (n <= l)%nat -> (l < length cs)%nat ->
  move_backward_loop n (at_ b l) (at_ b (S l)) s
  = Ok tt (mkState (objs s) (<[b := shift_right n l cs]> (heap s))
             (log s ++ zip_with EMoveAssign (ptrs_back n (at_ b (S l)))
                                            (ptrs_back n (at_ b l)))).
Proof.
  induction n as [|n IH]; intros l cs s Hb Hn Hl; simpl.
  - unfold ret. rewrite insert_id by assumption. rewrite app_nil_r.
    destruct s; reflexivity.
  - destruct l as [|l']; [lia|]. rewrite !at_prev.
    unfold bind. rewrite (move_assign_elem_run s b (S l') l' cs Hb) by lia.
    rewrite (IH l' (assign_in true (S l') l' cs)); simpl.
    + rewrite insert_insert_eq, <- app_assoc. reflexivity.
    + apply lookup_insert_eq.
    + lia.
    + rewrite length_assign_in. lia.
Qed.

Lemma Relocate_run bs bd ss n i j ds s :
  heap s !! bs = Some ss -> heap s !! bd = Some ds -> bs <> bd ->
  (i + n <= length ss)%nat -> (j + n <= length ds)%nat ->
  (forall y : T, copy_throws y = false) ->
  (forall y : T, move_throws y = false) ->
  Relocate (at_ bs i) (N.of_nat n) (at_ bd j) s
  = Ok tt (mkState (objs s)
             (<[bs := relocated_src n i ss]>
                (<[bd := blit built n i j ss ds]> (heap s)))
             (log s ++ zip_with (if by_move then EMoveCtor else ECopyCtor)
                                (ptrs n (at_ bd j)) (ptrs n (at_ bs i)))).
Proof.
  intros Hs Hd Hne Hi Hj Hcp Hmv.
  unfold Relocate, relocated_src, by_move.
  destruct (is_nothrow_move_constructible || negb is_copy_constructible).
  - unfold uninitialized_move_n. rewrite Nat2N.id.
    apply uninitialized_move_loop_ok; assumption.
  - unfold uninitialized_copy_n. rewrite Nat2N.id.
    rewrite (uninitialized_copy_loop_ok bs bd ss j n i j ds s); try assumption.
    + rewrite (insert_id (<[bd := _]> (heap s)) bs ss); [reflexivity|].
      rewrite lookup_insert_ne by done. assumption.
    + intros k c _ _. destruct (val c); simpl; auto.
Qed.

End EmplacePieces.

(** ** [Emplace], case by case *)

Section EmplaceRuns.
Context {T : Type} `{Element T}.
Implicit Types (s : state T) (cs ss ds : list (cell T)) (b bs bd i j k l n : nat).

Lemma ptr_eqb_at_ne b (p q : N) : p <> q -> ptr_eqb (Ptr (Some b) p) (Ptr (Some b) q) = false.
Proof. intros Hne. unfold ptr_eqb. apply bool_decide_eq_false_2. congruence. Qed.

Lemma ptr_eqb_refl p : ptr_eqb p p = true.
Proof. unfold ptr_eqb. apply bool_decide_eq_true_2. reflexivity. Qed.

Lemma ptr_eqb_not_null b (p : N) : ptr_eqb (Ptr (Some b) p) nullptr = false.
Proof. unfold ptr_eqb. apply bool_decide_eq_false_2. discriminate. Qed.

(** at the end, with a free slot *)
Lemma Emplace_end_run this s b (cap sz : N) A args x :
  objs s !! this = Some (mkVec (mkRaw (Ptr (Some b) 0) cap) sz) ->
  heap s !! b = Some A -> length A = N.to_nat cap ->
  sz < cap -> cap < SIZE_MOD ->
  builds args x ->
  (forall y : T, copy_throws y = false) ->
  (forall y : T, move_throws y = false) ->
  Emplace this (Ptr (Some b) sz) args s
  = Ok (Ptr (Some b) sz)
       (mkState (<[this := mkVec (mkRaw (Ptr (Some b) 0) cap) (sz + 1)]> (objs s))
                (<[b := <[N.to_nat sz := Cell (Some x) true]> A]> (heap s))
                (log s ++ [ECtor (Ptr (Some b) sz)])).
Proof.
  intros Hv HA Hlen Hsz Hcap Hargs Hcp Hmv.
  unfold Emplace, bind, get_vec. rewrite Hv. simpl.
  unfold cbegin, cend, begin, end_, GetAddress, ptr_add. simpl.
  rewrite !N.add_0_l, !ptr_le_same.
  destruct (N.leb_spec 0 sz) as [_|]; [|lia].
  destruct (N.leb_spec sz sz) as [_|]; [|lia]. simpl.
  destruct (N.eqb_spec sz cap) as [|_]; [lia|]. simpl.
  rewrite ?ptr_eqb_not_null, ptr_eqb_refl. simpl.
  unfold distance. simpl. rewrite N.sub_0_r.
  assert (Hrun : (p <- RawMemory_plus (mkRaw (Ptr (Some b) 0) cap) sz;;
                  ForwardConstruct p args) s
                 = Ok tt (mkState (objs s)
                            (<[b := <[N.to_nat sz := Cell (Some x) true]> A]> (heap s))
                            (log s ++ [ECtor (Ptr (Some b) sz)]))).
  { unfold RawMemory_plus, bind, assert_. simpl.
    destruct (N.leb_spec sz cap) as [_|]; [|lia]. unfold ret at 1.
    unfold ptr_add. simpl. rewrite N.add_0_l, (at_of_N b sz).
    apply (ForwardConstruct_run s b (N.to_nat sz) A args x); try assumption. lia. }
  unfold bind in Hrun.
  destruct (is_nothrow_move_constructible || is_copy_constructible).
  - unfold try_catch. rewrite Hrun. simpl. rewrite Hv. unfold ret. simpl.
    rewrite size_add_small, N.add_0_l by lia. reflexivity.
  - rewrite Hrun. simpl. rewrite Hv. unfold ret. simpl.
    rewrite size_add_small, N.add_0_l by lia. reflexivity.
Qed.

(** before the end, with a free slot *)
Lemma Emplace_middle_run this s b (cap sz p : N) A c args x :
  objs s !! this = Some (mkVec (mkRaw (Ptr (Some b) 0) cap) sz) ->
  heap s !! b = Some A -> length A = N.to_nat cap ->
  p < sz -> sz < cap -> cap < SIZE_MOD ->
  A !! N.to_nat sz = Some c ->
  builds args x ->
  (forall y : T, copy_throws y = false) ->
  (forall y : T, move_throws y = false) ->
  Emplace this (Ptr (Some b) p) args s
  = Ok (Ptr (Some b) p)
       (mkState (<[this := mkVec (mkRaw (Ptr (Some b) 0) cap) (sz + 1)]> (objs s))
          (<[b := <[N.to_nat p := Cell (Some x) true]>
                    (alter kill_cell (N.to_nat sz)
                       (shift_right (N.to_nat sz - N.to_nat p) (N.to_nat sz)
                          (<[N.to_nat sz := Cell (moved_from <$> val c) true]> A)))]>
             (heap s))
          (log s ++
           [EMoveCtor (at_ b (N.to_nat sz)) (at_ b (N.to_nat sz))] ++
           zip_with EMoveAssign
             (ptrs_back (N.to_nat sz - N.to_nat p) (at_ b (S (N.to_nat sz))))
             (ptrs_back (N.to_nat sz - N.to_nat p) (at_ b (N.to_nat sz))) ++
           [EDtor (at_ b (N.to_nat sz)); ECtor (at_ b (N.to_nat p))])).
Proof.
  intros Hv HA Hlen Hp Hsz Hcap Hc Hargs Hcp Hmv.
  unfold Emplace, bind, get_vec. rewrite Hv. simpl.
  unfold cbegin, cend, begin, end_, GetAddress, ptr_add. simpl.
  rewrite !N.add_0_l, !ptr_le_same.
  destruct (N.leb_spec 0 p) as [_|]; [|lia].
  destruct (N.leb_spec p sz) as [_|]; [|lia]. simpl.
  destruct (N.eqb_spec sz cap) as [|_]; [lia|]. simpl.
  rewrite ?ptr_eqb_not_null, ptr_eqb_at_ne by lia. simpl.
  unfold distance. simpl. rewrite N.sub_0_r.
  unfold RawMemory_index, RawMemory_plus, bind, assert_. simpl.
  destruct (N.ltb_spec sz cap) as [_|]; [|lia].
  destruct (N.leb_spec p cap) as [_|]; [|lia].
  destruct (N.leb_spec sz cap) as [_|]; [|lia].
  unfold ret at 1. unfold ptr_add. simpl. rewrite !N.add_0_l.
  rewrite !(at_of_N b).
  rewrite (move_construct_self s b (N.to_nat sz) A c HA Hc)
    by (destruct (val c); simpl; auto).
  unfold ret at 1. unfold move_backward, bind, assert_.
  unfold at_ at 1 2. rewrite ptr_le_same.
  destruct (N.leb_spec (N.of_nat (N.to_nat p)) (N.of_nat (N.to_nat sz)))
    as [_|]; [|lia].
  unfold ret at 1. rewrite at_distance.
  fold (next (at_ b (N.to_nat sz))). rewrite at_next.
  erewrite move_backward_loop_run; simpl;
    [|apply lookup_insert_eq|lia|rewrite length_insert; lia].
  erewrite destroy_at_run; simpl;
    [|apply lookup_insert_eq|rewrite length_shift_right, length_insert; lia].
  erewrite (ForwardConstruct_run _ b (N.to_nat p) _ args x); simpl;
    [|assumption|assumption|assumption|apply lookup_insert_eq
     |rewrite length_alter, length_shift_right, length_insert; lia].
  rewrite Hv. simpl. rewrite size_add_small by lia.
  rewrite !insert_insert_eq, <- !app_assoc. simpl.
  unfold at_. rewrite ?N2Nat.id, ?N.add_0_l. reflexivity.
Qed.

Ltac solve_lookup :=
  simpl;
  repeat first [rewrite lookup_insert_eq | rewrite lookup_insert_ne by congruence];
  first [reflexivity | eassumption].

(** with no free slot, on a vector that has elements *)
Lemma Emplace_grow_run this s b (sz p : N) A args x :
  objs s !! this = Some (mkVec (mkRaw (Ptr (Some b) 0) sz) sz) ->
  heap s !! b = Some A -> length A = N.to_nat sz ->
  p <= sz -> 0 < sz -> 2 * sz < SIZE_MOD ->
  builds args x ->
  (forall y : T, copy_throws y = false) ->
  (forall y : T, move_throws y = false) ->
  exists lg,
  Emplace this (Ptr (Some b) p) args s
  = Ok (Ptr (Some (fresh (dom (heap s)))) p)
       (mkState
          (<[this := mkVec (mkRaw (Ptr (Some (fresh (dom (heap s)))) 0) (2 * sz))
                           (sz + 1)]> (objs s))
          (<[fresh (dom (heap s)) :=
               grown A (N.to_nat (2 * sz)) (N.to_nat p) (N.to_nat sz) x]>
             (delete b (heap s)))
          lg).
Proof.
  intros Hv HA Hlen Hp Hsz Hcap Hargs Hcp Hmv.
  set (bn := fresh (dom (heap s))).
  assert (Hbn : heap s !! bn = None) by apply fresh_block_free.
  assert (Hne : b <> bn) by congruence.
  eexists.
  unfold Emplace, bind, get_vec. rewrite Hv. simpl.
  unfold cbegin, cend, begin, end_, GetAddress, ptr_add. simpl.
  rewrite !N.add_0_l, !ptr_le_same.
  destruct (N.leb_spec 0 p) as [_|]; [|lia].
  destruct (N.leb_spec p sz) as [_|]; [|lia]. simpl.
  rewrite N.eqb_refl. simpl.
  destruct (N.ltb_spec 0 sz) as [_|]; [|lia].
  unfold size_mul. rewrite (N.mod_small (sz * 2)) by lia.
  replace (sz * 2) with (2 * sz) by lia.
  unfold RawMemory_new, bind, Allocate.
  destruct (N.eqb_spec (2 * sz) 0) as [|_]; [lia|].
  fold bn. unfold ret at 1. unfold with_RawMemory, bind. simpl.
  unfold distance. simpl. rewrite N.sub_0_r.
  unfold RawMemory_plus, bind, assert_. simpl.
  destruct (N.leb_spec p (2 * sz)) as [_|]; [|lia].
  unfold ret at 1. unfold GetAddress, ptr_add. simpl. rewrite !N.add_0_l.
  rewrite size_sub_small by lia.
  rewrite !(at_of_N b), !(at_of_N bn).
  erewrite (ForwardConstruct_run _ bn (N.to_nat p) _ args x); simpl;
    [|assumption|assumption|assumption|solve_lookup|rewrite length_replicate; lia].
  change (N.to_nat 0) with 0%nat.
  replace (Relocate (at_ b 0) p) with (Relocate (at_ b 0) (N.of_nat (N.to_nat p)))
    by (rewrite N2Nat.id; reflexivity).
  erewrite (Relocate_run b bn); simpl;
    [|solve_lookup|solve_lookup|assumption|lia
     |rewrite length_insert, length_replicate; lia|assumption|assumption].
  rewrite !insert_insert_eq.
  replace (Relocate (at_ b (N.to_nat p)) (sz - p))
    with (Relocate (at_ b (N.to_nat p)) (N.of_nat (N.to_nat sz - N.to_nat p)))
    by (f_equal; lia).
  replace (N.to_nat (p + 1)) with (S (N.to_nat p)) by lia.
  assert (Hlen1 : length (relocated_src (N.to_nat p) 0 A) = length A).
  { unfold relocated_src. destruct by_move; [apply length_alter_range|done]. }
  erewrite (Relocate_run b bn); simpl;
    [|solve_lookup|solve_lookup|assumption|lia
     |rewrite length_blit, length_insert, length_replicate; lia
     |assumption|assumption].
  rewrite (insert_insert_ne _ bn b) by done.
  rewrite !insert_insert_eq.
  unfold destroy_n.
  erewrite destroy_loop_run; simpl; [|solve_lookup|].
  2:{ unfold relocated_src at 1. destruct by_move;
        rewrite ?length_alter_range, Hlen1; lia. }
  rewrite insert_insert_eq.
  unfold ret at 1. unfold RawMemory_dtor, Deallocate. simpl.
  rewrite lookup_insert_eq. unfold ret at 1. simpl.
  rewrite lookup_insert_eq. unfold ret. simpl.
  rewrite insert_insert_eq, size_add_small by lia.
  rewrite delete_insert_eq, delete_insert_ne by done.
  unfold at_. rewrite ?N2Nat.id, ?N.add_0_l. simpl.
  unfold grown.
  rewrite (blit_ext built _ _ _ (relocated_src (N.to_nat p) 0 A) A).
  - reflexivity.
  - intros k Hk. unfold relocated_src. destruct by_move; [|reflexivity].
    rewrite alter_range_lookup. rewrite decide_False by lia. reflexivity.
Qed.

End EmplaceRuns.

(** ** The values after [Emplace] *)

Section EmplaceValues.
Context {T : Type} `{Element T}.
Implicit Types (s : state T) (cs ss ds A : list (cell T)) (b i j k l n p sz : nat).

Lemma lookup_inserted {X} (V : list X) p (x : X) k :
  (p <= length V)%nat ->
  (take p V ++ x :: drop p V) !! k
  = if decide (k < p)%nat then V !! k
    else if decide (k = p) then Some x else V !! (k - 1)%nat.
Proof.
  intros Hp. destruct (decide (k < p)%nat).
  - rewrite lookup_app_l by (rewrite length_take; lia).
    apply lookup_take_lt. assumption.
  - rewrite lookup_app_r by (rewrite length_take; lia).
    rewrite length_take. replace (p `min` length V)%nat with p by lia.
    destruct (decide (k = p)) as [->|].
    + rewrite Nat.sub_diag. reflexivity.
    + replace (k - p)%nat with (S (k - p - 1)) by lia. simpl.
      rewrite lookup_drop. f_equal. lia.
Qed.

Lemma end_values A sz x :
  (sz < length A)%nat ->
  val <$> take (S sz) (<[sz := Cell (Some x) true]> A)
  = take sz (val <$> take sz A) ++ Some x :: drop sz (val <$> take sz A).
Proof.
  intros Hsz. apply list_eq. intros k.
  rewrite lookup_inserted by (rewrite length_fmap, length_take; lia).
  rewrite !list_lookup_fmap.
  destruct (decide (k < sz)%nat).
  - rewrite !lookup_take_lt by lia.
    rewrite list_lookup_insert_ne by lia. reflexivity.
  - destruct (decide (k = sz)) as [->|].
    + rewrite lookup_take_lt by lia.
      rewrite list_lookup_insert_eq by lia. reflexivity.
    + rewrite !lookup_take_ge by lia. reflexivity.
Qed.

Lemma middle_values A p sz x c' :
  is_trivially_destructible = true ->
  (p < sz)%nat -> (sz < length A)%nat ->
  val <$> take (S sz)
            (<[p := Cell (Some x) true]>
               (alter kill_cell sz (shift_right (sz - p) sz (<[sz := c']> A))))
  = take p (val <$> take sz A) ++ Some x :: drop p (val <$> take sz A).
Proof.
  intros Htriv Hp Hsz. apply list_eq. intros k.
  rewrite lookup_inserted by (rewrite length_fmap, length_take; lia).
  rewrite !list_lookup_fmap.
  destruct (decide (k < S sz)%nat) as [Hk|Hk].
  2:{ rewrite !lookup_take_ge by lia.
      rewrite decide_False by lia. rewrite decide_False by lia. reflexivity. }
  rewrite lookup_take_lt by lia.
  destruct (decide (k = p)) as [->|Hkp].
  - rewrite decide_False by lia.
    rewrite list_lookup_insert_eq; [reflexivity|].
    rewrite length_alter, length_shift_right, length_insert. lia.
  - rewrite list_lookup_insert_ne by done.
    assert (Hval : forall l0 : list (cell T),
              val <$> (alter kill_cell sz l0 !! k) = val <$> (l0 !! k)).
    { intros l0. destruct (decide (sz = k)) as [->|].
      - rewrite list_lookup_alter_eq. destruct (l0 !! k); [|reflexivity].
        simpl. unfold destroyed. rewrite Htriv. reflexivity.
      - rewrite list_lookup_alter_ne by done. reflexivity. }
    rewrite Hval.
    rewrite shift_right_val by (rewrite ?length_insert; lia).
    destruct (decide (k < p)%nat).
    + rewrite decide_False by lia.
      rewrite list_lookup_insert_ne by lia.
      rewrite lookup_take_lt by lia. reflexivity.
    + rewrite decide_True by lia.
      rewrite list_lookup_insert_ne by lia.
      rewrite lookup_take_lt by lia. reflexivity.
Qed.

Lemma length_grown A cap' p sz x : length (grown A cap' p sz x) = cap'.
Proof.
  unfold grown. rewrite !length_blit, length_insert. apply length_replicate.
Qed.

Lemma grown_values A cap' p sz x :
  length A = sz -> (p <= sz)%nat -> (sz < cap')%nat ->
  val <$> take (S sz) (grown A cap' p sz x)
  = take p (val <$> take sz A) ++ Some x :: drop p (val <$> take sz A).
Proof.
  intros Hlen Hp Hcap. apply list_eq. intros k.
  rewrite lookup_inserted by (rewrite length_fmap, length_take; lia).
  rewrite !list_lookup_fmap.
  destruct (decide (k < S sz)%nat) as [Hk|Hk].
  2:{ rewrite !lookup_take_ge by lia.
      rewrite decide_False by lia. rewrite decide_False by lia. reflexivity. }
  rewrite lookup_take_lt by lia. unfold grown.
  rewrite blit_lookup
    by (rewrite ?length_blit, ?length_insert, ?length_replicate; lia).
  destruct (decide (k < p)%nat).
  - rewrite decide_False by lia.
    rewrite blit_lookup by (rewrite ?length_insert, ?length_replicate; lia).
    rewrite decide_True by lia.
    rewrite list_lookup_insert_ne by lia.
    rewrite lookup_replicate_2 by lia.
    replace (0 + (k - 0))%nat with k by lia.
    rewrite lookup_take_lt by lia.
    destruct (lookup_lt_is_Some_2 A k) as [c ->]; [lia|]. reflexivity.
  - destruct (decide (k = p)) as [->|].
    + rewrite decide_False by lia.
      rewrite blit_lookup by (rewrite ?length_insert, ?length_replicate; lia).
      rewrite decide_False by lia.
      rewrite list_lookup_insert_eq by (rewrite length_replicate; lia).
      reflexivity.
    + rewrite decide_True by lia.
      rewrite blit_lookup by (rewrite ?length_insert, ?length_replicate; lia).
      rewrite decide_False by lia.
      rewrite list_lookup_insert_ne by lia.
      rewrite lookup_replicate_2 by lia.
      replace (p + (k - S p))%nat with (k - 1)%nat by lia.
      rewrite lookup_take_lt by lia.
      destruct (lookup_lt_is_Some_2 A (k - 1)) as [c ->]; [lia|]. reflexivity.
Qed.

End EmplaceValues.

(** ** [Emplace], then [Erase] *)

Section RoundTrip.
Context {T : Type} `{Element T}.
Implicit Types (s : state T) (cs ss ds A : list (cell T)) (b i j k l n : nat).

(** on a vector with no capacity *)
Lemma Emplace_first_run this s v args x :
  objs s !! this = Some v -> vector_ok s v -> capacity_ (data_ v) = 0 ->
  builds args x ->
  (forall y : T, copy_throws y = false) ->
  (forall y : T, move_throws y = false) ->
  exists s1,
    Emplace this (begin v) args s = Ok (Ptr (Some (fresh (dom (heap s)))) 0) s1 /\
    objs s1 = <[this := mkVec (mkRaw (Ptr (Some (fresh (dom (heap s)))) 0) 1) 1]>
                (objs s) /\
    heap s1 !! fresh (dom (heap s)) = Some [Cell (Some x) true].
Proof.
  intros Hv ((Hoff & Hown) & Hsz & _) Hcap Hargs Hcp Hmv.
  destruct v as [[[bo o] cap] sz]; simpl in *. subst o cap.
  assert (sz = 0) by lia. subst sz.
  set (bn := fresh (dom (heap s))).
  assert (Hbn : heap s !! bn = None) by apply fresh_block_free.
  unfold Emplace, bind, get_vec. rewrite Hv. simpl.
  unfold cbegin, cend, begin, end_, GetAddress, ptr_add. simpl.
  rewrite !ptr_le_same. simpl.
  unfold RawMemory_new, bind, Allocate. simpl. fold bn.
  unfold ret at 1. unfold with_RawMemory, bind. simpl.
  unfold distance. simpl.
  unfold RawMemory_plus, bind, assert_. simpl.
  unfold ret at 1. unfold GetAddress, ptr_add. simpl.
  change (Ptr (Some bn) 0) with (at_ bn 0).
  erewrite (ForwardConstruct_run _ bn 0 _ args x); simpl;
    [|assumption|assumption|assumption|apply lookup_insert_eq|vm_compute; lia].
  rewrite insert_insert_eq.
  assert (Hrel : forall q q' (s0 : state T), Relocate q 0 q' s0 = Ok tt s0).
  { intros q q' s0. unfold Relocate.
    destruct (is_nothrow_move_constructible || negb is_copy_constructible);
      reflexivity. }
  rewrite Hrel. rewrite size_sub_small by (first [lia | reflexivity]). simpl.
  rewrite Hrel. unfold destroy_n. simpl.
  unfold RawMemory_dtor, Deallocate. simpl.
  destruct bo as [b0|].
  - destruct Hown as (cs & Hcs & _).
    assert (b0 <> bn) by congruence.
    rewrite lookup_insert_ne by done. rewrite Hcs. simpl.
    rewrite lookup_insert_eq. unfold ret. simpl.
    eexists. split; [reflexivity|]. simpl.
    split; [rewrite insert_insert_eq; reflexivity|].
    rewrite lookup_delete_ne by done. apply lookup_insert_eq.
  - simpl. rewrite lookup_insert_eq. unfold ret. simpl.
    eexists. split; [reflexivity|]. simpl.
    split; [rewrite insert_insert_eq; reflexivity|].
    apply lookup_insert_eq.
Qed.

Lemma length_values s v :
  vector_ok s v -> length (values s v) = N.to_nat (size_ v).
Proof.
  intros Hok. unfold values. rewrite length_fmap, length_take.
  destruct (N.eq_dec (size_ v) 0) as [->|Hne]; [reflexivity|].
  destruct (vector_ok_length s v Hok) as (b & _ & _ & Hlen); [lia|].
  destruct Hok as (_ & ? & _). lia.
Qed.

(** what [Emplace] of a value does, when no constructor throws and the
    destructor is trivial *)
Lemma Emplace_effect this v s (p : N) args x :
  is_trivially_destructible = true ->
  objs s !! this = Some v ->
  vector_ok s v ->
  p <= size_ v ->
  2 * capacity_ (data_ v) < SIZE_MOD ->
  builds args x ->
  (forall y : T, copy_throws y = false) ->
  (forall y : T, move_throws y = false) ->
  exists s1 v1,
    Emplace this (ptr_add (begin v) p) args s = Ok (ptr_add (begin v1) p) s1 /\
    objs s1 !! this = Some v1 /\
    vector_ok s1 v1 /\
    size_ v1 = size_ v + 1 /\
    values s1 v1
    = take (N.to_nat p) (values s v) ++ Some x :: drop (N.to_nat p) (values s v).
Proof.
  intros Htriv Hv Hok Hp Hdbl Hargs Hcp Hmv.
  destruct (N.eq_dec (capacity_ (data_ v)) 0) as [Hcap0|Hcap0].
  - destruct (Emplace_first_run this s v args x Hv Hok Hcap0 Hargs Hcp Hmv)
      as (s1 & Hrun & Hobjs & Hheap).
    pose proof Hok as ((Hoff & _) & Hsz & _).
    assert (Hsz0 : size_ v = 0) by lia.
    assert (Hp0 : p = 0) by lia. subst p.
    exists s1, (mkVec (mkRaw (Ptr (Some (fresh (dom (heap s)))) 0) 1) 1).
    split.
    { replace (ptr_add (begin v) 0) with (begin v); [rewrite Hrun; reflexivity|].
      unfold ptr_add, begin, GetAddress.
      destruct (buffer_ (data_ v)) as [bo o]. simpl in *. subst o. reflexivity. }
    split; [rewrite Hobjs; apply lookup_insert_eq|].
    split; [|split; [simpl; lia|]].
    + split; [|split; [simpl; lia|reflexivity]].
      split; [reflexivity|]. simpl. eauto.
    + unfold values at 1, block_of. simpl. rewrite Hheap. simpl.
      unfold values. rewrite Hsz0. reflexivity.
  - destruct (vector_ok_block s v Hok) as (b & A & Hd & HA & Hlen); [lia|].
    destruct Hok as (_ & Hsz & Hcap).
    destruct v as [d sz]; simpl in *.
    set (cap := capacity_ d) in *. clearbody cap. subst d. simpl in *.
    unfold begin, GetAddress, ptr_add. simpl. rewrite N.add_0_l.
    assert (Hvals : values s (mkVec (mkRaw (Ptr (Some b) 0) cap) sz)
                    = val <$> take (N.to_nat sz) A).
    { unfold values, block_of. simpl. rewrite HA. reflexivity. }
    rewrite Hvals.
    destruct (N.eq_dec sz cap) as [<-|Hfree].
    + destruct (Emplace_grow_run this s b sz p A args x) as (lg & Hrun);
        try assumption; try lia.
      rewrite Hrun.
      eexists _, (mkVec (mkRaw (Ptr (Some (fresh (dom (heap s)))) 0) (2 * sz))
                        (sz + 1)).
      split; [reflexivity|]. simpl.
      split; [apply lookup_insert_eq|].
      split; [|split; [reflexivity|]].
      * split; [|split; [simpl; lia|simpl; lia]].
        split; [reflexivity|]. simpl.
        eexists. split; [apply lookup_insert_eq|]. apply length_grown.
      * unfold values, block_of. simpl. rewrite lookup_insert_eq. simpl.
        replace (N.to_nat (sz + 1)) with (S (N.to_nat sz)) by lia.
        apply grown_values; lia.
    + destruct (N.eq_dec p sz) as [->|Hmid].
      * rewrite (Emplace_end_run this s b cap sz A args x)
          by (try assumption; lia).
        eexists _, (mkVec (mkRaw (Ptr (Some b) 0) cap) (sz + 1)).
        split; [reflexivity|]. simpl.
        split; [apply lookup_insert_eq|].
        split; [|split; [reflexivity|]].
        -- split; [|split; [simpl; lia|simpl; lia]].
           split; [reflexivity|]. simpl.
           eexists. split; [apply lookup_insert_eq|].
           rewrite length_insert. assumption.
        -- unfold values, block_of. simpl. rewrite lookup_insert_eq. simpl.
           replace (N.to_nat (sz + 1)) with (S (N.to_nat sz)) by lia.
           apply end_values. lia.
      * destruct (lookup_lt_is_Some_2 A (N.to_nat sz)) as [c Hc]; [lia|].
        rewrite (Emplace_middle_run this s b cap sz p A c args x)
          by (try assumption; lia).
        eexists _, (mkVec (mkRaw (Ptr (Some b) 0) cap) (sz + 1)).
        split; [reflexivity|]. simpl.
        split; [apply lookup_insert_eq|].
        split; [|split; [reflexivity|]].
        -- split; [|split; [simpl; lia|simpl; lia]].
           split; [reflexivity|]. simpl.
           eexists. split; [apply lookup_insert_eq|].
           rewrite length_insert, length_alter, length_shift_right, length_insert.
           assumption.
        -- unfold values, block_of. simpl. rewrite lookup_insert_eq. simpl.
           replace (N.to_nat (sz + 1)) with (S (N.to_nat sz)) by lia.
           apply middle_values; [assumption|lia|lia].
Qed.

(** [Emplace] of a value at [p], then [Erase] at [p] *)
Lemma Emplace_then_Erase this v s (p : N) args x :
  is_trivially_destructible = true ->
  objs s !! this = Some v ->
  vector_ok s v ->
  p <= size_ v ->
  2 * capacity_ (data_ v) < SIZE_MOD ->
  builds args x ->
  (forall y : T, copy_throws y = false) ->
  (forall y : T, move_throws y = false) ->
  exists s1 it s2 it' v2,
    Emplace this (ptr_add (begin v) p) args s = Ok it s1 /\
    Erase this it s1 = Ok it' s2 /\
    objs s2 !! this = Some v2 /\
    size_ v2 = size_ v /\
    values s2 v2 = values s v.
Proof.
  intros Htriv Hv Hok Hp Hdbl Hargs Hcp Hmv.
  destruct (Emplace_effect this v s p args x Htriv Hv Hok Hp Hdbl Hargs Hcp Hmv)
    as (s1 & v1 & Hrun & Hv1 & Hok1 & Hsz1 & Hvals1).
  assert (Hp1 : p < size_ v1) by lia.
  pose proof (Erase_run this v1 s1 p Hv1 Hok1 Hp1) as Hrun2.
  destruct (erased_values this v1 s1 p Hok1 Hp1) as [Hv2 Hvals2].
  exists s1, (ptr_add (begin v1) p), (erased this v1 p s1),
         (ptr_add (begin v1) p), (mkVec (data_ v1) (size_ v1 - 1)).
  split; [exact Hrun|]. split; [exact Hrun2|]. split; [exact Hv2|].
  split; [simpl; lia|].
  rewrite Hvals2, Hvals1.
  pose proof (length_values s v Hok) as Hlen.
  rewrite take_app_length' by (rewrite length_take; lia).
  rewrite (cons_middle (Some x)), app_assoc.
  rewrite drop_app_length' by (rewrite length_app, length_take; simpl; lia).
  apply take_drop.
Qed.

(** X29: for a trivially destructible element type whose constructors do
    not throw: [Insert] of a value at a position [p] of [0 <= p <= size], by
    either overload, then [Erase] at the position it returned; both calls
    return, and the vector has its old size and its old values in their old
    order. *)
Lemma Insert_then_Erase_trivially_destructible (this : nat) (v : Vector)
    (s : state T) (p : N) (x : T) :
  is_trivially_destructible = true ->
  objs s !! this = Some v ->
  vector_ok s v ->
  p <= size_ v ->
  2 * capacity_ (data_ v) < SIZE_MOD ->
  (forall y : T, copy_throws y = false) ->
  (forall y : T, move_throws y = false) ->
  (exists s1 it s2 it' v2,
      Insert this (ptr_add (begin v) p) x s = Ok it s1 /\
      Erase this it s1 = Ok it' s2 /\
      objs s2 !! this = Some v2 /\
      size_ v2 = size_ v /\
      values s2 v2 = values s v) /\
  (exists s1 it s2 it' v2,
      Insert_rvalue this (ptr_add (begin v) p) x s = Ok it s1 /\
      Erase this it s1 = Ok it' s2 /\
      objs s2 !! this = Some v2 /\
      size_ v2 = size_ v /\
      values s2 v2 = values s v).
Proof.
  intros Htriv Hv Hok Hp Hdbl Hcp Hmv. split.
  - apply (Emplace_then_Erase this v s p (CopyOf x) x); try assumption.
    left. reflexivity.
  - apply (Emplace_then_Erase this v s p (MoveOf x) x); try assumption.
    right. left. reflexivity.
Qed.

End RoundTrip.

(** on [Vector<int>] holding 1, 2, 3 in a block of four, at position 1 *)
Lemma Insert_then_Erase_int :
  (exists s1 it s2 it' v2,
      Insert 0%nat (Ptr (Some 5%nat) 1) 9%Z int_vector_123 = Ok it s1 /\
      Erase 0%nat it s1 = Ok it' s2 /\
      objs s2 !! 0%nat = Some v2 /\
      size_ v2 = 3 /\
      values s2 v2 = [Some 1%Z; Some 2%Z; Some 3%Z]) /\
  (exists s1 it s2 it' v2,
      Insert_rvalue 0%nat (Ptr (Some 5%nat) 1) 9%Z int_vector_123 = Ok it s1 /\
      Erase 0%nat it s1 = Ok it' s2 /\
      objs s2 !! 0%nat = Some v2 /\
      size_ v2 = 3 /\
      values s2 v2 = [Some 1%Z; Some 2%Z; Some 3%Z]).
Proof.
  apply (Insert_then_Erase_trivially_destructible 0%nat
           (mkVec (mkRaw (Ptr (Some 5%nat) 0) 4) 3) int_vector_123 1 9%Z).
  - reflexivity.
  - reflexivity.
  - split; [split; [reflexivity|]|split; [simpl; lia|reflexivity]].
    exists [Cell (Some 1%Z) true; Cell (Some 2%Z) true; Cell (Some 3%Z) true;
            raw_cell].
    split; reflexivity.
  - simpl. lia.
  - reflexivity.
  - reflexivity.
  - reflexivity.
Defined.

(** ** The two defects of [Emplace], on every vector *)

Section EmplaceDefects.
Context {T : Type} `{Element T}.
Implicit Types (s : state T) (A : list (cell T)).

(** Before the end with a free slot: whatever the vector holds, the call
    returns with the slot at the old [size], now the last element, holding no
    live object. *)
Lemma Emplace_middle_destroys_last this s b (cap sz p : N) A args x :
  objs s !! this = Some (mkVec (mkRaw (Ptr (Some b) 0) cap) sz) ->
  heap s !! b = Some A -> length A = N.to_nat cap ->
  p < sz -> sz < cap -> cap < SIZE_MOD ->
  builds args x ->
  (forall y : T, copy_throws y = false) ->
  (forall y : T, move_throws y = false) ->
  exists s',
    Emplace this (Ptr (Some b) p) args s = Ok (Ptr (Some b) p) s' /\
    objs s' !! this = Some (mkVec (mkRaw (Ptr (Some b) 0) cap) (sz + 1)) /\
    lives s' (mkVec (mkRaw (Ptr (Some b) 0) cap) (sz + 1)) !! N.to_nat sz
      = Some false.
Proof.
  intros Hv HA Hlen Hp Hsz Hcap Hargs Hcp Hmv.
  destruct (lookup_lt_is_Some_2 A (N.to_nat sz)) as [c Hc]; [lia|].
  rewrite (Emplace_middle_run this s b cap sz p A c args x) by assumption.
  eexists. split; [reflexivity|]. simpl.
  split; [apply lookup_insert_eq|].
  unfold lives, block_of. simpl. rewrite lookup_insert_eq. simpl.
  rewrite list_lookup_fmap.
  rewrite list_lookup_insert_ne by lia.
  rewrite list_lookup_alter_eq.
  destruct (lookup_lt_is_Some_2
              (shift_right (N.to_nat sz - N.to_nat p) (N.to_nat sz)
                 (<[N.to_nat sz := Cell (moved_from <$> val c) true]> A))
              (N.to_nat sz)) as [c' ->]; [|reflexivity].
  rewrite length_shift_right, length_insert. lia.
Qed.

(** At the end with a free slot, when the constructor throws and [T] is
    nothrow-move-constructible or copy-constructible: the exception goes on
    after a destructor call on the slot that was to be constructed. *)
Lemma Emplace_end_throw_run this s b (cap sz : N) A c :
  objs s !! this = Some (mkVec (mkRaw (Ptr (Some b) 0) cap) sz) ->
  heap s !! b = Some A -> length A = N.to_nat cap ->
  sz < cap ->
  A !! N.to_nat sz = Some c ->
  is_nothrow_move_constructible || is_copy_constructible = true ->
  Emplace this (Ptr (Some b) sz) (Made None) s
  = Throw (mkState (objs s)
             (<[b := <[N.to_nat sz := Cell (destroyed (val c)) false]> A]> (heap s))
             (log s ++ [EDtor (Ptr (Some b) sz)])).
Proof.
  intros Hv HA Hlen Hsz Hc Hflag.
  unfold Emplace, bind, get_vec. rewrite Hv. simpl.
  unfold cbegin, cend, begin, end_, GetAddress, ptr_add. simpl.
  rewrite !N.add_0_l, !ptr_le_same.
  destruct (N.leb_spec 0 sz) as [_|]; [|lia].
  destruct (N.leb_spec sz sz) as [_|]; [|lia]. simpl.
  destruct (N.eqb_spec sz cap) as [|_]; [lia|]. simpl.
  rewrite ?ptr_eqb_not_null, ptr_eqb_refl. simpl. rewrite Hflag.
  unfold distance. simpl. rewrite N.sub_0_r.
  unfold try_catch, RawMemory_plus, bind, assert_. simpl.
  destruct (N.leb_spec sz cap) as [_|]; [|lia].
  unfold ret, throw, ptr_add. simpl. rewrite N.add_0_l.
  unfold destroy_at, bind.
  rewrite (at_of_N b sz).
  rewrite (load_cell_at s b (N.to_nat sz) A c HA Hc).
  rewrite (store_cell_at s b (N.to_nat sz) A _ HA) by lia.
  reflexivity.
Qed.

End EmplaceDefects.

(** ** The defects at work, on [Vector<Obj>] *)

(** C2: [Emplace] before the end with a free slot, on [1,2,3] in a block of
    four at position 1.  The steps are not the ones the contract lists: slot 3
    is move-constructed from itself, not from the last element (slot 2); the
    destructor then runs on slot 3, the new last element, not on slot 1; and
    slot 1 is constructed over an object that was never destroyed.  So the
    call returns with size 4 and the slots holding 1, 9, 2 and a destroyed
    object, not [1,9,2,3]. *)
Theorem Emplace_middle_steps :
  exists s' v',
    Emplace 0%nat (Ptr (Some 5%nat) 1) (CopyOf (mkObj 9)) obj_vector_123
      = Ok (Ptr (Some 5%nat) 1) s' /\
    objs s' !! 0%nat = Some v' /\
    size_ v' = 4 /\
    values s' v' = [Some (mkObj 1); Some (mkObj 9); Some (mkObj 2); None] /\
    lives s' v' = [true; true; true; false] /\
    log s' = [EMoveCtor (Ptr (Some 5%nat) 3) (Ptr (Some 5%nat) 3);
              EMoveAssign (Ptr (Some 5%nat) 3) (Ptr (Some 5%nat) 2);
              EMoveAssign (Ptr (Some 5%nat) 2) (Ptr (Some 5%nat) 1);
              EDtor (Ptr (Some 5%nat) 3);
              ECtor (Ptr (Some 5%nat) 1)].
Proof.
  do 2 eexists. do 5 (split; [vm_compute; reflexivity|]).
  vm_compute; reflexivity.
Qed.

(** C4: [Emplace] at the end with a free slot and a constructor that throws.
    The exception goes on and size, capacity and the block are as before, but
    the handler has run the destructor on slot 3, where no object was ever
    constructed. *)
Theorem Emplace_end_throw_destroys_raw_slot :
  block_of obj_vector_123 (mkVec (mkRaw (Ptr (Some 5%nat) 0) 4) 3) !! 3%nat
    = Some raw_cell /\
  Emplace 0%nat (Ptr (Some 5%nat) 3) (CopyOf (mkObj (-1))) obj_vector_123
    = Throw (mkState (objs obj_vector_123) (heap obj_vector_123)
                     [EDtor (Ptr (Some 5%nat) 3)]).
Proof.
  split; vm_compute; reflexivity.
Qed.

(** C5: the invariant holds for [1,2,3] in a block of four, [Emplace] at
    position 1 returns normally, and the invariant does not hold afterwards:
    the last of the four elements has been destroyed. *)
Theorem Emplace_middle_breaks_invariant :
  exists s' v',
    invariant obj_vector_123 (mkVec (mkRaw (Ptr (Some 5%nat) 0) 4) 3) /\
    Emplace 0%nat (Ptr (Some 5%nat) 1) (CopyOf (mkObj 9)) obj_vector_123
      = Ok (Ptr (Some 5%nat) 1) s' /\
    objs s' !! 0%nat = Some v' /\
    ~ invariant s' v'.
Proof.
  do 2 eexists. split; [split; [simpl; lia | reflexivity]|].
  split; [vm_compute; reflexivity|].
  split; [vm_compute; reflexivity|].
  intros [_ Hl]. vm_compute in Hl. discriminate.
Qed.

(** C7: [Insert] at position 1 of [1,2,3] held in a block of four, then
    [Erase] at the position it returned, for an element type with a
    destructor of its own.  Both calls return and the size is 3 again, but
    the third element has been assigned from the object that [Emplace]
    destroyed: the values are not the old ones. *)
Theorem Insert_then_Erase_loses_last :
  exists s1 it s2 it' v2,
    values obj_vector_123 (mkVec (mkRaw (Ptr (Some 5%nat) 0) 4) 3)
      = [Some (mkObj 1); Some (mkObj 2); Some (mkObj 3)] /\
    Insert 0%nat (Ptr (Some 5%nat) 1) (mkObj 9) obj_vector_123 = Ok it s1 /\
    Erase 0%nat it s1 = Ok it' s2 /\
    objs s2 !! 0%nat = Some v2 /\
    size_ v2 = 3 /\
    values s2 v2 = [Some (mkObj 1); Some (mkObj 2); None].
Proof.
  do 5 eexists. do 5 (split; [vm_compute; reflexivity|]).
  vm_compute; reflexivity.
Qed.

(** * Further properties of the methods *)

(** ** [Reserve] beyond the capacity *)

Section ReserveProofs.
Context {T : Type} `{Element T}.
Implicit Types (s : state T) (A : list (cell T)).

Local Ltac heap_lookup :=
  simpl;
  repeat first [rewrite lookup_insert_eq | rewrite lookup_insert_ne by congruence];
  first [reflexivity | eassumption].

(** on a vector that has a buffer, when no constructor throws *)
Lemma Reserve_run this s b (cap sz m : N) A :
  objs s !! this = Some (mkVec (mkRaw (Ptr (Some b) 0) cap) sz) ->
  heap s !! b = Some A -> length A = N.to_nat cap ->
  sz <= cap -> cap < m ->
  (forall y : T, copy_throws y = false) ->
  (forall y : T, move_throws y = false) ->
  Reserve this m s
  = Ok tt
      (mkState
         (<[this := mkVec (mkRaw (Ptr (Some (fresh (dom (heap s)))) 0) m) sz]> (objs s))
         (<[fresh (dom (heap s)) :=
              blit built (N.to_nat sz) 0 0 A (replicate (N.to_nat m) raw_cell)]>
            (delete b (heap s)))
         (log s ++
          zip_with (if by_move then EMoveCtor else ECopyCtor)
                   (ptrs (N.to_nat sz) (at_ (fresh (dom (heap s))) 0))
                   (ptrs (N.to_nat sz) (at_ b 0)) ++
          (EDtor <$> ptrs (N.to_nat sz) (at_ b 0)))).
Proof.
  intros Hv HA Hlen Hsz Hm Hcp Hmv.
  set (bn := fresh (dom (heap s))).
  assert (Hbn : heap s !! bn = None) by apply fresh_block_free.
  assert (Hne : b <> bn) by congruence.
  unfold Reserve, bind, get_vec. rewrite Hv. simpl.
  destruct (N.leb_spec m cap) as [|_]; [lia|].
  unfold RawMemory_new, bind, Allocate.
  destruct (N.eqb_spec m 0) as [|_]; [lia|].
  fold bn. unfold ret at 1. unfold with_RawMemory, bind. simpl.
  unfold begin, GetAddress. simpl.
  change (Ptr (Some b) 0) with (at_ b 0). change (Ptr (Some bn) 0) with (at_ bn 0).
  replace (Relocate (at_ b 0) sz) with (Relocate (at_ b 0) (N.of_nat (N.to_nat sz)))
    by (rewrite N2Nat.id; reflexivity).
  erewrite (Relocate_run b bn); simpl;
    [|heap_lookup|heap_lookup|assumption|lia
     |rewrite length_replicate; lia|assumption|assumption].
  rewrite !insert_insert_eq.
  unfold destroy_n.
  erewrite destroy_loop_run; simpl; [|heap_lookup|].
  2:{ unfold relocated_src. destruct by_move; rewrite ?length_alter_range; lia. }
  rewrite insert_insert_eq.
  unfold set_vec, ret, RawMemory_dtor, Deallocate. simpl.
  rewrite lookup_insert_eq. simpl.
  rewrite delete_insert_eq, delete_insert_ne by done.
  rewrite <- app_assoc. reflexivity.
Qed.

(** on a vector with no capacity *)
Lemma Reserve_first_run this s v (m : N) :
  objs s !! this = Some v -> vector_ok s v -> capacity_ (data_ v) = 0 ->
  0 < m ->
  exists s1,
    Reserve this m s = Ok tt s1 /\
    objs s1 = <[this := mkVec (mkRaw (Ptr (Some (fresh (dom (heap s)))) 0) m) 0]>
                (objs s) /\
    heap s1 !! fresh (dom (heap s)) = Some (replicate (N.to_nat m) raw_cell) /\
    (forall b, blk (buffer_ (data_ v)) = Some b -> heap s1 !! b = None) /\
    log s1 = log s.
Proof.
  intros Hv ((Hoff & Hown) & Hsz & _) Hcap Hm.
  destruct v as [[[bo o] cap] sz]; simpl in *. subst o cap.
  assert (sz = 0) by lia. subst sz.
  set (bn := fresh (dom (heap s))).
  assert (Hbn : heap s !! bn = None) by apply fresh_block_free.
  unfold Reserve, bind, get_vec. rewrite Hv. simpl.
  destruct (N.leb_spec m 0) as [|_]; [lia|].
  unfold RawMemory_new, bind, Allocate.
  destruct (N.eqb_spec m 0) as [|_]; [lia|].
  fold bn. unfold ret at 1. unfold with_RawMemory, bind. simpl.
  assert (Hrel : forall q q' (s0 : state T), Relocate q 0 q' s0 = Ok tt s0).
  { intros q q' s0. unfold Relocate.
    destruct (is_nothrow_move_constructible || negb is_copy_constructible);
      reflexivity. }
  rewrite Hrel. unfold destroy_n. simpl.
  unfold RawMemory_dtor, Deallocate. simpl.
  destruct bo as [b0|].
  - destruct Hown as (cs & Hcs & _).
    assert (b0 <> bn) by congruence.
    rewrite lookup_insert_ne by done. rewrite Hcs. simpl.
    eexists. split; [reflexivity|]. simpl.
    split; [reflexivity|].
    split; [rewrite lookup_delete_ne by done; apply lookup_insert_eq|].
    split; [|reflexivity].
    intros b [= <-]. apply lookup_delete_eq.
  - simpl. eexists. split; [reflexivity|]. simpl.
    split; [reflexivity|].
    split; [apply lookup_insert_eq|].
    split; [|reflexivity]. intros b [=].
Qed.

Lemma values_blit_fresh A (sz m : nat) :
  (sz <= length A)%nat -> (sz <= m)%nat ->
  val <$> take sz (blit built sz 0 0 A (replicate m raw_cell))
  = val <$> take sz A.
Proof.
  intros HA Hm. rewrite !fmap_take.
  rewrite (val_blit built) by (rewrite ?length_replicate; done || lia).
  rewrite take_0, drop_0. simpl.
  rewrite take_app_length' by (rewrite length_take, length_fmap; lia).
  reflexivity.
Qed.

Lemma lives_blit_fresh A (sz m : nat) :
  (sz <= length A)%nat -> (sz <= m)%nat ->
  alive <$> blit built sz 0 0 A (replicate m raw_cell)
  = replicate sz true ++ replicate (m - sz) false.
Proof.
  intros HA Hm.
  rewrite alive_blit_built by (rewrite ?length_replicate; lia).
  rewrite take_0. simpl. f_equal.
  rewrite fmap_replicate, drop_replicate. reflexivity.
Qed.

(** X1: [Reserve(n)] with [n] above the capacity, when the request of
    [n * sizeof(T)] bytes is one [operator new] grants (at most
    [PTRDIFF_MAX]) and no constructor of the element type throws: the call
    returns, the vector has a buffer of [n]
    slots it did not have before, the same size and the same values in the
    same order; the buffer it had is released; and the invariant holds
    afterwards if it held before. *)
Theorem Reserve_beyond_capacity (this : nat) (v : Vector) (s : state T) (m : N) :
  objs s !! this = Some v ->
  vector_ok s v ->
  capacity_ (data_ v) < m -> m < SIZE_MOD ->
  m * size_of (T := T) <= MAX_REQUEST ->
  (forall y : T, copy_throws y = false) ->
  (forall y : T, move_throws y = false) ->
  exists s' v',
    Reserve this m s = Ok tt s' /\
    objs s' = <[this := v']> (objs s) /\
    vector_ok s' v' /\
    size_ v' = size_ v /\
    capacity_ (data_ v') = m /\
    values s' v' = values s v /\
    (exists bn, buffer_ (data_ v') = Ptr (Some bn) 0 /\ heap s !! bn = None) /\
    (forall b, blk (buffer_ (data_ v)) = Some b -> heap s' !! b = None) /\
    (invariant s v -> invariant s' v').
Proof.
  intros Hv Hok Hm Hmax _ Hcp Hmv.
  destruct (N.eq_dec (capacity_ (data_ v)) 0) as [Hcap0|Hcap0].
  - destruct (Reserve_first_run this s v m Hv Hok Hcap0) as
      (s1 & Hrun & Hobjs & Hheap & Hold & _); [lia|].
    pose proof Hok as (_ & Hsz & _).
    assert (Hsz0 : size_ v = 0) by lia.
    exists s1, (mkVec (mkRaw (Ptr (Some (fresh (dom (heap s)))) 0) m) 0).
    split; [exact Hrun|]. split; [exact Hobjs|].
    split; [|split; [simpl; lia|split; [reflexivity|]]].
    { split; [|simpl; lia]. split; [reflexivity|]. simpl.
      eexists. split; [exact Hheap|]. apply length_replicate. }
    split; [unfold values; simpl; rewrite Hsz0; reflexivity|].
    split; [eexists; split; [reflexivity|apply fresh_block_free]|].
    split; [exact Hold|].
    intros _. split; [simpl; lia|].
    unfold lives, block_of. simpl. rewrite Hheap. simpl.
    rewrite fmap_replicate, N.sub_0_r. reflexivity.
  - destruct (vector_ok_block s v Hok) as (b & A & Hd & HA & Hlen); [lia|].
    destruct Hok as (_ & Hsz & Hcap).
    destruct v as [d sz]; simpl in *.
    set (cap := capacity_ d) in *. clearbody cap. subst d. simpl in *.
    rewrite (Reserve_run this s b cap sz m A) by assumption.
    eexists _, (mkVec (mkRaw (Ptr (Some (fresh (dom (heap s)))) 0) m) sz).
    split; [reflexivity|]. simpl. split; [reflexivity|].
    split; [|split; [reflexivity|split; [reflexivity|]]].
    { split; [|simpl; lia]. split; [reflexivity|]. simpl.
      eexists. split; [apply lookup_insert_eq|].
      rewrite length_blit. apply length_replicate. }
    unfold invariant, values, lives, block_of. simpl.
    rewrite lookup_insert_eq, HA. simpl.
    split; [apply values_blit_fresh; lia|].
    split; [eexists; split; [reflexivity|apply fresh_block_free]|].
    split.
    + intros b0 [= <-]. rewrite lookup_insert_ne.
      * apply lookup_delete_eq.
      * pose proof (fresh_block_free s). congruence.
    + intros _. split; [lia|].
      rewrite lives_blit_fresh by lia. do 2 f_equal. lia.
Qed.

End ReserveProofs.

Lemma Reserve_beyond_capacity_witness :
  exists s' v',
    Reserve 0%nat 8 int_vector_123 = Ok tt s' /\
    objs s' !! 0%nat = Some v' /\
    capacity_ (data_ v') = 8 /\
    values s' v' = [Some 1%Z; Some 2%Z; Some 3%Z].
Proof.
  destruct (Reserve_beyond_capacity 0%nat
              (mkVec (mkRaw (Ptr (Some 5%nat) 0) 4) 3) int_vector_123 8)
    as (s' & v' & Hrun & Hobjs & _ & _ & Hcap & Hvals & _).
  - reflexivity.
  - split; [split; [reflexivity|]|split; [simpl; lia|reflexivity]].
    exists [Cell (Some 1%Z) true; Cell (Some 2%Z) true; Cell (Some 3%Z) true;
            raw_cell].
    split; reflexivity.
  - simpl. lia.
  - reflexivity.
  - vm_compute. discriminate.
  - reflexivity.
  - reflexivity.
  - exists s', v'. split; [exact Hrun|].
    split; [rewrite Hobjs; apply lookup_insert_eq|].
    split; [exact Hcap|]. rewrite Hvals. reflexivity.
Defined.

(** ** [PopBack] *)

Section PopBackProofs.
Context {T : Type} `{Element T}.
Implicit Types (s : state T) (A : list (cell T)).

(** X2: [PopBack()] on a vector that has elements returns; the buffer and the
    capacity stay, the size is one less, the values are the old ones without
    the last, the slot of the last element and no other has stopped holding a
    live object, and the one call on elements is its destructor. *)
Theorem PopBack_removes_last (this : nat) (v : Vector) (s : state T) :
  objs s !! this = Some v ->
  vector_ok s v ->
  0 < size_ v ->
  exists s',
    PopBack this s = Ok tt s' /\
    objs s' = <[this := mkVec (data_ v) (size_ v - 1)]> (objs s) /\
    vector_ok s' (mkVec (data_ v) (size_ v - 1)) /\
    values s' (mkVec (data_ v) (size_ v - 1))
      = take (N.to_nat (size_ v) - 1)%nat (values s v) /\
    lives s' (mkVec (data_ v) (size_ v - 1))
      = <[(N.to_nat (size_ v) - 1)%nat := false]> (lives s v) /\
    log s' = log s ++ [EDtor (ptr_add (begin v) (size_ v - 1))].
Proof.
  intros Hv Hok Hpos.
  destruct (vector_ok_block s v Hok) as (b & A & Hd & HA & Hlen).
  { destruct Hok as (_ & ? & _). lia. }
  destruct Hok as (_ & Hsz & Hcap).
  destruct v as [d sz]; simpl in *.
  set (cap := capacity_ d) in *. clearbody cap. subst d. simpl in *.
  rewrite (PopBack_run this s b cap sz A) by assumption.
  eexists. split; [reflexivity|]. simpl. split; [reflexivity|].
  destruct (lookup_lt_is_Some_2 A (N.to_nat sz - 1)) as [c Hc]; [lia|].
  split.
  { split; [|simpl; lia]. split; [reflexivity|]. simpl.
    eexists. split; [apply lookup_insert_eq|]. rewrite length_alter. exact Hlen. }
  unfold values, lives, block_of, begin, GetAddress, ptr_add. simpl.
  rewrite lookup_insert_eq, HA. simpl. rewrite N.add_0_l.
  rewrite (alter_lookup _ _ _ _ Hc).
  split; [|split; [|reflexivity]].
  - replace (N.to_nat (sz - 1)) with (N.to_nat sz - 1)%nat by lia.
    rewrite take_insert_ge by lia.
    rewrite !fmap_take, take_take. f_equal. lia.
  - rewrite list_fmap_insert. reflexivity.
Qed.

(** X3: [PopBack()] on an empty vector has no defined result: the size wraps
    to [2^64 - 1], and [data_ + size_] fails the assertion of
    [RawMemory::operator+]. *)
Theorem PopBack_empty_faults (this : nat) (v : Vector) (s : state T) :
  objs s !! this = Some v ->
  size_ v = 0 ->
  capacity_ (data_ v) < SIZE_MOD - 1 ->
  PopBack this s = Fault.
Proof.
  intros Hv Hsz Hcap. unfold PopBack, bind, get_vec. rewrite Hv. simpl.
  rewrite Hsz. unfold RawMemory_plus, bind, assert_.
  change (size_sub 0 1) with (SIZE_MOD - 1).
  destruct (N.leb_spec (SIZE_MOD - 1) (capacity_ (data_ v))) as [Hle|_]; [|reflexivity].
  exfalso. apply (N.lt_irrefl (capacity_ (data_ v))).
  eapply N.lt_le_trans; eassumption.
Qed.

End PopBackProofs.

Lemma PopBack_removes_last_witness :
  exists s',
    PopBack 0%nat obj_vector_123 = Ok tt s' /\
    values s' (mkVec (mkRaw (Ptr (Some 5%nat) 0) 4) 2)
      = [Some (mkObj 1); Some (mkObj 2)] /\
    lives s' (mkVec (mkRaw (Ptr (Some 5%nat) 0) 4) 2) = [true; true; false; false].
Proof.
  destruct (PopBack_removes_last 0%nat
              (mkVec (mkRaw (Ptr (Some 5%nat) 0) 4) 3) obj_vector_123)
    as (s' & Hrun & _ & _ & Hvals & Hlives & _).
  - reflexivity.
  - split; [split; [reflexivity|]|split; [simpl; lia|reflexivity]].
    exists [live_obj 1; live_obj 2; live_obj 3; raw_cell]. split; reflexivity.
  - simpl. lia.
  - exists s'. split; [exact Hrun|]. split; [exact Hvals|exact Hlives].
Defined.

Lemma PopBack_empty_faults_witness :
  PopBack 0%nat (fresh_vector (T := Obj)) = Fault.
Proof.
  apply (PopBack_empty_faults 0%nat Vector_default fresh_vector);
    reflexivity.
Defined.

(** ** [Emplace] of arguments that may name an element *)

Section EmplaceMakes.
Context {T : Type} `{Element T}.
Implicit Types (s : state T) (cs ss ds A : list (cell T)) (b bs bd i j k l n : nat).

Lemma makes_frame s s' args x :
  makes s args x ->
  (forall b cs, heap s !! b = Some cs -> heap s' !! b = Some cs) ->
  makes s' args x.
Proof.
  intros [Hc|(b & i & cs & c & -> & Hb & Hc & Hval & Hx)] Hframe; [left; exact Hc|].
  right. exists b, i, cs, c. split; [reflexivity|]. split; [apply Hframe; exact Hb|].
  split; [exact Hc|]. split; [exact Hval|exact Hx].
Qed.

Lemma ForwardConstruct_makes s b j ds args x :
  makes s args x ->
  heap s !! b = Some ds -> (j < length ds)%nat ->
  exists e,
    ForwardConstruct (at_ b j) args s
    = Ok tt (mkState (objs s) (<[b := <[j := Cell (Some x) true]> ds]> (heap s))
                     (log s ++ [e])).
Proof.
  intros [[[-> Hx]|[[-> Hx]| ->]]|(bs & i & cs & c & -> & Hbs & Hc & Hval & Hx)]
    Hb Hj.
  1-3: exists (ECtor (at_ b j)); simpl; unfold bind;
       rewrite ?Hx, (store_cell_at s b j ds _ Hb Hj); reflexivity.
  exists (ECopyCtor (at_ b j) (at_ bs i)). simpl.
  rewrite (copy_construct_run s bs b i j cs ds c Hbs Hc Hb Hj).
  unfold live_from. rewrite Hval. simpl. rewrite Hx. reflexivity.
Qed.

(** at the end, with a free slot *)
Lemma Emplace_end_makes this s b (cap sz : N) A args x :
  objs s !! this = Some (mkVec (mkRaw (Ptr (Some b) 0) cap) sz) ->
  heap s !! b = Some A -> length A = N.to_nat cap ->
  sz < cap -> cap < SIZE_MOD ->
  makes s args x ->
  exists e,
  Emplace this (Ptr (Some b) sz) args s
  = Ok (Ptr (Some b) sz)
       (mkState (<[this := mkVec (mkRaw (Ptr (Some b) 0) cap) (sz + 1)]> (objs s))
                (<[b := <[N.to_nat sz := Cell (Some x) true]> A]> (heap s))
                (log s ++ [e])).
Proof.
  intros Hv HA Hlen Hsz Hcap Hargs.
  destruct (ForwardConstruct_makes s b (N.to_nat sz) A args x Hargs HA)
    as [e He]; [lia|].
  exists e.
  unfold Emplace, bind, get_vec. rewrite Hv. simpl.
  unfold cbegin, cend, begin, end_, GetAddress, ptr_add. simpl.
  rewrite !N.add_0_l, !ptr_le_same.
  destruct (N.leb_spec 0 sz) as [_|]; [|lia].
  destruct (N.leb_spec sz sz) as [_|]; [|lia]. simpl.
  destruct (N.eqb_spec sz cap) as [|_]; [lia|]. simpl.
  rewrite ?ptr_eqb_not_null, ptr_eqb_refl. simpl.
  unfold distance. simpl. rewrite N.sub_0_r.
  assert (Hrun : (p <- RawMemory_plus (mkRaw (Ptr (Some b) 0) cap) sz;;
                  ForwardConstruct p args) s
                 = Ok tt (mkState (objs s)
                            (<[b := <[N.to_nat sz := Cell (Some x) true]> A]> (heap s))
                            (log s ++ [e]))).
  { unfold RawMemory_plus, bind, assert_. simpl.
    destruct (N.leb_spec sz cap) as [_|]; [|lia]. unfold ret at 1.
    unfold ptr_add. simpl. rewrite N.add_0_l, (at_of_N b sz). exact He. }
  unfold bind in Hrun.
  destruct (is_nothrow_move_constructible || is_copy_constructible).
  - unfold try_catch. rewrite Hrun. simpl. rewrite Hv. unfold ret. simpl.
    rewrite size_add_small, N.add_0_l by lia. reflexivity.
  - rewrite Hrun. simpl. rewrite Hv. unfold ret. simpl.
    rewrite size_add_small, N.add_0_l by lia. reflexivity.
Qed.

Local Ltac solve_lookup :=
  simpl;
  repeat first [rewrite lookup_insert_eq | rewrite lookup_insert_ne by congruence];
  first [reflexivity | eassumption].

(** with no free slot, on a vector that has elements *)
Lemma Emplace_grow_makes this s b (sz p : N) A args x :
  objs s !! this = Some (mkVec (mkRaw (Ptr (Some b) 0) sz) sz) ->
  heap s !! b = Some A -> length A = N.to_nat sz ->
  p <= sz -> 0 < sz -> 2 * sz < SIZE_MOD ->
  makes s args x ->
  (forall y : T, copy_throws y = false) ->
  (forall y : T, move_throws y = false) ->
  exists lg,
  Emplace this (Ptr (Some b) p) args s
  = Ok (Ptr (Some (fresh (dom (heap s)))) p)
       (mkState
          (<[this := mkVec (mkRaw (Ptr (Some (fresh (dom (heap s)))) 0) (2 * sz))
                           (sz + 1)]> (objs s))
          (<[fresh (dom (heap s)) :=
               grown A (N.to_nat (2 * sz)) (N.to_nat p) (N.to_nat sz) x]>
             (delete b (heap s)))
          lg).
Proof.
  intros Hv HA Hlen Hp Hsz Hcap Hargs Hcp Hmv.
  set (bn := fresh (dom (heap s))).
  assert (Hbn : heap s !! bn = None) by apply fresh_block_free.
  assert (Hne : b <> bn) by congruence.
  set (s0 := mkState (objs s)
               (<[bn := replicate (N.to_nat (2 * sz)) raw_cell]> (heap s)) (log s)).
  destruct (ForwardConstruct_makes s0 bn (N.to_nat p)
              (replicate (N.to_nat (2 * sz)) raw_cell) args x) as [e He].
  { apply (makes_frame s); [exact Hargs|].
    intros b' cs' Hb'. subst s0. simpl.
    rewrite lookup_insert_ne by congruence. exact Hb'. }
  { subst s0. apply lookup_insert_eq. }
  { rewrite length_replicate. lia. }
  eexists.
  unfold Emplace, bind, get_vec. rewrite Hv. simpl.
  unfold cbegin, cend, begin, end_, GetAddress, ptr_add. simpl.
  rewrite !N.add_0_l, !ptr_le_same.
  destruct (N.leb_spec 0 p) as [_|]; [|lia].
  destruct (N.leb_spec p sz) as [_|]; [|lia]. simpl.
  rewrite N.eqb_refl. simpl.
  destruct (N.ltb_spec 0 sz) as [_|]; [|lia].
  unfold size_mul. rewrite (N.mod_small (sz * 2)) by lia.
  replace (sz * 2) with (2 * sz) by lia.
  unfold RawMemory_new, bind, Allocate.
  destruct (N.eqb_spec (2 * sz) 0) as [|_]; [lia|].
  fold bn. unfold ret at 1. unfold with_RawMemory, bind. simpl.
  unfold distance. simpl. rewrite N.sub_0_r.
  unfold RawMemory_plus, bind, assert_. simpl.
  destruct (N.leb_spec p (2 * sz)) as [_|]; [|lia].
  unfold ret at 1. unfold GetAddress, ptr_add. simpl. rewrite !N.add_0_l.
  rewrite size_sub_small by lia.
  rewrite !(at_of_N b), !(at_of_N bn).
  fold s0. rewrite He. subst s0. simpl.
  change (N.to_nat 0) with 0%nat.
  replace (Relocate (at_ b 0) p) with (Relocate (at_ b 0) (N.of_nat (N.to_nat p)))
    by (rewrite N2Nat.id; reflexivity).
  erewrite (Relocate_run b bn); simpl;
    [|solve_lookup|solve_lookup|assumption|lia
     |rewrite length_insert, length_replicate; lia|assumption|assumption].
  rewrite !insert_insert_eq.
  replace (Relocate (at_ b (N.to_nat p)) (sz - p))
    with (Relocate (at_ b (N.to_nat p)) (N.of_nat (N.to_nat sz - N.to_nat p)))
    by (f_equal; lia).
  replace (N.to_nat (p + 1)) with (S (N.to_nat p)) by lia.
  assert (Hlen1 : length (relocated_src (N.to_nat p) 0 A) = length A).
  { unfold relocated_src. destruct by_move; [apply length_alter_range|done]. }
  erewrite (Relocate_run b bn); simpl;
    [|solve_lookup|solve_lookup|assumption|lia
     |rewrite length_blit, length_insert, length_replicate; lia
     |assumption|assumption].
  rewrite (insert_insert_ne _ bn b) by done.
  rewrite !insert_insert_eq.
  unfold destroy_n.
  erewrite destroy_loop_run; simpl; [|solve_lookup|].
  2:{ unfold relocated_src at 1. destruct by_move;
        rewrite ?length_alter_range, Hlen1; lia. }
  rewrite insert_insert_eq.
  unfold ret at 1. unfold RawMemory_dtor, Deallocate. simpl.
  rewrite lookup_insert_eq. unfold ret at 1. simpl.
  rewrite lookup_insert_eq. unfold ret. simpl.
  rewrite insert_insert_eq, size_add_small by lia.
  rewrite delete_insert_eq, delete_insert_ne by done.
  unfold at_. rewrite ?N2Nat.id, ?N.add_0_l. simpl.
  unfold grown.
  rewrite (blit_ext built _ _ _ (relocated_src (N.to_nat p) 0 A) A).
  - reflexivity.
  - intros k Hk. unfold relocated_src. destruct by_move; [|reflexivity].
    rewrite alter_range_lookup. rewrite decide_False by lia. reflexivity.
Qed.

(** on a vector with no capacity *)
Lemma Emplace_first_makes this s v args x :
  objs s !! this = Some v -> vector_ok s v -> capacity_ (data_ v) = 0 ->
  makes s args x ->
  exists s1,
    Emplace this (begin v) args s = Ok (Ptr (Some (fresh (dom (heap s)))) 0) s1 /\
    objs s1 = <[this := mkVec (mkRaw (Ptr (Some (fresh (dom (heap s)))) 0) 1) 1]>
                (objs s) /\
    heap s1 !! fresh (dom (heap s)) = Some [Cell (Some x) true].
Proof.
  intros Hv ((Hoff & Hown) & Hsz & _) Hcap Hargs.
  destruct v as [[[bo o] cap] sz]; simpl in *. subst o cap.
  assert (sz = 0) by lia. subst sz.
  set (bn := fresh (dom (heap s))).
  assert (Hbn : heap s !! bn = None) by apply fresh_block_free.
  set (s0 := mkState (objs s) (<[bn := [raw_cell]]> (heap s)) (log s)).
  destruct (ForwardConstruct_makes s0 bn 0 [raw_cell] args x) as [e He].
  { apply (makes_frame s); [exact Hargs|].
    intros b' cs' Hb'. subst s0. simpl.
    rewrite lookup_insert_ne by congruence. exact Hb'. }
  { subst s0. apply lookup_insert_eq. }
  { simpl. lia. }
  unfold Emplace, bind, get_vec. rewrite Hv. simpl.
  unfold cbegin, cend, begin, end_, GetAddress, ptr_add. simpl.
  rewrite !ptr_le_same. simpl.
  unfold RawMemory_new, bind, Allocate. simpl. fold bn.
  unfold ret at 1. unfold with_RawMemory, bind. simpl.
  unfold distance. simpl.
  unfold RawMemory_plus, bind, assert_. simpl.
  unfold ret at 1. unfold GetAddress, ptr_add. simpl.
  change (Ptr (Some bn) (0 + (0 - 0))) with (at_ bn 0).
  change (Ptr (Some bn) 0) with (at_ bn 0).
  fold s0. rewrite He. subst s0. simpl.
  rewrite insert_insert_eq.
  assert (Hrel : forall q q' (s0 : state T), Relocate q 0 q' s0 = Ok tt s0).
  { intros q q' s0. unfold Relocate.
    destruct (is_nothrow_move_constructible || negb is_copy_constructible);
      reflexivity. }
  rewrite Hrel. rewrite size_sub_small by (first [lia | reflexivity]). simpl.
  rewrite Hrel. unfold destroy_n. simpl.
  unfold RawMemory_dtor, Deallocate. simpl.
  destruct bo as [b0|].
  - destruct Hown as (cs & Hcs & _).
    assert (b0 <> bn) by congruence.
    rewrite lookup_insert_ne by done. rewrite Hcs. simpl.
    rewrite lookup_insert_eq. unfold ret. simpl.
    eexists. split; [reflexivity|]. simpl.
    split; [rewrite insert_insert_eq; reflexivity|].
    rewrite lookup_delete_ne by done. apply lookup_insert_eq.
  - simpl. rewrite lookup_insert_eq. unfold ret. simpl.
    eexists. split; [reflexivity|]. simpl.
    split; [rewrite insert_insert_eq; reflexivity|].
    apply lookup_insert_eq.
Qed.

End EmplaceMakes.

(** ** [Emplace] where nothing has to be shifted inside the buffer *)

Section EmplaceAppend.
Context {T : Type} `{Element T}.
Implicit Types (s : state T) (A : list (cell T)).

Lemma lookup_lives_shape (a c k : nat) :
  (replicate a true ++ replicate c false) !! k
  = if decide (k < a)%nat then Some true
    else if decide (k < a + c)%nat then Some false else None.
Proof.
  destruct (decide (k < a)%nat).
  - rewrite lookup_app_l by (rewrite length_replicate; lia).
    apply lookup_replicate_2. assumption.
  - rewrite lookup_app_r by (rewrite length_replicate; lia).
    rewrite length_replicate.
    destruct (decide (k < a + c)%nat).
    + apply lookup_replicate_2. lia.
    + apply lookup_ge_None. rewrite length_replicate. lia.
Qed.

Lemma lives_grown A cap' p sz x :
  length A = sz -> (p <= sz)%nat -> (sz < cap')%nat ->
  alive <$> grown A cap' p sz x
  = replicate (S sz) true ++ replicate (cap' - S sz) false.
Proof.
  intros Hlen Hp Hcap. apply list_eq. intros k.
  rewrite lookup_lives_shape, list_lookup_fmap. unfold grown.
  rewrite blit_lookup
    by (rewrite ?length_blit, ?length_insert, ?length_replicate; lia).
  destruct (decide (S p <= k < S p + (sz - p))%nat).
  - rewrite decide_True by lia.
    destruct (lookup_lt_is_Some_2 A (p + (k - S p))) as [c ->]; [lia|].
    destruct (lookup_lt_is_Some_2
                (blit built p 0 0 A (<[p := Cell (Some x) true]> (replicate cap' raw_cell)))
                k) as [d ->]; [|reflexivity].
    rewrite length_blit, length_insert, length_replicate. lia.
  - rewrite blit_lookup by (rewrite ?length_insert, ?length_replicate; lia).
    destruct (decide (0 <= k < 0 + p)%nat).
    + rewrite decide_True by lia.
      destruct (lookup_lt_is_Some_2 A (0 + (k - 0))) as [c ->]; [lia|].
      rewrite list_lookup_insert_ne by lia.
      rewrite lookup_replicate_2 by lia. reflexivity.
    + destruct (decide (k = p)) as [->|].
      * rewrite decide_True by lia.
        rewrite list_lookup_insert_eq by (rewrite length_replicate; lia).
        reflexivity.
      * rewrite decide_False by lia.
        rewrite list_lookup_insert_ne by lia.
        destruct (decide (k < S sz + (cap' - S sz))%nat).
        -- rewrite lookup_replicate_2 by lia. reflexivity.
        -- rewrite (proj2 (lookup_ge_None _ _)); [reflexivity|].
           rewrite length_replicate. lia.
Qed.

Lemma lives_appended (L : list bool) (sz cap : nat) :
  L = replicate sz true ++ replicate (cap - sz) false -> (sz < cap)%nat ->
  <[sz := true]> L = replicate (S sz) true ++ replicate (cap - S sz) false.
Proof.
  intros -> Hsz. apply list_eq. intros k.
  rewrite lookup_lives_shape.
  destruct (decide (k = sz)) as [->|].
  - rewrite list_lookup_insert_eq
      by (rewrite length_app, !length_replicate; lia).
    rewrite decide_True by lia. reflexivity.
  - rewrite list_lookup_insert_ne by done. rewrite lookup_lives_shape.
    repeat case_decide; first [reflexivity | lia].
Qed.

Lemma grown_at A cap' p sz x :
  length A = sz -> (p <= sz)%nat -> (sz < cap')%nat ->
  grown A cap' p sz x !! p = Some (Cell (Some x) true).
Proof.
  intros Hlen Hp Hcap. unfold grown.
  rewrite blit_lookup
    by (rewrite ?length_blit, ?length_insert, ?length_replicate; lia).
  rewrite decide_False by lia.
  rewrite blit_lookup by (rewrite ?length_insert, ?length_replicate; lia).
  rewrite decide_False by lia.
  apply list_lookup_insert_eq. rewrite length_replicate. lia.
Qed.

(** what [Emplace] does at the end of the elements or when the buffer is
    full, when the construction of the new element does not throw and, with
    a full buffer, no relocation does *)
Lemma Emplace_end_or_full_makes this v s (p : N) args x :
  objs s !! this = Some v ->
  vector_ok s v ->
  p <= size_ v ->
  p = size_ v \/ size_ v = capacity_ (data_ v) ->
  makes s args x ->
  (size_ v = capacity_ (data_ v) ->
   2 * capacity_ (data_ v) < SIZE_MOD /\
   (forall y : T, copy_throws y = false) /\
   (forall y : T, move_throws y = false)) ->
  exists s1 v1,
    Emplace this (ptr_add (begin v) p) args s = Ok (ptr_add (begin v1) p) s1 /\
    objs s1 = <[this := v1]> (objs s) /\
    vector_ok s1 v1 /\
    size_ v1 = size_ v + 1 /\
    capacity_ (data_ v1)
    = (if size_ v =? capacity_ (data_ v)
       then if 0 <? size_ v then 2 * size_ v else 1
       else capacity_ (data_ v)) /\
    values s1 v1
    = take (N.to_nat p) (values s v) ++ Some x :: drop (N.to_nat p) (values s v) /\
    block_of s1 v1 !! N.to_nat p = Some (Cell (Some x) true) /\
    (invariant s v -> invariant s1 v1).
Proof.
  intros Hv Hok Hp Hwhere Hargs Hfull.
  destruct (N.eq_dec (capacity_ (data_ v)) 0) as [Hcap0|Hcap0].
  - destruct (Emplace_first_makes this s v args x Hv Hok Hcap0 Hargs)
      as (s1 & Hrun & Hobjs & Hheap).
    pose proof Hok as ((Hoff & _) & Hsz & _).
    assert (Hsz0 : size_ v = 0) by lia.
    assert (Hp0 : p = 0) by lia. subst p.
    exists s1, (mkVec (mkRaw (Ptr (Some (fresh (dom (heap s)))) 0) 1) 1).
    split.
    { replace (ptr_add (begin v) 0) with (begin v); [rewrite Hrun; reflexivity|].
      unfold ptr_add, begin, GetAddress.
      destruct (buffer_ (data_ v)) as [bo o]. simpl in *. subst o. reflexivity. }
    split; [exact Hobjs|].
    split; [|split; [simpl; lia|]].
    { split; [|split; [simpl; lia|reflexivity]].
      split; [reflexivity|]. simpl. eauto. }
    split; [rewrite Hsz0, Hcap0; reflexivity|].
    unfold invariant, values, lives, block_of. simpl. rewrite Hheap. simpl.
    split; [rewrite Hsz0; reflexivity|]. split; [reflexivity|].
    intros _. split; [lia|reflexivity].
  - destruct (vector_ok_block s v Hok) as (b & A & Hd & HA & Hlen); [lia|].
    destruct Hok as (_ & Hsz & Hcap).
    destruct v as [d sz]; simpl in *.
    set (cap := capacity_ d) in *. clearbody cap. subst d. simpl in *.
    unfold begin, GetAddress, ptr_add. simpl. rewrite N.add_0_l.
    assert (Hvals : values s (mkVec (mkRaw (Ptr (Some b) 0) cap) sz)
                    = val <$> take (N.to_nat sz) A).
    { unfold values, block_of. simpl. rewrite HA. reflexivity. }
    rewrite Hvals.
    destruct (N.eq_dec sz cap) as [<-|Hfree].
    + destruct Hfull as (Hdbl & Hcp & Hmv); [reflexivity|].
      destruct (Emplace_grow_makes this s b sz p A args x) as (lg & Hrun);
        try assumption; try lia.
      rewrite Hrun.
      eexists _, (mkVec (mkRaw (Ptr (Some (fresh (dom (heap s)))) 0) (2 * sz))
                        (sz + 1)).
      split; [reflexivity|]. simpl. split; [reflexivity|].
      split; [|split; [reflexivity|]].
      { split; [|split; [simpl; lia|simpl; lia]].
        split; [reflexivity|]. simpl.
        eexists. split; [apply lookup_insert_eq|]. apply length_grown. }
      rewrite N.eqb_refl.
      destruct (N.ltb_spec 0 sz) as [_|]; [|lia].
      split; [reflexivity|].
      unfold invariant, values, lives, block_of. simpl.
      rewrite lookup_insert_eq. simpl.
      replace (N.to_nat (sz + 1)) with (S (N.to_nat sz)) by lia.
      split; [apply grown_values; lia|].
      split; [apply grown_at; lia|].
      intros _. split; [lia|].
      rewrite lives_grown by lia. do 2 f_equal. lia.
    + assert (p = sz) by (destruct Hwhere; [assumption|contradiction]). subst p.
      destruct (Emplace_end_makes this s b cap sz A args x) as (e & Hrun);
        try assumption; try lia.
      rewrite Hrun.
      eexists _, (mkVec (mkRaw (Ptr (Some b) 0) cap) (sz + 1)).
      split; [reflexivity|]. simpl. split; [reflexivity|].
      split; [|split; [reflexivity|]].
      { split; [|split; [simpl; lia|simpl; lia]].
        split; [reflexivity|]. simpl.
        eexists. split; [apply lookup_insert_eq|].
        rewrite length_insert. assumption. }
      destruct (N.eqb_spec sz cap) as [|_]; [contradiction|].
      split; [reflexivity|].
      unfold invariant, values, lives, block_of. simpl.
      rewrite lookup_insert_eq, HA. simpl.
      replace (N.to_nat (sz + 1)) with (S (N.to_nat sz)) by lia.
      split; [apply end_values; lia|].
      split; [apply list_lookup_insert_eq; lia|].
      intros [_ Hlives]. split; [lia|].
      rewrite list_fmap_insert. simpl.
      rewrite (lives_appended _ (N.to_nat sz) (N.to_nat cap)).
      * simpl. do 3 f_equal. lia.
      * rewrite Hlives. do 2 f_equal. lia.
      * lia.
Qed.

(** what [Emplace] of a value does at the end of the elements or when the
    buffer is full, when no constructor throws *)
Lemma Emplace_end_or_full this v s (p : N) args x :
  objs s !! this = Some v ->
  vector_ok s v ->
  p <= size_ v ->
  p = size_ v \/ size_ v = capacity_ (data_ v) ->
  2 * capacity_ (data_ v) < SIZE_MOD ->
  builds args x ->
  (forall y : T, copy_throws y = false) ->
  (forall y : T, move_throws y = false) ->
  exists s1 v1,
    Emplace this (ptr_add (begin v) p) args s = Ok (ptr_add (begin v1) p) s1 /\
    objs s1 = <[this := v1]> (objs s) /\
    vector_ok s1 v1 /\
    size_ v1 = size_ v + 1 /\
    capacity_ (data_ v1)
    = (if size_ v =? capacity_ (data_ v)
       then if 0 <? size_ v then 2 * size_ v else 1
       else capacity_ (data_ v)) /\
    values s1 v1
    = take (N.to_nat p) (values s v) ++ Some x :: drop (N.to_nat p) (values s v) /\
    block_of s1 v1 !! N.to_nat p = Some (Cell (Some x) true) /\
    (invariant s v -> invariant s1 v1).
Proof.
  intros Hv Hok Hp Hwhere Hdbl Hargs Hcp Hmv.
  apply Emplace_end_or_full_makes; try assumption.
  - left. destruct Hargs as [->|[->| ->]].
    + left. split; [reflexivity|apply Hcp].
    + right. left. split; [reflexivity|apply Hmv].
    + right. right. reflexivity.
  - intros _. split; [exact Hdbl|]. split; assumption.
Qed.

(** reading the slot [p] of the buffer of a vector *)
Lemma load_cell_block_of s v (p : N) c :
  vector_ok s v ->
  block_of s v !! N.to_nat p = Some c ->
  load_cell (ptr_add (begin v) p) s = Ok c s.
Proof.
  intros ((Hoff & Hown) & _) Hc.
  destruct v as [[[bo o] cap] sz]; simpl in *. subst o.
  unfold block_of in Hc. simpl in Hc.
  destruct bo as [b|]; [|discriminate].
  destruct Hown as (cs & Hcs & _). rewrite Hcs in Hc. simpl in Hc.
  unfold load_cell, begin, GetAddress, ptr_add. simpl.
  rewrite Hcs, N.add_0_l, Hc. reflexivity.
Qed.

(** X4: [PushBack(value)], by either overload, when no constructor of the
    element type throws: the call returns, the size is one more, the values
    are the old ones followed by [value], the capacity is the old one when
    there was a free slot, twice the size when the buffer was full and 1 when
    there was no buffer, and the invariant holds afterwards if it held
    before. *)
Theorem PushBack_appends (this : nat) (v : Vector) (s : state T) (x : T)
    (push : nat -> T -> M (state T) unit) :
  push = PushBack \/ push = PushBack_rvalue ->
  objs s !! this = Some v ->
  vector_ok s v ->
  2 * capacity_ (data_ v) < SIZE_MOD ->
  (forall y : T, copy_throws y = false) ->
  (forall y : T, move_throws y = false) ->
  exists s' v',
    push this x s = Ok tt s' /\
    objs s' = <[this := v']> (objs s) /\
    vector_ok s' v' /\
    size_ v' = size_ v + 1 /\
    capacity_ (data_ v')
    = (if size_ v =? capacity_ (data_ v)
       then if 0 <? size_ v then 2 * size_ v else 1
       else capacity_ (data_ v)) /\
    values s' v' = values s v ++ [Some x] /\
    (invariant s v -> invariant s' v').
Proof.
  intros Hpush Hv Hok Hdbl Hcp Hmv.
  assert (Hargs : exists args, builds args x /\
            push this x s = (EmplaceBack this args;; ret tt) s).
  { destruct Hpush as [-> | ->].
    - exists (CopyOf x). split; [left|]; reflexivity.
    - exists (MoveOf x). split; [right; left|]; reflexivity. }
  destruct Hargs as (args & Hargs & ->).
  pose proof Hok as (_ & Hsz & _).
  destruct (Emplace_end_or_full this v s (size_ v) args x)
    as (s1 & v1 & Hrun & Hobjs & Hok1 & Hsz1 & Hcap1 & Hvals & _ & Hinv);
    try assumption; [lia|left; reflexivity|].
  exists s1, v1.
  split.
  { unfold EmplaceBack, bind, get_vec. rewrite Hv.
    change (end_ v) with (ptr_add (begin v) (size_ v)).
    rewrite Hrun. reflexivity. }
  split; [exact Hobjs|]. split; [exact Hok1|]. split; [exact Hsz1|].
  split; [exact Hcap1|]. split; [|exact Hinv].
  rewrite Hvals. pose proof (length_values s v Hok) as Hlen.
  rewrite take_ge, drop_ge by lia. reflexivity.
Qed.

(** X5: [Insert(pos, value)], by either overload, at the end of the elements
    or on a vector whose buffer is full, when no constructor of the element
    type throws, whatever its destructor does: the call returns an iterator
    to slot [pos], which holds a live object with the value; the values are
    the old ones with [value] put in at [pos]; the size is one more; and the
    invariant holds afterwards if it held before. *)
Theorem Insert_without_shift (this : nat) (v : Vector) (s : state T) (p : N)
    (x : T) (insert : nat -> ptr -> T -> M (state T) ptr) :
  insert = Insert \/ insert = Insert_rvalue ->
  objs s !! this = Some v ->
  vector_ok s v ->
  p <= size_ v ->
  p = size_ v \/ size_ v = capacity_ (data_ v) ->
  2 * capacity_ (data_ v) < SIZE_MOD ->
  (forall y : T, copy_throws y = false) ->
  (forall y : T, move_throws y = false) ->
  exists s' v',
    insert this (ptr_add (begin v) p) x s = Ok (ptr_add (begin v') p) s' /\
    objs s' = <[this := v']> (objs s) /\
    load_cell (ptr_add (begin v') p) s' = Ok (Cell (Some x) true) s' /\
    size_ v' = size_ v + 1 /\
    values s' v'
    = take (N.to_nat p) (values s v) ++ Some x :: drop (N.to_nat p) (values s v) /\
    vector_ok s' v' /\
    (invariant s v -> invariant s' v').
Proof.
  intros Hins Hv Hok Hp Hwhere Hdbl Hcp Hmv.
  assert (Hargs : exists args, builds args x /\
            insert this (ptr_add (begin v) p) x s
            = Emplace this (ptr_add (begin v) p) args s).
  { destruct Hins as [-> | ->].
    - exists (CopyOf x). split; [left|]; reflexivity.
    - exists (MoveOf x). split; [right; left|]; reflexivity. }
  destruct Hargs as (args & Hargs & ->).
  destruct (Emplace_end_or_full this v s p args x)
    as (s1 & v1 & Hrun & Hobjs & Hok1 & Hsz1 & _ & Hvals & Hat & Hinv);
    try assumption.
  exists s1, v1. split; [exact Hrun|]. split; [exact Hobjs|].
  split; [apply load_cell_block_of; assumption|].
  split; [exact Hsz1|]. split; [exact Hvals|]. split; [exact Hok1|exact Hinv].
Qed.

(** X6: [EmplaceBack(args...)] returns a reference to the element it has
    added, when the construction of that element does not throw and, with a
    full buffer, the new buffer is one [operator new] grants and no copy or
    move constructor of [T] throws.  The arguments are an object of the
    caller's, the arguments of another constructor, or a [const T&] to an
    object in the free store, an element of this vector included, as in
    [v.EmplaceBack(v[0])].  The slot the reference names holds a live object
    with the value built from the arguments, and it is the slot
    [operator[]] gives for the index [Size() - 1] of the vector after the
    call. *)
Theorem EmplaceBack_returns_new_element (this : nat) (v : Vector) (s : state T)
    (args : ctor_args T) (x : T) :
  objs s !! this = Some v ->
  vector_ok s v ->
  makes s args x ->
  (size_ v = capacity_ (data_ v) ->
   2 * capacity_ (data_ v) < SIZE_MOD /\
   N.max 1 (2 * capacity_ (data_ v)) * size_of (T := T) <= MAX_REQUEST /\
   (forall y : T, copy_throws y = false) /\
   (forall y : T, move_throws y = false)) ->
  exists it s',
    EmplaceBack this args s = Ok it s' /\
    load_cell it s' = Ok (Cell (Some x) true) s' /\
    Size this s' = Ok (size_ v + 1) s' /\
    Vector_index this (size_ v) s' = Ok it s'.
Proof.
  intros Hv Hok Hargs Hfull.
  pose proof Hok as (_ & Hsz & _).
  destruct (Emplace_end_or_full_makes this v s (size_ v) args x)
    as (s1 & v1 & Hrun & Hobjs & Hok1 & Hsz1 & _ & _ & Hat & _);
    try assumption; [lia|left; reflexivity| |].
  { intros Hc. destruct (Hfull Hc) as (Hdbl & _ & Hcp & Hmv).
    split; [exact Hdbl|]. split; assumption. }
  exists (ptr_add (begin v1) (size_ v)), s1.
  assert (Hv1 : objs s1 !! this = Some v1)
    by (rewrite Hobjs; apply lookup_insert_eq).
  split.
  { unfold EmplaceBack, bind, get_vec. rewrite Hv. exact Hrun. }
  split; [apply load_cell_block_of; assumption|].
  split; [unfold Size, bind, get_vec; rewrite Hv1, Hsz1; reflexivity|].
  unfold Vector_index, RawMemory_index, bind, get_vec, assert_. rewrite Hv1.
  destruct Hok1 as (_ & Hle1 & _).
  destruct (N.ltb_spec (size_ v) (size_ v1)) as [_|]; [|lia].
  unfold ret at 1.
  destruct (N.ltb_spec (size_ v) (capacity_ (data_ v1))) as [_|]; [|lia].
  reflexivity.
Qed.

(** X7: [PushBack(value)] and then [PopBack()], when no constructor of the
    element type throws: both calls return and the vector has its old size
    and its old values in their old order. *)
Theorem PushBack_then_PopBack (this : nat) (v : Vector) (s : state T) (x : T) :
  objs s !! this = Some v ->
  vector_ok s v ->
  2 * capacity_ (data_ v) < SIZE_MOD ->
  (forall y : T, copy_throws y = false) ->
  (forall y : T, move_throws y = false) ->
  exists s' v',
    (PushBack this x;; PopBack this) s = Ok tt s' /\
    objs s' !! this = Some v' /\
    size_ v' = size_ v /\
    values s' v' = values s v.
Proof.
  intros Hv Hok Hdbl Hcp Hmv.
  pose proof Hok as (_ & Hsz & _).
  destruct (Emplace_end_or_full this v s (size_ v) (CopyOf x) x)
    as (s1 & v1 & Hrun & Hobjs & Hok1 & Hsz1 & _ & Hvals & _ & _);
    try assumption; [lia|left; reflexivity|left; reflexivity|].
  assert (Hv1 : objs s1 !! this = Some v1)
    by (rewrite Hobjs; apply lookup_insert_eq).
  destruct (vector_ok_block s1 v1 Hok1) as (b & A & Hd & HA & Hlen).
  { destruct Hok1 as (_ & ? & _). lia. }
  pose proof Hok1 as (_ & Hsz1' & Hcap1).
  pose proof (length_values s v Hok) as HlenV.
  rewrite take_ge, drop_ge in Hvals by lia. simpl in Hvals.
  destruct v1 as [d1 sz1]; simpl in *.
  set (cap1 := capacity_ d1) in *. clearbody cap1. subst d1 sz1. simpl in *.
  eexists _, (mkVec (mkRaw (Ptr (Some b) 0) cap1) (size_ v + 1 - 1)).
  split.
  { unfold PushBack, EmplaceBack, bind, get_vec. rewrite Hv.
    change (end_ v) with (ptr_add (begin v) (size_ v)).
    rewrite Hrun. unfold ret at 1.
    apply (PopBack_run this s1 b cap1 (size_ v + 1) A); try assumption. lia. }
  simpl. split; [apply lookup_insert_eq|]. split; [lia|].
  unfold values, block_of in *. simpl in *.
  rewrite lookup_insert_eq. rewrite HA in Hvals. simpl in *.
  replace (N.to_nat (size_ v + 1 - 1)) with (N.to_nat (size_ v)) by lia.
  replace (N.to_nat (size_ v + 1) - 1)%nat with (N.to_nat (size_ v)) by lia.
  destruct (lookup_lt_is_Some_2 A (N.to_nat (size_ v))) as [c Hc]; [lia|].
  rewrite (alter_lookup _ _ _ _ Hc), take_insert_ge by lia.
  replace (take (N.to_nat (size_ v)) A)
    with (take (N.to_nat (size_ v)) (take (N.to_nat (size_ v + 1)) A))
    by (rewrite take_take; f_equal; lia).
  rewrite fmap_take, Hvals.
  rewrite take_app_length' by done. reflexivity.
Qed.

End EmplaceAppend.

Lemma PushBack_appends_witness :
  exists s' v',
    PushBack 0%nat 4%Z int_vector_123 = Ok tt s' /\
    objs s' !! 0%nat = Some v' /\
    capacity_ (data_ v') = 4 /\
    values s' v' = [Some 1%Z; Some 2%Z; Some 3%Z; Some 4%Z].
Proof.
  destruct (PushBack_appends 0%nat
              (mkVec (mkRaw (Ptr (Some 5%nat) 0) 4) 3) int_vector_123 4%Z PushBack)
    as (s' & v' & Hrun & Hobjs & _ & _ & Hcap & Hvals & _).
  - left. reflexivity.
  - reflexivity.
  - split; [split; [reflexivity|]|split; [simpl; lia|reflexivity]].
    exists [Cell (Some 1%Z) true; Cell (Some 2%Z) true; Cell (Some 3%Z) true;
            raw_cell].
    split; reflexivity.
  - reflexivity.
  - reflexivity.
  - reflexivity.
  - exists s', v'. split; [exact Hrun|].
    split; [rewrite Hobjs; apply lookup_insert_eq|].
    split; [exact Hcap|]. rewrite Hvals. reflexivity.
Defined.

Lemma Insert_without_shift_witness :
  exists s' v',
    Insert 0%nat (Ptr (Some 5%nat) 1) 9%Z int_vector_full
      = Ok (ptr_add (begin v') 1) s' /\
    size_ v' = 4 /\
    values s' v' = [Some 1%Z; Some 9%Z; Some 2%Z; Some 3%Z].
Proof.
  destruct (Insert_without_shift 0%nat
              (mkVec (mkRaw (Ptr (Some 5%nat) 0) 3) 3) int_vector_full 1 9%Z Insert)
    as (s' & v' & Hrun & _ & _ & Hsz & Hvals & _).
  - left. reflexivity.
  - reflexivity.
  - split; [split; [reflexivity|]|split; [simpl; lia|reflexivity]].
    exists [Cell (Some 1%Z) true; Cell (Some 2%Z) true; Cell (Some 3%Z) true].
    split; reflexivity.
  - simpl. lia.
  - right. reflexivity.
  - reflexivity.
  - reflexivity.
  - reflexivity.
  - exists s', v'. split; [exact Hrun|]. split; [exact Hsz|].
    rewrite Hvals. reflexivity.
Defined.

Lemma EmplaceBack_returns_new_element_witness :
  exists it s',
    EmplaceBack 0%nat (RefCopy (Ptr (Some 5%nat) 0)) int_vector_full = Ok it s' /\
    load_cell it s' = Ok (Cell (Some 1%Z) true) s' /\
    Vector_index 0%nat 3 s' = Ok it s'.
Proof.
  destruct (EmplaceBack_returns_new_element 0%nat
              (mkVec (mkRaw (Ptr (Some 5%nat) 0) 3) 3) int_vector_full
              (RefCopy (Ptr (Some 5%nat) 0)) 1%Z)
    as (it & s' & Hrun & Hload & _ & Hidx).
  - reflexivity.
  - split; [split; [reflexivity|]|split; [simpl; lia|reflexivity]].
    exists [Cell (Some 1%Z) true; Cell (Some 2%Z) true; Cell (Some 3%Z) true].
    split; reflexivity.
  - right.
    exists 5%nat, 0%nat,
      [Cell (Some 1%Z) true; Cell (Some 2%Z) true; Cell (Some 3%Z) true],
      (Cell (Some 1%Z) true).
    repeat split; reflexivity.
  - intros _. split; [reflexivity|].
    split; [vm_compute; discriminate|split; reflexivity].
  - exists it, s'. split; [exact Hrun|]. split; [exact Hload|exact Hidx].
Defined.

Lemma PushBack_then_PopBack_witness :
  exists s' v',
    (PushBack 0%nat 4%Z;; PopBack 0%nat) int_vector_full = Ok tt s' /\
    objs s' !! 0%nat = Some v' /\
    size_ v' = 3 /\
    values s' v' = [Some 1%Z; Some 2%Z; Some 3%Z].
Proof.
  destruct (PushBack_then_PopBack 0%nat
              (mkVec (mkRaw (Ptr (Some 5%nat) 0) 3) 3) int_vector_full 4%Z)
    as (s' & v' & Hrun & Hobjs & Hsz & Hvals).
  - reflexivity.
  - split; [split; [reflexivity|]|split; [simpl; lia|reflexivity]].
    exists [Cell (Some 1%Z) true; Cell (Some 2%Z) true; Cell (Some 3%Z) true].
    split; reflexivity.
  - reflexivity.
  - reflexivity.
  - reflexivity.
  - exists s', v'. split; [exact Hrun|]. split; [exact Hobjs|].
    split; [exact Hsz|]. rewrite Hvals. reflexivity.
Defined.

(** ** [Erase] at the ends *)

Section EraseEdges.
Context {T : Type} `{Element T}.
Implicit Types (s : state T) (A : list (cell T)).


Lemma lives_removed (L : list bool) (sz cap : nat) :
  L = replicate sz true ++ replicate (cap - sz) false ->
  (0 < sz)%nat -> (sz <= cap)%nat ->
  <[(sz - 1)%nat := false]> L
  = replicate (sz - 1) true ++ replicate (cap - (sz - 1)) false.
Proof.
  intros -> Hpos Hsz. apply list_eq. intros k.
  rewrite lookup_lives_shape.
  destruct (decide (k = (sz - 1)%nat)) as [->|].
  - rewrite list_lookup_insert_eq
      by (rewrite length_app, !length_replicate; lia).
    repeat case_decide; first [reflexivity | lia].
  - rewrite list_lookup_insert_ne by done. rewrite lookup_lives_shape.
    repeat case_decide; first [reflexivity | lia].
Qed.

(** X9: [Erase(pos)] for [0 <= pos < size] keeps the buffer and the
    capacity, and the invariant holds afterwards if it held before: the
    slots below the new size hold live objects, the others do not. *)
Theorem Erase_keeps_invariant (this : nat) (v : Vector) (s : state T) (p : N) :
  objs s !! this = Some v ->
  vector_ok s v ->
  invariant s v ->
  p < size_ v ->
  exists it s',
    Erase this (ptr_add (begin v) p) s = Ok it s' /\
    objs s' = <[this := mkVec (data_ v) (size_ v - 1)]> (objs s) /\
    vector_ok s' (mkVec (data_ v) (size_ v - 1)) /\
    invariant s' (mkVec (data_ v) (size_ v - 1)).
Proof.
  intros Hv Hok [_ Hinv] Hp.
  rewrite (Erase_run this v s p Hv Hok Hp).
  destruct (vector_ok_block s v Hok) as (b & A & Hd & HA & Hlen).
  { destruct Hok as (_ & ? & _). lia. }
  destruct Hok as (_ & Hsz & Hcap).
  destruct v as [d sz]; simpl in *.
  set (cap := capacity_ d) in *. clearbody cap. subst d. simpl in *.
  eexists _, _. split; [reflexivity|].
  unfold invariant, lives, erased, block_of in *. simpl in *.
  rewrite HA in *. simpl in *. rewrite lookup_insert_eq. simpl.
  set (mv := is_nothrow_move_constructible || negb is_copy_constructible).
  set (n := N.to_nat (sz - 1 - p)). set (j := N.to_nat p).
  split; [reflexivity|]. split.
  { split; [|simpl; lia]. split; [reflexivity|]. simpl.
    eexists. split; [apply lookup_insert_eq|].
    rewrite length_alter, length_shift_left. exact Hlen. }
  split; [lia|].
  destruct (lookup_lt_is_Some_2 (shift_left mv n j A) (N.to_nat sz - 1)) as [c Hc].
  { rewrite length_shift_left. lia. }
  rewrite (alter_lookup _ _ _ _ Hc), list_fmap_insert, alive_shift_left. simpl.
  rewrite (lives_removed _ (N.to_nat sz) (N.to_nat cap)).
  - do 2 f_equal; lia.
  - rewrite Hinv. do 2 f_equal. lia.
  - lia.
  - lia.
Qed.

(** X10: [Erase] at the last element does what [PopBack] does: no element is
    assigned, the last one is destroyed, and the two calls end in the same
    state. *)
Theorem Erase_last_is_PopBack (this : nat) (v : Vector) (s : state T) :
  objs s !! this = Some v ->
  vector_ok s v ->
  0 < size_ v ->
  exists s',
    Erase this (ptr_add (begin v) (size_ v - 1)) s
      = Ok (ptr_add (begin v) (size_ v - 1)) s' /\
    PopBack this s = Ok tt s'.
Proof.
  intros Hv Hok Hpos.
  rewrite (Erase_run this v s (size_ v - 1) Hv Hok) by lia.
  destruct (vector_ok_block s v Hok) as (b & A & Hd & HA & Hlen).
  { destruct Hok as (_ & ? & _). lia. }
  destruct Hok as (_ & Hsz & Hcap).
  destruct v as [d sz]; simpl in *.
  set (cap := capacity_ d) in *. clearbody cap. subst d. simpl in *.
  eexists. split; [reflexivity|].
  rewrite (PopBack_run this s b cap sz A) by assumption.
  unfold erased, block_of, begin, GetAddress, ptr_add. simpl.
  rewrite HA. simpl.
  replace (sz - 1 - (sz - 1)) with 0 by lia. simpl.
  rewrite N.add_0_l. reflexivity.
Qed.

End EraseEdges.


Lemma Erase_keeps_invariant_witness :
  exists it s',
    Erase 0%nat (Ptr (Some 5%nat) 1) obj_vector_123 = Ok it s' /\
    invariant s' (mkVec (mkRaw (Ptr (Some 5%nat) 0) 4) 2).
Proof.
  destruct (Erase_keeps_invariant 0%nat
              (mkVec (mkRaw (Ptr (Some 5%nat) 0) 4) 3) obj_vector_123 1)
    as (it & s' & Hrun & _ & _ & Hinv).
  - reflexivity.
  - split; [split; [reflexivity|]|split; [simpl; lia|reflexivity]].
    exists [live_obj 1; live_obj 2; live_obj 3; raw_cell]. split; reflexivity.
  - split; [simpl; lia|reflexivity].
  - simpl. lia.
  - exists it, s'. split; [exact Hrun|exact Hinv].
Defined.

Lemma Erase_last_is_PopBack_witness :
  exists s',
    Erase 0%nat (Ptr (Some 5%nat) 2) obj_vector_123 = Ok (Ptr (Some 5%nat) 2) s' /\
    PopBack 0%nat obj_vector_123 = Ok tt s'.
Proof.
  destruct (Erase_last_is_PopBack 0%nat
              (mkVec (mkRaw (Ptr (Some 5%nat) 0) 4) 3) obj_vector_123)
    as (s' & Hrun & Hpop).
  - reflexivity.
  - split; [split; [reflexivity|]|split; [simpl; lia|reflexivity]].
    exists [live_obj 1; live_obj 2; live_obj 3; raw_cell]. split; reflexivity.
  - simpl. lia.
  - exists s'. split; [exact Hrun|exact Hpop].
Defined.

(** ** [Swap] and move assignment *)

Section Moves.
Context {T : Type} `{Element T}.
Implicit Types (s : state T) (A : list (cell T)).

Lemma Swap_run (this other : nat) (v o : Vector) s :
  objs s !! this = Some v ->
  objs s !! other = Some o ->
  Swap this other s
  = Ok tt (mkState (<[other := v]> (<[this := o]> (objs s))) (heap s) (log s)).
Proof.
  intros Hv Ho. unfold Swap, bind, get_vec, set_vec. rewrite Hv, Ho.
  destruct v as [[bv cv] sv], o as [[bo co] so]. simpl.
  destruct (decide (this = other)) as [->|Hne].
  - assert (Heq : mkVec (mkRaw bo co) so = mkVec (mkRaw bv cv) sv) by congruence.
    injection Heq as -> -> ->.
    repeat (first [rewrite insert_insert_eq | rewrite lookup_insert_eq]; simpl).
    reflexivity.
  - rewrite (lookup_insert_ne _ other this) by done.
    rewrite lookup_insert_eq. simpl. rewrite lookup_insert_eq. simpl.
    f_equal. f_equal.
    apply map_eq. intros k.
    destruct (decide (k = other)) as [->|Hko]; [rewrite !lookup_insert_eq; done|].
    rewrite !(lookup_insert_ne _ other k) by done.
    destruct (decide (k = this)) as [->|Hkt]; [rewrite !lookup_insert_eq; done|].
    rewrite !lookup_insert_ne by done. reflexivity.
Qed.

(** X11: [a.Swap(b)] returns with the two vector objects exchanged, buffer,
    capacity and size, and with no block of the free store touched and no
    call on an element; a second [a.Swap(b)] gives back the state before the
    first.  With [a] and [b] the same object nothing changes. *)
Theorem Swap_exchanges (a b : nat) (va vb : Vector) (s : state T) :
  objs s !! a = Some va ->
  objs s !! b = Some vb ->
  exists s',
    Swap a b s = Ok tt s' /\
    objs s' !! a = Some vb /\ objs s' !! b = Some va /\
    (forall o, o <> a -> o <> b -> objs s' !! o = objs s !! o) /\
    heap s' = heap s /\ log s' = log s /\
    values s' vb = values s vb /\ values s' va = values s va /\
    Swap a b s' = Ok tt s.
Proof.
  intros Ha Hb. rewrite (Swap_run a b va vb s Ha Hb).
  eexists. split; [reflexivity|]. simpl.
  assert (Ha' : <[b := va]> (<[a := vb]> (objs s)) !! a = Some vb).
  { destruct (decide (a = b)) as [->|Hne].
    - rewrite lookup_insert_eq. congruence.
    - rewrite lookup_insert_ne by done. apply lookup_insert_eq. }
  split; [exact Ha'|]. split; [apply lookup_insert_eq|].
  split; [intros o Hoa Hob; rewrite !lookup_insert_ne by done; reflexivity|].
  do 4 (split; [reflexivity|]).
  rewrite (Swap_run a b vb va); [|exact Ha'|apply lookup_insert_eq].
  simpl. destruct s as [os hs ls]. simpl in *. f_equal. f_equal.
  apply map_eq. intros o.
  destruct (decide (o = b)) as [->|Hob]; [rewrite lookup_insert_eq; congruence|].
  rewrite lookup_insert_ne by done.
  destruct (decide (o = a)) as [->|Hoa]; [rewrite lookup_insert_eq; congruence|].
  rewrite !lookup_insert_ne by done. reflexivity.
Qed.

(** X12: [a = std::move(b)] for two different vectors returns with [a]
    holding the buffer, the capacity and the size [b] had, so [b]'s values,
    and with [b] left without buffer and with size 0.  No block of the free
    store is touched and no call on an element is made: the block [a] held is
    still allocated with its objects never destroyed, and when no other
    vector held it, no vector holds it afterwards. *)
Theorem move_assign_leaks (a b : nat) (va vb : Vector) (s : state T)
    (ba : nat) (A : list (cell T)) :
  a <> b ->
  objs s !! a = Some va ->
  objs s !! b = Some vb ->
  blk (buffer_ (data_ va)) = Some ba ->
  heap s !! ba = Some A ->
  (forall o vo, o <> a -> objs s !! o = Some vo ->
                blk (buffer_ (data_ vo)) <> Some ba) ->
  exists s',
    move_assign a b s = Ok tt s' /\
    objs s' !! a = Some vb /\
    objs s' !! b = Some Vector_default /\
    values s' vb = values s vb /\
    heap s' = heap s /\ log s' = log s /\
    heap s' !! ba = Some A /\
    (forall o vo, objs s' !! o = Some vo -> blk (buffer_ (data_ vo)) <> Some ba).
Proof.
  intros Hab Ha Hb Hba HA Honly.
  unfold move_assign, bind, get_vec, set_vec.
  rewrite bool_decide_eq_false_2 by assumption. simpl. rewrite Ha, Hb. simpl.
  eexists. split; [reflexivity|]. simpl.
  replace (mkVec (mkRaw (buffer_ (data_ vb)) (capacity_ (data_ vb))) (size_ vb))
    with vb by (destruct vb as [[? ?] ?]; reflexivity).
  split; [rewrite lookup_insert_ne by done; apply lookup_insert_eq|].
  split; [apply lookup_insert_eq|].
  do 3 (split; [reflexivity|]). split; [exact HA|].
  intros o vo Ho.
  destruct (decide (o = b)) as [->|Hob].
  { rewrite lookup_insert_eq in Ho. injection Ho as <-. discriminate. }
  rewrite lookup_insert_ne in Ho by done.
  destruct (decide (o = a)) as [->|Hoa].
  { rewrite lookup_insert_eq in Ho. injection Ho as <-.
    apply (Honly b vb); [congruence|assumption]. }
  rewrite lookup_insert_ne in Ho by done.
  apply (Honly o vo); assumption.
Qed.

End Moves.

Lemma Swap_exchanges_witness :
  exists s',
    Swap 0%nat 1%nat obj_vector_pair = Ok tt s' /\
    objs s' !! 0%nat = Some (mkVec (mkRaw (Ptr (Some 6%nat) 0) 3) 3) /\
    objs s' !! 1%nat = Some (mkVec (mkRaw (Ptr (Some 5%nat) 0) 4) 1) /\
    Swap 0%nat 1%nat s' = Ok tt obj_vector_pair.
Proof.
  destruct (Swap_exchanges 0%nat 1%nat
              (mkVec (mkRaw (Ptr (Some 5%nat) 0) 4) 1)
              (mkVec (mkRaw (Ptr (Some 6%nat) 0) 3) 3) obj_vector_pair)
    as (s' & Hrun & Ha & Hb & _ & _ & _ & _ & _ & Hback).
  - reflexivity.
  - reflexivity.
  - exists s'. split; [exact Hrun|]. split; [exact Ha|].
    split; [exact Hb|exact Hback].
Defined.

Lemma move_assign_leaks_witness :
  exists s',
    move_assign 0%nat 1%nat obj_vector_pair = Ok tt s' /\
    objs s' !! 0%nat = Some (mkVec (mkRaw (Ptr (Some 6%nat) 0) 3) 3) /\
    heap s' !! 5%nat = Some [live_obj 1; raw_cell; raw_cell; raw_cell] /\
    (forall o vo, objs s' !! o = Some vo ->
                  blk (buffer_ (data_ vo)) <> Some 5%nat).
Proof.
  destruct (move_assign_leaks 0%nat 1%nat
              (mkVec (mkRaw (Ptr (Some 5%nat) 0) 4) 1)
              (mkVec (mkRaw (Ptr (Some 6%nat) 0) 3) 3) obj_vector_pair
              5%nat [live_obj 1; raw_cell; raw_cell; raw_cell])
    as (s' & Hrun & Ha & _ & _ & _ & _ & Hheap & Hnone).
  - lia.
  - reflexivity.
  - reflexivity.
  - reflexivity.
  - reflexivity.
  - intros o vo Hne Ho.
    destruct o as [|[|o]]; [lia| |].
    + vm_compute in Ho. injection Ho as <-. discriminate.
    + unfold obj_vector_pair in Ho. simpl in Ho.
      rewrite lookup_insert_ne, lookup_singleton_ne in Ho by lia. discriminate.
  - exists s'. split; [exact Hrun|]. split; [exact Ha|].
    split; [exact Hheap|exact Hnone].
Defined.

(** ** The copy constructor, the destructor and copy assignment into a new
    buffer *)

Section Copies.
Context {T : Type} `{Element T}.
Implicit Types (s : state T) (A B : list (cell T)).

(** the destructor of a vector that has a buffer *)
Lemma Vector_dtor_run s b (cap sz : N) A :
  heap s !! b = Some A -> length A = N.to_nat cap -> sz <= cap ->
  Vector_dtor (mkVec (mkRaw (Ptr (Some b) 0) cap) sz) s
  = Ok tt (mkState (objs s) (delete b (heap s))
                   (log s ++ (EDtor <$> ptrs (N.to_nat sz) (at_ b 0)))).
Proof.
  intros HA Hlen Hsz. unfold Vector_dtor, bind, destroy_n, begin, GetAddress.
  simpl. change (Ptr (Some b) 0) with (at_ b 0).
  rewrite (destroy_loop_run b (N.to_nat sz) 0 A s HA) by lia.
  unfold RawMemory_dtor, Deallocate. simpl.
  rewrite lookup_insert_eq, delete_insert_eq. reflexivity.
Qed.

(** X13: the destructor of a vector runs the destructor of each of its
    [size] elements, front to back, and of nothing else, and then releases
    the buffer; every other block of the free store and every vector object
    is as before. *)
Theorem Vector_dtor_releases (v : Vector) (s : state T) :
  vector_ok s v ->
  exists s',
    Vector_dtor v s = Ok tt s' /\
    objs s' = objs s /\
    log s' = log s ++ (EDtor <$> ptrs (N.to_nat (size_ v)) (begin v)) /\
    (forall b, blk (buffer_ (data_ v)) = Some b -> heap s' = delete b (heap s)) /\
    (blk (buffer_ (data_ v)) = None -> heap s' = heap s).
Proof.
  intros ((Hoff & Hown) & Hsz & _).
  destruct v as [[[bo o] cap] sz]; simpl in *. subst o.
  destruct bo as [b|].
  - destruct Hown as (A & HA & Hlen).
    rewrite (Vector_dtor_run s b cap sz A HA Hlen Hsz).
    eexists. split; [reflexivity|]. simpl.
    split; [reflexivity|]. split; [reflexivity|].
    split; [intros b' [= <-]; reflexivity|discriminate].
  - subst cap. assert (sz = 0) by lia. subst sz.
    eexists. split; [reflexivity|]. simpl.
    split; [reflexivity|]. split; [rewrite app_nil_r; reflexivity|].
    split; [discriminate|reflexivity].
Qed.

(** the copy constructor: it returns unless the copy of an element throws,
    and then it has released the buffer it had allocated *)
Lemma Vector_copy_cases (other : Vector) s :
  vector_ok s other ->
  0 < size_ other ->
  (Vector_copy other s
   = Ok (mkVec (mkRaw (Ptr (Some (fresh (dom (heap s)))) 0) (size_ other))
               (size_ other))
        (mkState (objs s)
           (<[fresh (dom (heap s)) :=
                blit built (N.to_nat (size_ other)) 0 0 (block_of s other)
                  (replicate (N.to_nat (size_ other)) raw_cell)]> (heap s))
           (log s ++
            zip_with ECopyCtor
              (ptrs (N.to_nat (size_ other)) (at_ (fresh (dom (heap s))) 0))
              (ptrs (N.to_nat (size_ other)) (begin other)))) /\
   forall k c, (k < N.to_nat (size_ other))%nat -> block_of s other !! k = Some c ->
               throws_on copy_throws (val c) = false) \/
  ((exists l', Vector_copy other s = Throw (mkState (objs s) (heap s) l')) /\
   exists k c, (k < N.to_nat (size_ other))%nat /\ block_of s other !! k = Some c /\
               throws_on copy_throws (val c) = true).
Proof.
  intros Hok Hpos.
  destruct (vector_ok_length s other Hok Hpos) as (b & Hbuf & HB & HlenB).
  destruct Hok as (_ & Hsz & Hcap).
  set (B := block_of s other) in *. clearbody B.
  destruct other as [[pb capb] sb]; simpl in *. subst pb.
  set (bn := fresh (dom (heap s))).
  assert (Hbn : heap s !! bn = None) by apply fresh_block_free.
  assert (Hne : b <> bn) by congruence.
  unfold Vector_copy, bind, RawMemory_new, bind, Allocate. simpl.
  destruct (N.eqb_spec sb 0) as [|_]; [lia|].
  fold bn. unfold ret at 1. unfold try_catch, uninitialized_copy_n.
  unfold begin, GetAddress. simpl.
  change (Ptr (Some bn) 0) with (at_ bn 0).
  change (Ptr (Some b) 0) with (at_ b 0).
  set (s1 := mkState _ _ _).
  assert (H1 : heap s1 !! b = Some B)
    by (subst s1; simpl; rewrite lookup_insert_ne by done; assumption).
  assert (H2 : heap s1 !! bn = Some (replicate (N.to_nat sb) raw_cell))
    by (subst s1; apply lookup_insert_eq).
  assert (HlB : (0 + N.to_nat sb <= length B)%nat) by lia.
  assert (HlD : (0 + N.to_nat sb
                 <= length (replicate (N.to_nat sb) (raw_cell (T := T))))%nat)
    by (rewrite length_replicate; lia).
  destruct (uninitialized_copy_loop_frame b bn B 0 (N.to_nat sb) 0 0 _ s1
              H1 H2 Hne HlB (le_n 0) HlD)
    as (ds' & l' & Hlen' & [[_ Hall]|[Hrun Hex]]).
  - left. split; [|exact Hall].
    rewrite (uninitialized_copy_loop_ok b bn B 0 (N.to_nat sb) 0 0 _ s1
               H1 H2 Hne HlB HlD Hall).
    subst s1. simpl. rewrite insert_insert_eq. reflexivity.
  - right. split; [|exact Hex]. rewrite Hrun. subst s1.
    unfold RawMemory_dtor, Deallocate, bind, throw. simpl.
    rewrite lookup_insert_eq. simpl.
    rewrite !insert_insert_eq, delete_insert_id by assumption. eauto.
Qed.

Lemma Vector_copy_empty (other : Vector) s :
  size_ other = 0 ->
  Vector_copy other s = Ok Vector_default s.
Proof.
  intros Hsz. unfold Vector_copy, bind, RawMemory_new, Allocate.
  rewrite Hsz. reflexivity.
Qed.

(** X14: [Vector b(a)], when the copy of no element of [a] throws: [b] has
    a new buffer of exactly [a.Size()] slots, null when [a] is empty, the
    size and the values of [a], and every slot of it holds a live object;
    [a], every other block and every vector object are as before, and the
    calls on elements are the copy constructions slot by slot, front to
    back. *)
Theorem Vector_copy_copies (other : Vector) (s : state T) :
  vector_ok s other ->
  (forall c, c ∈ take (N.to_nat (size_ other)) (block_of s other) ->
             throws_on copy_throws (val c) = false) ->
  exists v' s',
    Vector_copy other s = Ok v' s' /\
    size_ v' = size_ other /\
    capacity_ (data_ v') = size_ other /\
    values s' v' = values s other /\
    vector_ok s' v' /\
    invariant s' v' /\
    objs s' = objs s /\
    (forall b A, heap s !! b = Some A -> heap s' !! b = Some A) /\
    log s' = log s ++
             zip_with ECopyCtor (ptrs (N.to_nat (size_ other)) (begin v'))
                                (ptrs (N.to_nat (size_ other)) (begin other)).
Proof.
  intros Hok Hthr.
  destruct (N.eq_dec (size_ other) 0) as [Hsz0|Hsz0].
  - rewrite (Vector_copy_empty other s Hsz0).
    exists Vector_default, s. split; [reflexivity|].
    split; [simpl; lia|]. split; [simpl; lia|].
    split; [unfold values; rewrite Hsz0; reflexivity|].
    split; [split; [split; reflexivity|split; [simpl; lia|reflexivity]]|].
    split; [split; [simpl; lia|reflexivity]|].
    split; [reflexivity|]. split; [auto|].
    rewrite Hsz0. simpl. rewrite app_nil_r. reflexivity.
  - destruct (Vector_copy_cases other s Hok) as [[Hrun _]|[_ Hex]]; [lia| |].
    2:{ destruct Hex as (k & c & Hk & Hc & Ht).
        rewrite Hthr in Ht; [discriminate|].
        apply (list_elem_of_lookup_2 _ k). rewrite lookup_take_lt by lia.
        exact Hc. }
    rewrite Hrun.
    destruct (vector_ok_length s other Hok) as (b & Hbuf & HB & HlenB); [lia|].
    destruct Hok as (_ & Hsz & Hcap).
    set (bn := fresh (dom (heap s))) in *.
    assert (Hbn : heap s !! bn = None) by apply fresh_block_free.
    set (B := block_of s other) in *.
    assert (Hvo : values s other = val <$> take (N.to_nat (size_ other)) B)
      by reflexivity.
    clearbody B.
    eexists _, _. split; [reflexivity|]. simpl.
    split; [reflexivity|]. split; [reflexivity|].
    rewrite Hvo. unfold invariant, values, lives, block_of. simpl.
    rewrite lookup_insert_eq. simpl.
    split; [apply values_blit_fresh; lia|].
    split.
    { split; [|simpl; lia]. split; [reflexivity|]. simpl.
      eexists. split; [apply lookup_insert_eq|].
      rewrite length_blit. apply length_replicate. }
    split.
    { split; [lia|]. rewrite lives_blit_fresh by lia.
      do 2 f_equal. lia. }
    split; [reflexivity|]. split; [|reflexivity].
    intros b' A HA. rewrite lookup_insert_ne by congruence. exact HA.
Qed.

(** X15: [Vector b(a)] when the copy of an element of [a] throws: the
    exception goes on, and every vector object and the whole free store are
    as before the call; the buffer that had been allocated is released. *)
Theorem Vector_copy_throw_releases (other : Vector) (s : state T) (k : nat)
    (c : cell T) :
  vector_ok s other ->
  (k < N.to_nat (size_ other))%nat ->
  block_of s other !! k = Some c ->
  throws_on copy_throws (val c) = true ->
  exists s',
    Vector_copy other s = Throw s' /\
    objs s' = objs s /\ heap s' = heap s.
Proof.
  intros Hok Hk Hc Ht.
  destruct (Vector_copy_cases other s Hok) as [[_ Hall]|[[l' Hrun] _]]; [lia| |].
  - rewrite (Hall k c Hk Hc) in Ht. discriminate.
  - rewrite Hrun. eexists. split; [reflexivity|]. split; reflexivity.
Qed.

(** X16: a copy of a vector that is then destroyed leaves every vector
    object and the whole free store as they were: nothing is leaked and
    nothing of the original is touched. *)
Theorem Vector_copy_then_dtor (other : Vector) (s : state T) :
  vector_ok s other ->
  (forall c, c ∈ take (N.to_nat (size_ other)) (block_of s other) ->
             throws_on copy_throws (val c) = false) ->
  exists s',
    (v' <- Vector_copy other;; Vector_dtor v') s = Ok tt s' /\
    objs s' = objs s /\ heap s' = heap s.
Proof.
  intros Hok Hthr. unfold bind at 1.
  destruct (N.eq_dec (size_ other) 0) as [Hsz0|Hsz0].
  - rewrite (Vector_copy_empty other s Hsz0).
    eexists. split; [reflexivity|]. split; reflexivity.
  - destruct (Vector_copy_cases other s Hok) as [[Hrun _]|[_ Hex]]; [lia| |].
    2:{ destruct Hex as (k & c & Hk & Hc & Ht).
        rewrite Hthr in Ht; [discriminate|].
        apply (list_elem_of_lookup_2 _ k). rewrite lookup_take_lt by lia.
        exact Hc. }
    rewrite Hrun.
    erewrite Vector_dtor_run; simpl;
      [|apply lookup_insert_eq|rewrite length_blit; apply length_replicate|lia].
    eexists. split; [reflexivity|]. simpl. split; [reflexivity|].
    apply delete_insert_id. apply fresh_block_free.
Qed.

(** [a = b] when [b] has more elements than [a] has capacity: a copy of [b]
    is made, and either that throws with nothing changed, or [a] takes the
    buffer of the copy and the elements and the buffer [a] had are
    destroyed and released *)
Lemma copy_assign_grow_cases (a b : nat) (va vb : Vector) s :
  a <> b ->
  objs s !! a = Some va ->
  objs s !! b = Some vb ->
  vector_ok s va ->
  vector_ok s vb ->
  capacity_ (data_ va) < size_ vb ->
  (copy_assign a b s
   = Ok tt
       (mkState
          (<[a := mkVec (mkRaw (Ptr (Some (fresh (dom (heap s)))) 0) (size_ vb))
                        (size_ vb)]> (objs s))
          (match blk (buffer_ (data_ va)) with
           | Some ba =>
               delete ba
                 (<[fresh (dom (heap s)) :=
                      blit built (N.to_nat (size_ vb)) 0 0 (block_of s vb)
                        (replicate (N.to_nat (size_ vb)) raw_cell)]> (heap s))
           | None =>
               <[fresh (dom (heap s)) :=
                   blit built (N.to_nat (size_ vb)) 0 0 (block_of s vb)
                     (replicate (N.to_nat (size_ vb)) raw_cell)]> (heap s)
           end)
          (log s ++
           zip_with ECopyCtor
             (ptrs (N.to_nat (size_ vb)) (at_ (fresh (dom (heap s))) 0))
             (ptrs (N.to_nat (size_ vb)) (begin vb)) ++
           (EDtor <$> ptrs (N.to_nat (size_ va)) (begin va)))) /\
   forall k c, (k < N.to_nat (size_ vb))%nat -> block_of s vb !! k = Some c ->
               throws_on copy_throws (val c) = false) \/
  ((exists l', copy_assign a b s = Throw (mkState (objs s) (heap s) l')) /\
   exists k c, (k < N.to_nat (size_ vb))%nat /\ block_of s vb !! k = Some c /\
               throws_on copy_throws (val c) = true).
Proof.
  intros Hab Ha Hb Hoka Hokb Hgrow.
  unfold copy_assign, bind, get_vec.
  rewrite bool_decide_eq_false_2 by assumption. simpl. rewrite Ha, Hb.
  destruct (N.ltb_spec (capacity_ (data_ va)) (size_ vb)) as [_|]; [|lia].
  destruct (Vector_copy_cases vb s Hokb) as [[Hrun Hall]|[[l' Hrun] Hex]]; [lia| |].
  - left. split; [|exact Hall]. rewrite Hrun. simpl.
    unfold set_vec. simpl.
    set (bn := fresh (dom (heap s))).
    assert (Hbn : heap s !! bn = None) by apply fresh_block_free.
    destruct Hoka as ((Hoff & Hown) & Hsz & _).
    destruct va as [[[bo o] cap] sz]; simpl in *. subst o.
    destruct bo as [ba|].
    + destruct Hown as (A & HA & Hlen).
      assert (ba <> bn) by congruence.
      erewrite Vector_dtor_run; simpl;
        [|rewrite lookup_insert_ne by done; exact HA|exact Hlen|exact Hsz].
      unfold begin, GetAddress. simpl.
      change (Ptr (Some ba) 0) with (at_ ba 0).
      rewrite <- app_assoc. reflexivity.
    + subst cap. assert (sz = 0) by lia. subst sz.
      unfold Vector_dtor, bind, destroy_n, RawMemory_dtor, Deallocate. simpl.
      unfold ret. simpl. rewrite !app_nil_r. reflexivity.
  - right. split; [|exact Hex]. rewrite Hrun. eauto.
Qed.

(** X17: [a = b] for two vectors with [b.Size() > a.Capacity()], when the
    copy of no element of [b] throws: [a] gets a new buffer of exactly
    [b.Size()] slots with the values of [b], every slot holding a live
    object; the elements [a] had are destroyed, front to back, after all the
    copies are made, and the buffer [a] had is released; [b] is untouched. *)
Theorem copy_assign_reallocates (a b : nat) (va vb : Vector) (s : state T) :
  a <> b ->
  objs s !! a = Some va ->
  objs s !! b = Some vb ->
  vector_ok s va ->
  vector_ok s vb ->
  blk (buffer_ (data_ va)) <> blk (buffer_ (data_ vb)) ->
  capacity_ (data_ va) < size_ vb ->
  (forall c, c ∈ take (N.to_nat (size_ vb)) (block_of s vb) ->
             throws_on copy_throws (val c) = false) ->
  exists s' v',
    copy_assign a b s = Ok tt s' /\
    objs s' = <[a := v']> (objs s) /\
    size_ v' = size_ vb /\
    capacity_ (data_ v') = size_ vb /\
    values s' v' = values s vb /\
    vector_ok s' v' /\
    invariant s' v' /\
    block_of s' vb = block_of s vb /\
    (forall ba, blk (buffer_ (data_ va)) = Some ba -> heap s' !! ba = None) /\
    log s' = log s ++
             zip_with ECopyCtor (ptrs (N.to_nat (size_ vb)) (begin v'))
                                (ptrs (N.to_nat (size_ vb)) (begin vb)) ++
             (EDtor <$> ptrs (N.to_nat (size_ va)) (begin va)).
Proof.
  intros Hab Ha Hb Hoka Hokb Hapart Hgrow Hthr.
  destruct (copy_assign_grow_cases a b va vb s Hab Ha Hb Hoka Hokb Hgrow)
    as [[Hrun _]|[_ Hex]].
  2:{ destruct Hex as (k & c & Hk & Hc & Ht).
      rewrite Hthr in Ht; [discriminate|].
      apply (list_elem_of_lookup_2 _ k). rewrite lookup_take_lt by lia.
      exact Hc. }
  rewrite Hrun.
  destruct (vector_ok_length s vb Hokb) as (bb & Hbuf & HB & HlenB); [lia|].
  destruct Hokb as (_ & Hszb & Hcapb).
  set (bn := fresh (dom (heap s))) in *.
  assert (Hbn : heap s !! bn = None) by apply fresh_block_free.
  set (B := block_of s vb) in *.
  assert (Hvo : values s vb = val <$> take (N.to_nat (size_ vb)) B)
    by reflexivity.
  assert (HbB : forall h : gmap nat (list (cell T)), h !! bb = Some B ->
            match blk (buffer_ (data_ vb)) with
            | Some x => default [] (h !! x)
            | None => []
            end = B).
  { intros h Hh. rewrite Hbuf. simpl. rewrite Hh. reflexivity. }
  clearbody B.
  set (new_block := blit built (N.to_nat (size_ vb)) 0 0 B
                      (replicate (N.to_nat (size_ vb)) raw_cell)).
  assert (Hnew : forall h : gmap nat (list (cell T)),
            h = match blk (buffer_ (data_ va)) with
                | Some ba => delete ba (<[bn := new_block]> (heap s))
                | None => <[bn := new_block]> (heap s)
                end ->
            h !! bn = Some new_block /\ h !! bb = Some B /\
            forall ba, blk (buffer_ (data_ va)) = Some ba -> h !! ba = None).
  { intros h ->. destruct (blk (buffer_ (data_ va))) as [ba|] eqn:Hba.
    - assert (ba <> bn).
      { destruct Hoka as ((_ & Hown) & _). rewrite Hba in Hown.
        destruct Hown as (A & HA & _). congruence. }
      assert (ba <> bb) by (rewrite Hbuf in Hapart; simpl in Hapart; congruence).
      rewrite !lookup_delete_ne, lookup_insert_eq by done.
      rewrite lookup_insert_ne by congruence.
      split; [reflexivity|]. split; [exact HB|].
      intros ? [= <-]. apply lookup_delete_eq.
    - rewrite lookup_insert_eq, lookup_insert_ne by congruence.
      split; [reflexivity|]. split; [exact HB|]. discriminate. }
  eexists _, (mkVec (mkRaw (Ptr (Some bn) 0) (size_ vb)) (size_ vb)).
  split; [reflexivity|]. simpl.
  destruct (Hnew _ eq_refl) as (Hhn & Hhb & Hfreed).
  split; [reflexivity|]. split; [reflexivity|]. split; [reflexivity|].
  rewrite Hvo. unfold invariant, values, lives, block_of. simpl.
  rewrite Hhn. simpl.
  split; [apply values_blit_fresh; lia|].
  split.
  { split; [|simpl; lia]. split; [reflexivity|]. simpl.
    eexists. split; [exact Hhn|].
    unfold new_block. rewrite length_blit. apply length_replicate. }
  split.
  { split; [lia|]. unfold new_block. rewrite lives_blit_fresh by lia.
    do 2 f_equal. lia. }
  split; [apply HbB; exact Hhb|].
  split; [exact Hfreed|reflexivity].
Qed.

(** X18: [a = b] for two vectors with [b.Size() > a.Capacity()], when the
    copy of an element of [b] throws: the exception goes on and every vector
    object and the whole free store are as before the call, so [a] has the
    size, the capacity, the buffer and the elements it had. *)
Theorem copy_assign_grow_strong_guarantee (a b : nat) (va vb : Vector)
    (s : state T) (k : nat) (c : cell T) :
  a <> b ->
  objs s !! a = Some va ->
  objs s !! b = Some vb ->
  vector_ok s va ->
  vector_ok s vb ->
  capacity_ (data_ va) < size_ vb ->
  (k < N.to_nat (size_ vb))%nat ->
  block_of s vb !! k = Some c ->
  throws_on copy_throws (val c) = true ->
  exists s',
    copy_assign a b s = Throw s' /\
    objs s' = objs s /\ heap s' = heap s.
Proof.
  intros Hab Ha Hb Hoka Hokb Hgrow Hk Hc Ht.
  destruct (copy_assign_grow_cases a b va vb s Hab Ha Hb Hoka Hokb Hgrow)
    as [[_ Hall]|[[l' Hrun] _]].
  - rewrite (Hall k c Hk Hc) in Ht. discriminate.
  - rewrite Hrun. eexists. split; [reflexivity|]. split; reflexivity.
Qed.

End Copies.

Lemma Vector_dtor_releases_witness :
  exists s',
    Vector_dtor (mkVec (mkRaw (Ptr (Some 5%nat) 0) 4) 3) obj_vector_123 = Ok tt s' /\
    heap s' = delete 5%nat (heap obj_vector_123) /\
    log s' = [EDtor (Ptr (Some 5%nat) 0); EDtor (Ptr (Some 5%nat) 1);
              EDtor (Ptr (Some 5%nat) 2)].
Proof.
  destruct (Vector_dtor_releases (mkVec (mkRaw (Ptr (Some 5%nat) 0) 4) 3)
              obj_vector_123)
    as (s' & Hrun & _ & Hlog & Hheap & _).
  - split; [split; [reflexivity|]|split; [simpl; lia|reflexivity]].
    exists [live_obj 1; live_obj 2; live_obj 3; raw_cell]. split; reflexivity.
  - exists s'. split; [exact Hrun|].
    split; [apply Hheap; reflexivity|]. rewrite Hlog. reflexivity.
Defined.

Lemma Vector_copy_copies_witness :
  exists v' s',
    Vector_copy (mkVec (mkRaw (Ptr (Some 5%nat) 0) 4) 3) obj_vector_123
      = Ok v' s' /\
    capacity_ (data_ v') = 3 /\
    values s' v' = [Some (mkObj 1); Some (mkObj 2); Some (mkObj 3)].
Proof.
  destruct (Vector_copy_copies (mkVec (mkRaw (Ptr (Some 5%nat) 0) 4) 3)
              obj_vector_123)
    as (v' & s' & Hrun & _ & Hcap & Hvals & _).
  - split; [split; [reflexivity|]|split; [simpl; lia|reflexivity]].
    exists [live_obj 1; live_obj 2; live_obj 3; raw_cell]. split; reflexivity.
  - intros c Hc. vm_compute in Hc.
    repeat (apply elem_of_cons in Hc as [->|Hc]; [reflexivity|]).
    apply elem_of_nil in Hc. destruct Hc.
  - exists v', s'. split; [exact Hrun|]. split; [exact Hcap|].
    rewrite Hvals. reflexivity.
Defined.

Lemma Vector_copy_throw_releases_witness :
  exists s',
    Vector_copy (mkVec (mkRaw (Ptr (Some 5%nat) 0) 3) 3) obj_vector_full
      = Throw s' /\
    objs s' = objs obj_vector_full /\ heap s' = heap obj_vector_full.
Proof.
  apply (Vector_copy_throw_releases (mkVec (mkRaw (Ptr (Some 5%nat) 0) 3) 3)
           obj_vector_full 1%nat (live_obj (-2))).
  - split; [split; [reflexivity|]|split; [simpl; lia|reflexivity]].
    exists [live_obj 1; live_obj (-2); live_obj 3]. split; reflexivity.
  - simpl. lia.
  - reflexivity.
  - reflexivity.
Defined.

Lemma Vector_copy_then_dtor_witness :
  exists s',
    (v' <- Vector_copy (mkVec (mkRaw (Ptr (Some 5%nat) 0) 4) 3);; Vector_dtor v')
      obj_vector_123 = Ok tt s' /\
    objs s' = objs obj_vector_123 /\ heap s' = heap obj_vector_123.
Proof.
  apply (Vector_copy_then_dtor (mkVec (mkRaw (Ptr (Some 5%nat) 0) 4) 3)
           obj_vector_123).
  - split; [split; [reflexivity|]|split; [simpl; lia|reflexivity]].
    exists [live_obj 1; live_obj 2; live_obj 3; raw_cell]. split; reflexivity.
  - intros c Hc. vm_compute in Hc.
    repeat (apply elem_of_cons in Hc as [->|Hc]; [reflexivity|]).
    apply elem_of_nil in Hc. destruct Hc.
Defined.

Lemma copy_assign_reallocates_witness :
  exists s' v',
    copy_assign 0%nat 1%nat (obj_vector_short 8) = Ok tt s' /\
    objs s' !! 0%nat = Some v' /\
    capacity_ (data_ v') = 3 /\
    values s' v' = [Some (mkObj 7); Some (mkObj 8); Some (mkObj 9)] /\
    heap s' !! 5%nat = None.
Proof.
  destruct (copy_assign_reallocates 0%nat 1%nat
              (mkVec (mkRaw (Ptr (Some 5%nat) 0) 1) 1)
              (mkVec (mkRaw (Ptr (Some 6%nat) 0) 3) 3) (obj_vector_short 8))
    as (s' & v' & Hrun & Hobjs & _ & Hcap & Hvals & _ & _ & _ & Hfreed & _).
  - discriminate.
  - reflexivity.
  - reflexivity.
  - split; [split; [reflexivity|]|split; [simpl; lia|reflexivity]].
    exists [live_obj 1]. split; reflexivity.
  - split; [split; [reflexivity|]|split; [simpl; lia|reflexivity]].
    exists [live_obj 7; live_obj 8; live_obj 9]. split; reflexivity.
  - simpl. discriminate.
  - simpl. lia.
  - intros c Hc. vm_compute in Hc.
    repeat (apply elem_of_cons in Hc as [->|Hc]; [reflexivity|]).
    apply elem_of_nil in Hc. destruct Hc.
  - exists s', v'. split; [exact Hrun|].
    split; [rewrite Hobjs; apply lookup_insert_eq|].
    split; [exact Hcap|]. split; [rewrite Hvals; reflexivity|].
    apply Hfreed. reflexivity.
Defined.

Lemma copy_assign_grow_strong_guarantee_witness :
  exists s',
    copy_assign 0%nat 1%nat (obj_vector_short (-8)) = Throw s' /\
    objs s' = objs (obj_vector_short (-8)) /\
    heap s' = heap (obj_vector_short (-8)).
Proof.
  apply (copy_assign_grow_strong_guarantee 0%nat 1%nat
           (mkVec (mkRaw (Ptr (Some 5%nat) 0) 1) 1)
           (mkVec (mkRaw (Ptr (Some 6%nat) 0) 3) 3) (obj_vector_short (-8))
           1%nat (live_obj (-8))).
  - discriminate.
  - reflexivity.
  - reflexivity.
  - split; [split; [reflexivity|]|split; [simpl; lia|reflexivity]].
    exists [live_obj 1]. split; reflexivity.
  - split; [split; [reflexivity|]|split; [simpl; lia|reflexivity]].
    exists [live_obj 7; live_obj (-8); live_obj 9]. split; reflexivity.
  - simpl. lia.
  - simpl. lia.
  - reflexivity.
  - reflexivity.
Defined.

(** ** [Emplace] into a new buffer, when a constructor throws *)

Section EmplaceStrong.
Context {T : Type} `{Element T}.
Implicit Types (s : state T) (A B ss ds : list (cell T)).

(** arguments that are not references into the free store *)
Lemma ForwardConstruct_cases s b i ds args :
  (forall src, args <> RefCopy src) -> (forall src, args <> RefMove src) ->
  heap s !! b = Some ds -> (i < length ds)%nat ->
  (ForwardConstruct (at_ b i) args s = Throw s /\ forall x, ~ constructs args x) \/
  exists x,
    constructs args x /\
    ForwardConstruct (at_ b i) args s
    = Ok tt (mkState (objs s) (<[b := <[i := Cell (Some x) true]> ds]> (heap s))
                     (log s ++ [ECtor (at_ b i)])).
Proof.
  intros Hnc Hnm Hb Hi. unfold constructs.
  destruct args as [x|x|src|src|[x|]]; simpl.
  - destruct (copy_throws x) eqn:Hx.
    + left. split; [reflexivity|].
      intros y [[[= <-] Hy]|[[? _]|?]]; congruence.
    + right. exists x. split; [left; split; [reflexivity|exact Hx]|].
      unfold bind. rewrite (store_cell_at s b i ds _ Hb Hi). reflexivity.
  - destruct (move_throws x) eqn:Hx.
    + left. split; [reflexivity|].
      intros y [[? _]|[[[= <-] Hy]|?]]; congruence.
    + right. exists x. split; [right; left; split; [reflexivity|exact Hx]|].
      unfold bind. rewrite (store_cell_at s b i ds _ Hb Hi). reflexivity.
  - destruct (Hnc src). reflexivity.
  - destruct (Hnm src). reflexivity.
  - right. exists x. split; [right; right; reflexivity|].
    unfold bind. rewrite (store_cell_at s b i ds _ Hb Hi). reflexivity.
  - left. split; [reflexivity|].
    intros y [[? _]|[[? _]|?]]; congruence.
Qed.

(** [Relocate] between two blocks returns, or it was copying and throws
    with only the destination block written *)
Lemma Relocate_cases bs bd ss ds (n i j : nat) s :
  heap s !! bs = Some ss -> heap s !! bd = Some ds -> bs <> bd ->
  (i + n <= length ss)%nat -> (j + n <= length ds)%nat ->
  (by_move = true -> forall y : T, move_throws y = false) ->
  exists ss' ds' l',
    length ss' = length ss /\ length ds' = length ds /\
    ((Relocate (at_ bs i) (N.of_nat n) (at_ bd j) s
      = Ok tt (mkState (objs s) (<[bs := ss']> (<[bd := ds']> (heap s))) l') /\
      (by_move = false -> ss' = ss)) \/
     (Relocate (at_ bs i) (N.of_nat n) (at_ bd j) s
      = Throw (mkState (objs s) (<[bd := ds']> (heap s)) l') /\
      by_move = false)).
Proof.
  intros Hs Hd Hne Hi Hj Hmv. unfold Relocate. fold by_move.
  destruct by_move eqn:Hby.
  - unfold uninitialized_move_n. rewrite Nat2N.id.
    rewrite (uninitialized_move_loop_ok bs bd j n i j ss ds s) by auto.
    eexists _, _, _. split; [apply length_alter_range|].
    split; [apply length_blit|]. left. split; [reflexivity|discriminate].
  - unfold uninitialized_copy_n. rewrite Nat2N.id.
    destruct (uninitialized_copy_loop_frame bs bd ss j n i j ds s)
      as (ds' & l' & Hlen & [[Hrun _]|[Hrun _]]); try assumption; try lia.
    + exists ss, ds', l'. split; [reflexivity|]. split; [exact Hlen|].
      left. split; [|reflexivity]. rewrite Hrun. do 2 f_equal.
      symmetry. apply insert_id.
      rewrite lookup_insert_ne by done. exact Hs.
    + exists ss, ds', l'. split; [reflexivity|]. split; [exact Hlen|].
      right. split; [exact Hrun|reflexivity].
Qed.

Local Ltac heap_lookup :=
  simpl;
  repeat first [rewrite lookup_insert_eq | rewrite lookup_insert_ne by congruence];
  first [reflexivity | eassumption].

(** on a full vector that has elements *)
Lemma Emplace_full_cases this s b (sz p : N) A args :
  objs s !! this = Some (mkVec (mkRaw (Ptr (Some b) 0) sz) sz) ->
  heap s !! b = Some A -> length A = N.to_nat sz ->
  p <= sz -> 0 < sz -> 2 * sz < SIZE_MOD ->
  (forall src, args <> RefCopy src) -> (forall src, args <> RefMove src) ->
  (by_move = true -> forall y : T, move_throws y = false) ->
  (exists it s1 x, Emplace this (Ptr (Some b) p) args s = Ok it s1 /\
                   constructs args x) \/
  ((exists l', Emplace this (Ptr (Some b) p) args s
               = Throw (mkState (objs s) (heap s) l')) /\
   ((forall x, ~ constructs args x) \/ by_move = false)).
Proof.
  intros Hv HA Hlen Hp Hsz Hcap Hnc Hnm Hmv.
  set (bn := fresh (dom (heap s))).
  assert (Hbn : heap s !! bn = None) by apply fresh_block_free.
  assert (Hne : b <> bn) by congruence.
  unfold Emplace, bind, get_vec. rewrite Hv. simpl.
  unfold cbegin, cend, begin, end_, GetAddress, ptr_add. simpl.
  rewrite !N.add_0_l, !ptr_le_same.
  destruct (N.leb_spec 0 p) as [_|]; [|lia].
  destruct (N.leb_spec p sz) as [_|]; [|lia]. simpl.
  rewrite N.eqb_refl. simpl.
  destruct (N.ltb_spec 0 sz) as [_|]; [|lia].
  unfold size_mul. rewrite (N.mod_small (sz * 2)) by lia.
  replace (sz * 2) with (2 * sz) by lia.
  unfold RawMemory_new, bind, Allocate.
  destruct (N.eqb_spec (2 * sz) 0) as [|_]; [lia|].
  fold bn. unfold ret at 1. unfold with_RawMemory, bind. simpl.
  unfold distance. simpl. rewrite N.sub_0_r.
  unfold RawMemory_plus, bind, assert_. simpl.
  destruct (N.leb_spec p (2 * sz)) as [_|]; [|lia].
  unfold ret at 1. unfold GetAddress, ptr_add. simpl. rewrite !N.add_0_l.
  rewrite size_sub_small by lia.
  rewrite !(at_of_N b), !(at_of_N bn).
  set (s0 := mkState _ _ _).
  assert (Hfree : forall q c ds l,
            blk q = Some bn -> off q = 0 ->
            RawMemory_dtor (mkRaw q c) (mkState (objs s) (<[bn := ds]> (heap s)) l)
            = Ok tt (mkState (objs s) (heap s) l)).
  { intros q c ds l Hq Ho. unfold RawMemory_dtor, Deallocate. simpl.
    rewrite Hq, Ho. simpl. rewrite lookup_insert_eq.
    rewrite delete_insert_id by assumption. reflexivity. }
  destruct (ForwardConstruct_cases s0 bn (N.to_nat p)
              (replicate (N.to_nat (2 * sz)) raw_cell) args Hnc Hnm)
    as [[Hfc Hno]|[x [Hx Hfc]]];
    [subst s0; heap_lookup|rewrite length_replicate; lia| |];
    rewrite Hfc.
  { right. subst s0. rewrite Hfree by reflexivity. unfold throw.
    split; [eauto|left; exact Hno]. }
  subst s0. simpl. rewrite insert_insert_eq.
  change (N.to_nat 0) with 0%nat.
  replace (Relocate (at_ b 0) p) with (Relocate (at_ b 0) (N.of_nat (N.to_nat p)))
    by (rewrite N2Nat.id; reflexivity).
  set (s1 := mkState _ _ _).
  destruct (Relocate_cases b bn A
              (<[N.to_nat p := Cell (Some x) true]>
                 (replicate (N.to_nat (2 * sz)) raw_cell))
              (N.to_nat p) 0 0 s1)
    as (A1 & D1 & l1 & HlA1 & HlD1 & [[Hr1 HA1]|[Hr1 Hby1]]);
    [subst s1; heap_lookup|subst s1; heap_lookup|assumption|lia
    |rewrite length_insert, length_replicate; lia|assumption| |];
    rewrite Hr1; subst s1; simpl; rewrite insert_insert_eq.
  2:{ right. rewrite Hfree by reflexivity. unfold throw.
      split; [eauto|right; exact Hby1]. }
  rewrite length_insert, length_replicate in HlD1.
  replace (Relocate (at_ b (N.to_nat p)) (sz - p))
    with (Relocate (at_ b (N.to_nat p)) (N.of_nat (N.to_nat sz - N.to_nat p)))
    by (f_equal; lia).
  replace (N.to_nat (p + 1)) with (S (N.to_nat p)) by lia.
  set (s2 := mkState _ _ _).
  destruct (Relocate_cases b bn A1 D1
              (N.to_nat sz - N.to_nat p) (N.to_nat p) (S (N.to_nat p)) s2)
    as (A2 & D2 & l2 & HlA2 & HlD2 & [[Hr2 _]|[Hr2 Hby]]);
    [subst s2; heap_lookup|subst s2; heap_lookup|assumption|lia
    |lia|assumption| |];
    rewrite Hr2; subst s2; simpl.
  2:{ right. rewrite (HA1 Hby).
      rewrite (insert_id (<[bn := D1]> (heap s)) b A) by heap_lookup.
      rewrite insert_insert_eq.
      rewrite Hfree by reflexivity. unfold throw.
      split; [eauto|right; exact Hby]. }
  left. unfold destroy_n.
  erewrite destroy_loop_run; simpl; [|heap_lookup|rewrite HlA2, HlA1; lia].
  rewrite insert_insert_eq.
  unfold ret at 1. unfold RawMemory_dtor, Deallocate. simpl.
  rewrite lookup_insert_eq. unfold ret at 1. simpl.
  rewrite lookup_insert_eq. unfold ret. simpl.
  eauto.
Qed.

(** on a vector with no capacity *)
Lemma Emplace_first_cases this s v args :
  objs s !! this = Some v -> vector_ok s v -> capacity_ (data_ v) = 0 ->
  (forall src, args <> RefCopy src) -> (forall src, args <> RefMove src) ->
  (exists it s1 x, Emplace this (begin v) args s = Ok it s1 /\
                   constructs args x) \/
  ((exists l', Emplace this (begin v) args s
               = Throw (mkState (objs s) (heap s) l')) /\
   forall x, ~ constructs args x).
Proof.
  intros Hv ((Hoff & Hown) & Hsz & _) Hcap Hnc Hnm.
  destruct v as [[[bo o] cap] sz]; simpl in *. subst o cap.
  assert (sz = 0) by lia. subst sz.
  set (bn := fresh (dom (heap s))).
  assert (Hbn : heap s !! bn = None) by apply fresh_block_free.
  unfold Emplace, bind, get_vec. rewrite Hv. simpl.
  unfold cbegin, cend, begin, end_, GetAddress, ptr_add. simpl.
  rewrite !ptr_le_same. simpl.
  unfold RawMemory_new, bind, Allocate. simpl. fold bn.
  unfold ret at 1. unfold with_RawMemory, bind. simpl.
  unfold distance. simpl.
  unfold RawMemory_plus, bind, assert_. simpl.
  unfold ret at 1. unfold GetAddress, ptr_add. simpl.
  change (Ptr (Some bn) 0) with (at_ bn 0).
  change (Ptr (Some bn) (0 + (0 - 0))) with (at_ bn 0).
  set (s0 := mkState _ _ _).
  destruct (ForwardConstruct_cases s0 bn 0 [raw_cell] args Hnc Hnm)
    as [[Hfc Hno]|[x [Hx Hfc]]];
    [subst s0; apply lookup_insert_eq|simpl; lia| |]; rewrite Hfc; subst s0.
  { right. split; [|exact Hno].
    unfold RawMemory_dtor, Deallocate, throw. simpl.
    rewrite lookup_insert_eq. simpl.
    rewrite delete_insert_id by assumption. eauto. }
  left. simpl. rewrite insert_insert_eq.
  assert (Hrel : forall q q' (s0 : state T), Relocate q 0 q' s0 = Ok tt s0).
  { intros q q' s0. unfold Relocate.
    destruct (is_nothrow_move_constructible || negb is_copy_constructible);
      reflexivity. }
  rewrite Hrel. rewrite size_sub_small by (first [lia | reflexivity]). simpl.
  rewrite Hrel. unfold destroy_n. simpl.
  unfold RawMemory_dtor, Deallocate. simpl.
  destruct bo as [b0|].
  - destruct Hown as (cs & Hcs & _).
    assert (b0 <> bn) by congruence.
    rewrite lookup_insert_ne by done. rewrite Hcs. simpl.
    rewrite lookup_insert_eq. unfold ret. simpl. eauto.
  - simpl. rewrite lookup_insert_eq. unfold ret. simpl. eauto.
Qed.

(** X19: [Insert(pos, value)], by either overload, on a vector whose buffer
    is full, for an element type that [Relocate] copies or whose move
    constructor does not throw.  The call returns or leaves by an exception;
    when it leaves by an exception, the vector object and the whole free
    store are what they were before the call: same size, capacity, buffer
    and cells, and the buffer that had been allocated is released.  And
    [Insert(pos, const T&)] does leave by an exception when the copy of
    [value] throws. *)
Theorem Insert_at_capacity_strong_guarantee (this : nat) (v : Vector)
    (s : state T) (p : N) (x : T) (insert : nat -> ptr -> T -> M (state T) ptr) :
  insert = Insert \/ insert = Insert_rvalue ->
  objs s !! this = Some v ->
  vector_ok s v ->
  size_ v = capacity_ (data_ v) ->
  p <= size_ v ->
  2 * capacity_ (data_ v) < SIZE_MOD ->
  (by_move = true -> forall y : T, move_throws y = false) ->
  insert this (ptr_add (begin v) p) x s <> Fault /\
  (forall s', insert this (ptr_add (begin v) p) x s = Throw s' ->
              objs s' = objs s /\ heap s' = heap s) /\
  (copy_throws x = true ->
   exists s', Insert this (ptr_add (begin v) p) x s = Throw s').
Proof.
  intros Hins Hv Hok Hfull Hp Hdbl Hmv.
  assert (Hcases : forall args,
            (forall src, args <> RefCopy src) -> (forall src, args <> RefMove src) ->
            (exists it s1 y, Emplace this (ptr_add (begin v) p) args s = Ok it s1 /\
                             constructs args y) \/
            ((exists l', Emplace this (ptr_add (begin v) p) args s
                         = Throw (mkState (objs s) (heap s) l')) /\
             ((forall y, ~ constructs args y) \/ by_move = false))).
  { intros args Hnc Hnm.
    destruct (N.eq_dec (capacity_ (data_ v)) 0) as [Hcap0|Hcap0].
    - assert (Hp0 : p = 0) by lia. subst p.
      replace (ptr_add (begin v) 0) with (begin v).
      + destruct (Emplace_first_cases this s v args Hv Hok Hcap0 Hnc Hnm)
          as [Hok'|[Hthrow Hno]]; [left; exact Hok'|right; auto].
      + destruct Hok as ((Hoff & _) & _). unfold ptr_add, begin, GetAddress.
        destruct (buffer_ (data_ v)) as [bo o]. simpl in *. subst o. reflexivity.
    - destruct (vector_ok_block s v Hok) as (b & A & Hd & HA & Hlen); [lia|].
      destruct v as [d sz]; simpl in *. subst sz.
      set (cap := capacity_ d) in *. clearbody cap. subst d. simpl in *.
      unfold begin, GetAddress, ptr_add. simpl. rewrite N.add_0_l.
      apply (Emplace_full_cases this s b cap p A args); try assumption; lia. }
  assert (Hsafe : forall args,
            (forall src, args <> RefCopy src) -> (forall src, args <> RefMove src) ->
            Emplace this (ptr_add (begin v) p) args s <> Fault /\
            forall s', Emplace this (ptr_add (begin v) p) args s = Throw s' ->
                       objs s' = objs s /\ heap s' = heap s).
  { intros args Hnc Hnm.
    destruct (Hcases args Hnc Hnm) as [(it & s1 & y & Hrun & _)|[[l' Hrun] _]];
      rewrite Hrun; (split; [discriminate|]); intros s' [= <-].
    split; reflexivity. }
  split; [|split].
  - destruct Hins as [-> | ->]; apply Hsafe; discriminate.
  - destruct Hins as [-> | ->]; apply Hsafe; discriminate.
  - intros Hx.
    destruct (Hcases (CopyOf x)) as [(it & s1 & y & _ & Hy)|[[l' Hrun] _]];
      try discriminate.
    + exfalso. destruct Hy as [[[= <-] Hy]|[[? _]|?]]; congruence.
    + eauto.
Qed.

End EmplaceStrong.

Lemma Insert_at_capacity_strong_guarantee_witness :
  exists s',
    Insert 0%nat (Ptr (Some 5%nat) 0) (mkObj 9) obj_vector_full = Throw s' /\
    objs s' = objs obj_vector_full /\ heap s' = heap obj_vector_full.
Proof.
  eexists. split; [vm_compute; reflexivity|].
  apply (Insert_at_capacity_strong_guarantee 0%nat
           (mkVec (mkRaw (Ptr (Some 5%nat) 0) 3) 3) obj_vector_full 0 (mkObj 9)
           Insert).
  - left. reflexivity.
  - reflexivity.
  - split; [split; [reflexivity|]|split; [simpl; lia|reflexivity]].
    exists [live_obj 1; live_obj (-2); live_obj 3]. split; reflexivity.
  - reflexivity.
  - simpl. lia.
  - reflexivity.
  - discriminate.
  - vm_compute. reflexivity.
Defined.

(** ** Value-initialisation: [Vector(size_t)] and [Resize] *)

Section ValueInit.
Context {T : Type} `{Element T}.
Implicit Types (s : state T) (A ds : list (cell T)) (init : nat -> option T).

Lemma length_filled init n : forall k j ds,
  length (filled init n k j ds) = length ds.
Proof.
  induction n as [|n IH]; intros k j ds; simpl; [done|].
  rewrite IH. apply length_insert.
Qed.

Lemma filled_lookup init n : forall k j ds i,
  (j + n <= length ds)%nat ->
  filled init n k j ds !! i
  = if decide (j <= i < j + n)%nat then Some (Cell (init (k + (i - j))%nat) true)
    else ds !! i.
Proof.
  induction n as [|n IH]; intros k j ds i Hj; simpl.
  - rewrite decide_False by lia. reflexivity.
  - rewrite IH by (rewrite length_insert; lia).
    destruct (decide (i = j)) as [->|Hne].
    + rewrite decide_False by lia. rewrite decide_True by lia.
      rewrite list_lookup_insert_eq by lia.
      replace (k + (j - j))%nat with k by lia. reflexivity.
    + rewrite list_lookup_insert_ne by done.
      destruct (decide (S j <= i < S j + n)%nat);
        [rewrite decide_True by lia|rewrite decide_False by lia];
        [|reflexivity].
      replace (S k + (i - S j))%nat with (k + (i - j))%nat by lia. reflexivity.
Qed.

Lemma filled_values init n k j ds :
  (j + n <= length ds)%nat ->
  val <$> take (j + n) (filled init n k j ds)
  = take j (val <$> ds) ++ (init <$> seq k n).
Proof.
  intros Hj. apply list_eq. intros i.
  rewrite list_lookup_fmap.
  destruct (decide (i < j)%nat).
  - rewrite lookup_take_lt by lia. rewrite filled_lookup by lia.
    rewrite decide_False by lia.
    rewrite lookup_app_l by (rewrite length_take, length_fmap; lia).
    rewrite lookup_take_lt by lia. rewrite list_lookup_fmap. reflexivity.
  - rewrite lookup_app_r by (rewrite length_take, length_fmap; lia).
    rewrite length_take, length_fmap.
    replace (j `min` length ds)%nat with j by lia.
    rewrite list_lookup_fmap.
    destruct (decide (i < j + n)%nat).
    + rewrite lookup_take_lt by lia. rewrite filled_lookup by lia.
      rewrite decide_True by lia. rewrite lookup_seq_lt by lia. reflexivity.
    + rewrite lookup_take_ge by lia. rewrite lookup_seq_ge by lia. reflexivity.
Qed.

Lemma filled_lives init n k j ds :
  (j + n <= length ds)%nat ->
  alive <$> filled init n k j ds
  = take j (alive <$> ds) ++ replicate n true ++ drop (j + n) (alive <$> ds).
Proof.
  intros Hj. apply list_eq. intros i.
  rewrite (lookup_patch_n _ _ j n) by (rewrite ?length_replicate, ?length_fmap; lia).
  rewrite !list_lookup_fmap, filled_lookup by lia.
  destruct (decide (i < j)%nat).
  - rewrite decide_False by lia. reflexivity.
  - destruct (decide (i < j + n)%nat).
    + rewrite decide_True by lia. rewrite lookup_replicate_2 by lia. reflexivity.
    + rewrite decide_False by lia. reflexivity.
Qed.

Lemma take_filled init n k j ds m :
  (m <= j)%nat -> take m (filled init n k j ds) = take m ds.
Proof.
  revert k j ds. induction n as [|n IH]; intros k j ds Hm; simpl; [done|].
  rewrite IH by lia. apply take_insert_ge. lia.
Qed.

(** [std::uninitialized_value_construct_n] on the slots [j, j + n) of a
    block: it returns when none of the constructions throws, and otherwise
    it throws at the first one that does, after destroying the slots
    [j0, j + m) built before *)
Lemma uninitialized_value_construct_loop_cases init b j0 n : forall k j ds s,
  heap s !! b = Some ds -> (j0 <= j)%nat -> (j + n <= length ds)%nat ->
  (uninitialized_value_construct_loop n k (at_ b j) (at_ b j0) init s
   = Ok tt (mkState (objs s) (<[b := filled init n k j ds]> (heap s))
                    (log s ++ (ECtor <$> ptrs n (at_ b j)))) /\
   forall i, (i < n)%nat -> init (k + i)%nat <> None) \/
  exists m,
    (m < n)%nat /\ init (k + m)%nat = None /\
    (forall i, (i < m)%nat -> init (k + i)%nat <> None) /\
    uninitialized_value_construct_loop n k (at_ b j) (at_ b j0) init s
    = Throw (mkState (objs s)
               (<[b := kill (j + m - j0) j0 (filled init m k j ds)]> (heap s))
               (log s ++ (ECtor <$> ptrs m (at_ b j)) ++
                (EDtor <$> ptrs (j + m - j0) (at_ b j0)))).
Proof.
  induction n as [|n IH]; intros k j ds s Hb Hj0 Hj; simpl.
  - left. split; [|intros; lia].
    unfold ret. rewrite insert_id by assumption. rewrite app_nil_r.
    destruct s; reflexivity.
  - unfold bind, try_catch. destruct (init k) as [x|] eqn:Hk; simpl.
    + unfold bind. rewrite (store_cell_at s b j ds _ Hb) by lia.
      unfold emit. simpl. rewrite at_next.
      set (s1 := mkState _ _ _).
      destruct (IH (S k) (S j) (<[j := Cell (Some x) true]> ds) s1)
        as [[Hrun Hall]|(m & Hm & Hnone & Hfirst & Hrun)];
        [subst s1; apply lookup_insert_eq|lia|rewrite length_insert; lia| |].
      * left. split.
        -- rewrite Hrun. subst s1. simpl.
           rewrite insert_insert_eq, <- app_assoc. reflexivity.
        -- intros i Hi. destruct i as [|i].
           ++ rewrite Nat.add_0_r, Hk. discriminate.
           ++ replace (k + S i)%nat with (S k + i)%nat by lia. apply Hall. lia.
      * right. exists (S m). split; [lia|].
        split; [replace (k + S m)%nat with (S k + m)%nat by lia; exact Hnone|].
        split.
        { intros i Hi. destruct i as [|i].
          - rewrite Nat.add_0_r, Hk. discriminate.
          - replace (k + S i)%nat with (S k + i)%nat by lia. apply Hfirst. lia. }
        rewrite Hrun. subst s1. simpl.
        rewrite insert_insert_eq, <- app_assoc. rewrite Hk, at_next.
        replace (j + S m - j0)%nat with (S j + m - j0)%nat by lia.
        reflexivity.
    + right. exists 0%nat. split; [lia|]. split; [rewrite Nat.add_0_r; exact Hk|].
      split; [intros; lia|].
      unfold destroy_n. rewrite at_distance.
      rewrite (destroy_loop_run b (j - j0) j0 ds s Hb) by lia.
      unfold throw. simpl. rewrite Nat.add_0_r. reflexivity.
Qed.

(** X20: [Vector v(n)], when the request of [n * sizeof(T)] bytes is one
    [operator new] grants (at most [PTRDIFF_MAX]) and none of the [n]
    constructions throws: [v] has a new buffer of exactly [n] slots, null for [n = 0], size [n], the
    values built by the [n] calls of [T()] in order, and every slot holds a
    live object; every other block and every vector object are as before. *)
Theorem Vector_sized_builds (n : N) (init : nat -> option T) (s : state T) :
  n < SIZE_MOD ->
  n * size_of (T := T) <= MAX_REQUEST ->
  (forall i, (i < N.to_nat n)%nat -> init i <> None) ->
  exists v' s',
    Vector_sized n init s = Ok v' s' /\
    size_ v' = n /\
    capacity_ (data_ v') = n /\
    values s' v' = init <$> seq 0 (N.to_nat n) /\
    vector_ok s' v' /\
    invariant s' v' /\
    objs s' = objs s /\
    (forall b A, heap s !! b = Some A -> heap s' !! b = Some A) /\
    log s' = log s ++ (ECtor <$> ptrs (N.to_nat n) (begin v')).
Proof.
  intros Hn _ Hinit. unfold Vector_sized, bind, RawMemory_new, bind, Allocate.
  destruct (N.eqb_spec n 0) as [->|Hn0].
  - simpl. exists Vector_default, s. split; [reflexivity|].
    split; [reflexivity|]. split; [reflexivity|]. split; [reflexivity|].
    split; [split; [split; reflexivity|split; [simpl; lia|reflexivity]]|].
    split; [split; [simpl; lia|reflexivity]|].
    split; [reflexivity|]. split; [auto|].
    simpl. rewrite app_nil_r. reflexivity.
  - set (bn := fresh (dom (heap s))).
    assert (Hbn : heap s !! bn = None) by apply fresh_block_free.
    unfold ret at 1. unfold try_catch, uninitialized_value_construct_n.
    unfold begin, GetAddress. simpl.
    change (Ptr (Some bn) 0) with (at_ bn 0).
    set (s0 := mkState _ _ _).
    destruct (uninitialized_value_construct_loop_cases init bn 0 (N.to_nat n) 0 0
                (replicate (N.to_nat n) raw_cell) s0)
      as [[Hrun _]|(m & Hm & Hnone & _ & _)];
      [subst s0; apply lookup_insert_eq|lia|rewrite length_replicate; lia| |].
    2:{ destruct (Hinit m Hm). exact Hnone. }
    rewrite Hrun. subst s0. simpl. rewrite insert_insert_eq.
    eexists _, _. split; [reflexivity|]. simpl.
    split; [reflexivity|]. split; [reflexivity|].
    unfold invariant, values, lives, block_of. simpl.
    rewrite lookup_insert_eq. simpl.
    split.
    { rewrite (filled_values init (N.to_nat n) 0 0) by (rewrite length_replicate; lia).
      reflexivity. }
    split.
    { split; [|simpl; lia]. split; [reflexivity|]. simpl.
      eexists. split; [apply lookup_insert_eq|].
      rewrite length_filled. apply length_replicate. }
    split.
    { split; [lia|].
      rewrite filled_lives by (rewrite length_replicate; lia).
      rewrite take_0. simpl. rewrite fmap_replicate, drop_replicate.
      do 2 f_equal. lia. }
    split; [reflexivity|]. split; [|reflexivity].
    intros b' A HA. rewrite lookup_insert_ne by congruence. exact HA.
Qed.

(** X21: [Vector v(n)] when the request of [n * sizeof(T)] bytes is one
    [operator new] grants (at most [PTRDIFF_MAX]) and one of the
    constructions throws: the exception goes on after the objects built before it have been destroyed, as many
    destructor calls as there were constructions, and the buffer has been
    released: every vector object and the whole free store are as before the
    call. *)
Theorem Vector_sized_throw_releases (n : N) (init : nat -> option T)
    (s : state T) (m : nat) :
  n * size_of (T := T) <= MAX_REQUEST ->
  (m < N.to_nat n)%nat ->
  init m = None ->
  exists s' m' q,
    Vector_sized n init s = Throw s' /\
    objs s' = objs s /\ heap s' = heap s /\
    (m' <= m)%nat /\
    log s' = log s ++ (ECtor <$> ptrs m' q) ++ (EDtor <$> ptrs m' q).
Proof.
  intros _ Hm Hnone. unfold Vector_sized, bind, RawMemory_new, bind, Allocate.
  destruct (N.eqb_spec n 0) as [->|Hn0]; [simpl in Hm; lia|].
  set (bn := fresh (dom (heap s))).
  assert (Hbn : heap s !! bn = None) by apply fresh_block_free.
  unfold ret at 1. unfold try_catch, uninitialized_value_construct_n.
  unfold begin, GetAddress. simpl.
  change (Ptr (Some bn) 0) with (at_ bn 0).
  set (s0 := mkState _ _ _).
  destruct (uninitialized_value_construct_loop_cases init bn 0 (N.to_nat n) 0 0
              (replicate (N.to_nat n) raw_cell) s0)
    as [[_ Hall]|(m' & Hm' & Hnone' & Hfirst & Hrun)];
    [subst s0; apply lookup_insert_eq|lia|rewrite length_replicate; lia| |].
  { destruct (Hall m Hm). exact Hnone. }
  rewrite Hrun. subst s0. simpl.
  unfold RawMemory_dtor, Deallocate, bind, throw. simpl.
  rewrite lookup_insert_eq. simpl.
  rewrite !insert_insert_eq, delete_insert_id by assumption.
  exists (mkState (objs s) (heap s)
            (log s ++ (ECtor <$> ptrs m' (at_ bn 0)) ++
             (EDtor <$> ptrs (0 + m' - 0) (at_ bn 0)))), m', (at_ bn 0).
  split; [reflexivity|]. split; [reflexivity|]. split; [reflexivity|].
  split.
  - destruct (le_lt_dec m' m) as [Hle|Hgt]; [exact Hle|].
    destruct (Hfirst m Hgt). exact Hnone.
  - simpl. replace (m' - 0)%nat with m' by lia. reflexivity.
Qed.

End ValueInit.

Lemma Vector_sized_builds_witness :
  exists v' s',
    Vector_sized 3 int_init fresh_vector = Ok v' s' /\
    capacity_ (data_ v') = 3 /\
    values s' v' = [Some 0%Z; Some 0%Z; Some 0%Z].
Proof.
  destruct (Vector_sized_builds 3 int_init fresh_vector)
    as (v' & s' & Hrun & _ & Hcap & Hvals & _).
  - reflexivity.
  - vm_compute. discriminate.
  - intros i _. discriminate.
  - exists v', s'. split; [exact Hrun|]. split; [exact Hcap|].
    rewrite Hvals. reflexivity.
Defined.

Lemma Vector_sized_throw_releases_witness :
  exists s',
    Vector_sized 3 (obj_init_until 2) obj_vector_123 = Throw s' /\
    objs s' = objs obj_vector_123 /\ heap s' = heap obj_vector_123.
Proof.
  destruct (Vector_sized_throw_releases 3 (obj_init_until 2) obj_vector_123 2%nat)
    as (s' & m' & q & Hrun & Hobjs & Hheap & _).
  - vm_compute. discriminate.
  - simpl. lia.
  - reflexivity.
  - exists s'. split; [exact Hrun|]. split; [exact Hobjs|exact Hheap].
Defined.

(** ** [Resize] *)

Section ResizeProofs.
Context {T : Type} `{Element T}.
Implicit Types (s : state T) (A ds : list (cell T)) (init : nat -> option T).

Local Ltac shape_cases :=
  repeat case_decide;
  first [reflexivity | (rewrite lookup_replicate_2 by lia; reflexivity) | lia].

Lemma lives_patch_grow (L : list bool) (sz k cap : nat) :
  L = replicate sz true ++ replicate (cap - sz) false -> (sz + k <= cap)%nat ->
  take sz L ++ replicate k true ++ drop (sz + k) L
  = replicate (sz + k) true ++ replicate (cap - (sz + k)) false.
Proof.
  intros -> Hk. apply list_eq. intros i.
  rewrite (lookup_patch_n _ _ sz k)
    by (rewrite ?length_replicate, ?length_app, ?length_replicate; lia).
  rewrite !lookup_lives_shape. shape_cases.
Qed.

Lemma lives_patch_same (L : list bool) (sz k cap : nat) :
  L = replicate sz true ++ replicate (cap - sz) false -> (sz + k <= cap)%nat ->
  take sz L ++ replicate k false ++ drop (sz + k) L = L.
Proof.
  intros -> Hk. apply list_eq. intros i.
  rewrite (lookup_patch_n _ _ sz k)
    by (rewrite ?length_replicate, ?length_app, ?length_replicate; lia).
  rewrite !lookup_lives_shape. shape_cases.
Qed.

Lemma lives_patch_shrink (L : list bool) (n sz cap : nat) :
  L = replicate sz true ++ replicate (cap - sz) false ->
  (n <= sz)%nat -> (sz <= cap)%nat ->
  take n L ++ replicate (sz - n) false ++ drop (n + (sz - n)) L
  = replicate n true ++ replicate (cap - n) false.
Proof.
  intros -> Hn Hsz. apply list_eq. intros i.
  rewrite (lookup_patch_n _ _ n (sz - n))
    by (rewrite ?length_replicate, ?length_app, ?length_replicate; lia).
  rewrite !lookup_lives_shape. shape_cases.
Qed.

Lemma Resize_shrink_run this s b (cap sz n : N) A init :
  objs s !! this = Some (mkVec (mkRaw (Ptr (Some b) 0) cap) sz) ->
  heap s !! b = Some A -> length A = N.to_nat cap ->
  n < sz -> sz <= cap -> cap < SIZE_MOD ->
  Resize this n init s
  = Ok tt (mkState (<[this := mkVec (mkRaw (Ptr (Some b) 0) cap) n]> (objs s))
             (<[b := kill (N.to_nat sz - N.to_nat n) (N.to_nat n) A]> (heap s))
             (log s ++ (EDtor <$> ptrs (N.to_nat sz - N.to_nat n)
                                       (at_ b (N.to_nat n))))).
Proof.
  intros Hv HA Hlen Hn Hsz Hcap.
  unfold Resize, bind, get_vec. rewrite Hv. simpl.
  destruct (N.eqb_spec n sz) as [|_]; [lia|].
  destruct (N.ltb_spec n sz) as [_|]; [|lia].
  unfold GetAddress, ptr_add, destroy_n. simpl. rewrite N.add_0_l.
  rewrite size_sub_small by lia.
  rewrite (at_of_N b n).
  replace (N.to_nat (sz - n)) with (N.to_nat sz - N.to_nat n)%nat by lia.
  rewrite (destroy_loop_run b _ (N.to_nat n) A s HA) by lia.
  simpl. rewrite Hv. reflexivity.
Qed.

(** X22: [Resize(n)] with [n] below the size returns; the buffer and the
    capacity stay, the size is [n], the values are the first [n] of the old
    ones, the elements from slot [n] on are destroyed, front to back, and
    the invariant holds afterwards if it held before. *)
Theorem Resize_shrinks (this : nat) (v : Vector) (s : state T) (n : N)
    (init : nat -> option T) :
  objs s !! this = Some v ->
  vector_ok s v ->
  n < size_ v ->
  exists s',
    Resize this n init s = Ok tt s' /\
    objs s' = <[this := mkVec (data_ v) n]> (objs s) /\
    vector_ok s' (mkVec (data_ v) n) /\
    values s' (mkVec (data_ v) n) = take (N.to_nat n) (values s v) /\
    (invariant s v -> invariant s' (mkVec (data_ v) n)) /\
    log s' = log s ++ (EDtor <$> ptrs (N.to_nat (size_ v - n))
                                      (ptr_add (begin v) n)).
Proof.
  intros Hv Hok Hn.
  destruct (vector_ok_block s v Hok) as (b & A & Hd & HA & Hlen).
  { destruct Hok as (_ & ? & _). lia. }
  destruct Hok as (_ & Hsz & Hcap).
  destruct v as [d sz]; simpl in *.
  set (cap := capacity_ d) in *. clearbody cap. subst d. simpl in *.
  rewrite (Resize_shrink_run this s b cap sz n A init) by assumption.
  eexists. split; [reflexivity|]. simpl. split; [reflexivity|].
  split.
  { split; [|simpl; lia]. split; [reflexivity|]. simpl.
    eexists. split; [apply lookup_insert_eq|]. rewrite length_kill. exact Hlen. }
  unfold invariant, values, lives, block_of, begin, GetAddress, ptr_add. simpl.
  rewrite lookup_insert_eq, HA. simpl. rewrite N.add_0_l.
  split; [|split].
  - rewrite take_alter_range by lia. rewrite !fmap_take, take_take.
    f_equal. lia.
  - intros [_ Hlives]. split; [lia|].
    rewrite alive_kill by lia.
    rewrite (lives_patch_shrink _ (N.to_nat n) (N.to_nat sz) (N.to_nat cap)).
    + do 2 f_equal. lia.
    + rewrite Hlives. do 2 f_equal. lia.
    + lia.
    + lia.
  - rewrite (at_of_N b n).
    replace (N.to_nat (sz - n)) with (N.to_nat sz - N.to_nat n)%nat by lia.
    reflexivity.
Qed.

Lemma Resize_unfold this v s (n : N) init :
  objs s !! this = Some v -> size_ v < n ->
  Resize this n init s
  = match (if capacity_ (data_ v) <? n then Reserve this n else ret tt) s with
    | Ok _ s1 => Resize_fill this n init s1
    | Throw s' => Throw s'
    | Fault => Fault
    end.
Proof.
  intros Hv Hn. unfold Resize, Resize_fill, bind, get_vec. rewrite Hv.
  destruct (N.eqb_spec n (size_ v)) as [|_]; [lia|].
  destruct (N.ltb_spec n (size_ v)) as [|_]; [lia|].
  destruct (N.ltb_spec (size_ v) n) as [_|]; [|lia].
  destruct ((if capacity_ (data_ v) <? n then Reserve this n else ret tt) s);
    reflexivity.
Qed.

(** the new slots are built and the size is set, or a construction throws
    and the slots built before it are destroyed *)
Lemma Resize_fill_cases this s b (cap sz n : N) A init :
  objs s !! this = Some (mkVec (mkRaw (Ptr (Some b) 0) cap) sz) ->
  heap s !! b = Some A -> length A = N.to_nat cap ->
  sz < n -> n <= cap -> cap < SIZE_MOD ->
  (Resize_fill this n init s
   = Ok tt (mkState (<[this := mkVec (mkRaw (Ptr (Some b) 0) cap) n]> (objs s))
              (<[b := filled init (N.to_nat n - N.to_nat sz) 0 (N.to_nat sz) A]>
                 (heap s))
              (log s ++ (ECtor <$> ptrs (N.to_nat n - N.to_nat sz)
                                        (at_ b (N.to_nat sz))))) /\
   forall i, (i < N.to_nat n - N.to_nat sz)%nat -> init i <> None) \/
  exists m,
    (m < N.to_nat n - N.to_nat sz)%nat /\ init m = None /\
    (forall i, (i < m)%nat -> init i <> None) /\
    Resize_fill this n init s
    = Throw (mkState (objs s)
               (<[b := kill m (N.to_nat sz) (filled init m 0 (N.to_nat sz) A)]>
                  (heap s))
               (log s ++ (ECtor <$> ptrs m (at_ b (N.to_nat sz))) ++
                (EDtor <$> ptrs m (at_ b (N.to_nat sz))))).
Proof.
  intros Hv HA Hlen Hn Hcapn Hcap.
  unfold Resize_fill, bind, get_vec. rewrite Hv. simpl.
  unfold uninitialized_value_construct_n, end_, GetAddress, ptr_add. simpl.
  rewrite N.add_0_l, size_sub_small by lia.
  rewrite (at_of_N b sz).
  replace (N.to_nat (n - sz)) with (N.to_nat n - N.to_nat sz)%nat by lia.
  destruct (uninitialized_value_construct_loop_cases init b (N.to_nat sz)
              (N.to_nat n - N.to_nat sz) 0 (N.to_nat sz) A s HA)
    as [[Hrun Hall]|(m & Hm & Hnone & Hfirst & Hrun)]; [lia|lia| |].
  - left. split; [|exact Hall]. rewrite Hrun. simpl. rewrite Hv. reflexivity.
  - right. exists m. split; [exact Hm|]. split; [exact Hnone|].
    split; [exact Hfirst|]. rewrite Hrun.
    replace (N.to_nat sz + m - N.to_nat sz)%nat with m by lia. reflexivity.
Qed.

Lemma lives_kill_filled init m k j ds :
  (j + m <= length ds)%nat ->
  alive <$> kill m j (filled init m k j ds)
  = take j (alive <$> ds) ++ replicate m false ++ drop (j + m) (alive <$> ds).
Proof.
  intros Hj. apply list_eq. intros i.
  rewrite (lookup_patch_n _ _ j m) by (rewrite ?length_replicate, ?length_fmap; lia).
  rewrite !list_lookup_fmap, alter_range_lookup, filled_lookup by lia.
  destruct (decide (i < j)%nat).
  - rewrite !decide_False by lia. reflexivity.
  - destruct (decide (i < j + m)%nat).
    + rewrite !decide_True by lia. rewrite lookup_replicate_2 by lia. reflexivity.
    + rewrite !decide_False by lia. reflexivity.
Qed.

Local Ltac heap_lookup :=
  simpl;
  repeat first [rewrite lookup_insert_eq | rewrite lookup_insert_ne by congruence];
  first [reflexivity | eassumption].

(** the state [Resize] to a larger size fills: the one before the call, or
    the one [Reserve] leaves when the capacity does not suffice *)
Lemma Resize_reserve_step this v s (n : N) :
  objs s !! this = Some v ->
  vector_ok s v ->
  size_ v < n -> n < SIZE_MOD ->
  (capacity_ (data_ v) < n ->
   (forall y : T, copy_throws y = false) /\ (forall y : T, move_throws y = false)) ->
  exists s1 b A1,
    (if capacity_ (data_ v) <? n then Reserve this n else ret tt) s = Ok tt s1 /\
    objs s1 = <[this := mkVec (mkRaw (Ptr (Some b) 0)
                                     (N.max (capacity_ (data_ v)) n))
                              (size_ v)]> (objs s) /\
    heap s1 !! b = Some A1 /\
    length A1 = N.to_nat (N.max (capacity_ (data_ v)) n) /\
    val <$> take (N.to_nat (size_ v)) A1 = values s v /\
    (invariant s v ->
     alive <$> A1
     = replicate (N.to_nat (size_ v)) true ++
       replicate (N.to_nat (N.max (capacity_ (data_ v)) n) - N.to_nat (size_ v))
                 false).
Proof.
  intros Hv Hok Hn Hmax Hthr.
  destruct (N.ltb_spec (capacity_ (data_ v)) n) as [Hgrow|Hfits].
  - destruct (Hthr Hgrow) as [Hcp Hmv].
    rewrite N.max_r by lia.
    destruct (N.eq_dec (capacity_ (data_ v)) 0) as [Hcap0|Hcap0].
    + destruct (Reserve_first_run this s v n Hv Hok Hcap0) as
        (s1 & Hrun & Hobjs & Hheap & _ & _); [lia|].
      pose proof Hok as (_ & Hsz & _).
      assert (Hsz0 : size_ v = 0) by lia.
      exists s1, (fresh (dom (heap s))), (replicate (N.to_nat n) raw_cell).
      split; [exact Hrun|]. split; [rewrite Hobjs, Hsz0; reflexivity|].
      split; [exact Hheap|]. split; [apply length_replicate|].
      split; [unfold values; rewrite Hsz0; reflexivity|].
      intros _. rewrite Hsz0, fmap_replicate. simpl.
      rewrite Nat.sub_0_r. reflexivity.
    + destruct (vector_ok_block s v Hok) as (b & A & Hd & HA & Hlen); [lia|].
      destruct Hok as (_ & Hsz & Hcap).
      destruct v as [d sz]; simpl in *.
      set (cap := capacity_ d) in *. clearbody cap. subst d. simpl in *.
      rewrite (Reserve_run this s b cap sz n A) by assumption.
      eexists _, (fresh (dom (heap s))), _.
      split; [reflexivity|]. simpl. split; [reflexivity|].
      split; [apply lookup_insert_eq|].
      split; [rewrite length_blit; apply length_replicate|].
      split.
      { rewrite values_blit_fresh by lia.
        unfold values, block_of. simpl. rewrite HA. reflexivity. }
      intros _. apply lives_blit_fresh; lia.
  - rewrite N.max_l by lia.
    destruct (vector_ok_block s v Hok) as (b & A & Hd & HA & Hlen); [lia|].
    destruct Hok as (_ & Hsz & Hcap).
    destruct v as [d sz]; simpl in *.
    set (cap := capacity_ d) in *. clearbody cap. subst d. simpl in *.
    exists s, b, A. split; [reflexivity|].
    split; [rewrite insert_id by assumption; reflexivity|].
    split; [exact HA|]. split; [exact Hlen|].
    unfold invariant, values, lives, block_of. simpl. rewrite HA. simpl.
    split; [reflexivity|].
    intros [_ Hlives]. rewrite Hlives. do 2 f_equal. lia.
Qed.

(** X23: [Resize(n)] with [n] above the size, when none of the
    constructions of [T()] throws and, for [n] above the capacity, the
    request of [n * sizeof(T)] bytes is one [operator new] grants (at most
    [PTRDIFF_MAX]) and no copy or move constructor of [T] throws: the call
    returns with size [n], the old values followed by the
    [n - size] values [T()] builds, and the capacity [n] when it was less
    and the old one otherwise; the invariant holds afterwards if it held
    before. *)
Theorem Resize_grows (this : nat) (v : Vector) (s : state T) (n : N)
    (init : nat -> option T) :
  objs s !! this = Some v ->
  vector_ok s v ->
  size_ v < n -> n < SIZE_MOD ->
  (capacity_ (data_ v) < n ->
   n * size_of (T := T) <= MAX_REQUEST /\
   (forall y : T, copy_throws y = false) /\ (forall y : T, move_throws y = false)) ->
  (forall i, (i < N.to_nat (n - size_ v))%nat -> init i <> None) ->
  exists s' v',
    Resize this n init s = Ok tt s' /\
    objs s' = <[this := v']> (objs s) /\
    size_ v' = n /\
    capacity_ (data_ v') = N.max (capacity_ (data_ v)) n /\
    values s' v' = values s v ++ (init <$> seq 0 (N.to_nat (n - size_ v))) /\
    vector_ok s' v' /\
    (invariant s v -> invariant s' v').
Proof.
  intros Hv Hok Hn Hmax Hreq Hinit.
  assert (Hthr : capacity_ (data_ v) < n ->
                 (forall y : T, copy_throws y = false) /\
                 (forall y : T, move_throws y = false))
    by (intros Hc; destruct (Hreq Hc) as (_ & Hcp & Hmv); split; assumption).
  rewrite (Resize_unfold this v s n init Hv Hn).
  destruct (Resize_reserve_step this v s n Hv Hok Hn Hmax Hthr)
    as (s1 & b & A1 & -> & Hobjs & HA1 & Hlen1 & Hvals1 & Hlives1).
  pose proof Hok as (_ & Hsz & Hcap).
  set (cap1 := N.max (capacity_ (data_ v)) n) in *.
  assert (Hcap1 : n <= cap1 /\ cap1 < SIZE_MOD) by (subst cap1; lia).
  destruct (Resize_fill_cases this s1 b cap1 (size_ v) n A1 init)
    as [[Hrun _]|(m & Hm & Hnone & _)];
    [rewrite Hobjs; apply lookup_insert_eq|assumption|assumption|lia|lia|lia| |].
  2:{ destruct (Hinit m); [lia|exact Hnone]. }
  rewrite Hrun.
  eexists _, (mkVec (mkRaw (Ptr (Some b) 0) cap1) n).
  split; [reflexivity|]. simpl.
  split; [rewrite Hobjs, insert_insert_eq; reflexivity|].
  split; [reflexivity|]. split; [reflexivity|].
  unfold invariant. unfold values at 1, lives, block_of. simpl.
  rewrite lookup_insert_eq. simpl.
  replace (N.to_nat n)
    with (N.to_nat (size_ v) + (N.to_nat n - N.to_nat (size_ v)))%nat at 1 by lia.
  split; [|split].
  - rewrite filled_values by lia. rewrite <- fmap_take, Hvals1.
    do 3 f_equal. lia.
  - split; [|simpl; lia]. split; [reflexivity|]. simpl.
    eexists. split; [apply lookup_insert_eq|].
    rewrite length_filled. exact Hlen1.
  - intros Hinv. split; [lia|]. rewrite filled_lives by lia.
    rewrite (lives_patch_grow _ (N.to_nat (size_ v)) _ (N.to_nat cap1)).
    + do 2 f_equal; lia.
    + apply Hlives1. exact Hinv.
    + lia.
Qed.

(** X24: [Resize(n)] with [n] above the size, when one of the constructions
    of [T()] throws and, for [n] above the capacity, [Reserve] went through
    (the request of [n * sizeof(T)] bytes is one [operator new] grants, at
    most [PTRDIFF_MAX], and no copy or move constructor of [T] throws): the
    exception goes on with the size and the values as before the call and
    with the invariant kept, but the capacity is [n] when it was less: the
    buffer [Reserve] made stays. *)
Theorem Resize_throw_keeps_elements (this : nat) (v : Vector) (s : state T)
    (n : N) (init : nat -> option T) (m : nat) :
  objs s !! this = Some v ->
  vector_ok s v ->
  size_ v < n -> n < SIZE_MOD ->
  (capacity_ (data_ v) < n ->
   n * size_of (T := T) <= MAX_REQUEST /\
   (forall y : T, copy_throws y = false) /\ (forall y : T, move_throws y = false)) ->
  (m < N.to_nat (n - size_ v))%nat ->
  init m = None ->
  exists s' v',
    Resize this n init s = Throw s' /\
    objs s' = <[this := v']> (objs s) /\
    size_ v' = size_ v /\
    capacity_ (data_ v') = N.max (capacity_ (data_ v)) n /\
    values s' v' = values s v /\
    vector_ok s' v' /\
    (invariant s v -> invariant s' v').
Proof.
  intros Hv Hok Hn Hmax Hreq Hm Hnone.
  assert (Hthr : capacity_ (data_ v) < n ->
                 (forall y : T, copy_throws y = false) /\
                 (forall y : T, move_throws y = false))
    by (intros Hc; destruct (Hreq Hc) as (_ & Hcp & Hmv); split; assumption).
  rewrite (Resize_unfold this v s n init Hv Hn).
  destruct (Resize_reserve_step this v s n Hv Hok Hn Hmax Hthr)
    as (s1 & b & A1 & -> & Hobjs & HA1 & Hlen1 & Hvals1 & Hlives1).
  pose proof Hok as (_ & Hsz & Hcap).
  set (cap1 := N.max (capacity_ (data_ v)) n) in *.
  assert (Hcap1 : n <= cap1 /\ cap1 < SIZE_MOD) by (subst cap1; lia).
  destruct (Resize_fill_cases this s1 b cap1 (size_ v) n A1 init)
    as [[_ Hall]|(m' & Hm' & _ & _ & Hrun)];
    [rewrite Hobjs; apply lookup_insert_eq|assumption|assumption|lia|lia|lia| |].
  { destruct (Hall m); [lia|exact Hnone]. }
  rewrite Hrun.
  eexists _, (mkVec (mkRaw (Ptr (Some b) 0) cap1) (size_ v)).
  split; [reflexivity|]. simpl.
  split; [exact Hobjs|].
  split; [reflexivity|]. split; [reflexivity|].
  unfold invariant. unfold values at 1, lives, block_of. simpl.
  rewrite lookup_insert_eq. simpl.
  split; [|split].
  - rewrite take_alter_range by lia. rewrite take_filled by lia. exact Hvals1.
  - split; [|simpl; lia]. split; [reflexivity|]. simpl.
    eexists. split; [apply lookup_insert_eq|].
    rewrite length_kill, length_filled. exact Hlen1.
  - intros Hinv. split; [lia|]. rewrite lives_kill_filled by lia.
    rewrite (lives_patch_same _ (N.to_nat (size_ v)) _ (N.to_nat cap1)).
    + rewrite (Hlives1 Hinv). do 2 f_equal. lia.
    + apply Hlives1. exact Hinv.
    + lia.
Qed.

End ResizeProofs.

Lemma Resize_shrinks_witness :
  exists s',
    Resize 0%nat 1 (obj_init_until 0) obj_vector_123 = Ok tt s' /\
    values s' (mkVec (mkRaw (Ptr (Some 5%nat) 0) 4) 1) = [Some (mkObj 1)] /\
    log s' = [EDtor (Ptr (Some 5%nat) 1); EDtor (Ptr (Some 5%nat) 2)].
Proof.
  destruct (Resize_shrinks 0%nat (mkVec (mkRaw (Ptr (Some 5%nat) 0) 4) 3)
              obj_vector_123 1 (obj_init_until 0))
    as (s' & Hrun & _ & _ & Hvals & _ & Hlog).
  - reflexivity.
  - split; [split; [reflexivity|]|split; [simpl; lia|reflexivity]].
    exists [live_obj 1; live_obj 2; live_obj 3; raw_cell]. split; reflexivity.
  - simpl. lia.
  - exists s'. split; [exact Hrun|]. split; [exact Hvals|].
    rewrite Hlog. reflexivity.
Defined.

Lemma Resize_grows_witness :
  exists s' v',
    Resize 0%nat 5 int_init int_vector_123 = Ok tt s' /\
    objs s' !! 0%nat = Some v' /\
    capacity_ (data_ v') = 5 /\
    values s' v' = [Some 1%Z; Some 2%Z; Some 3%Z; Some 0%Z; Some 0%Z].
Proof.
  destruct (Resize_grows 0%nat (mkVec (mkRaw (Ptr (Some 5%nat) 0) 4) 3)
              int_vector_123 5 int_init)
    as (s' & v' & Hrun & Hobjs & _ & Hcap & Hvals & _).
  - reflexivity.
  - split; [split; [reflexivity|]|split; [simpl; lia|reflexivity]].
    exists [Cell (Some 1%Z) true; Cell (Some 2%Z) true; Cell (Some 3%Z) true;
            raw_cell].
    split; reflexivity.
  - simpl. lia.
  - reflexivity.
  - intros _. split; [vm_compute; discriminate|split; reflexivity].
  - intros i _. discriminate.
  - exists s', v'. split; [exact Hrun|].
    split; [rewrite Hobjs; apply lookup_insert_eq|].
    split; [exact Hcap|]. rewrite Hvals. reflexivity.
Defined.

Lemma Resize_throw_keeps_elements_witness :
  exists s' v',
    Resize 0%nat 4 (str_init_until 1) str_vector_full = Throw s' /\
    objs s' !! 0%nat = Some v' /\
    size_ v' = 2 /\
    capacity_ (data_ v') = 4 /\
    values s' v' = [Some (mkStr [1%nat]); Some (mkStr [2%nat; 3%nat])].
Proof.
  destruct (Resize_throw_keeps_elements 0%nat
              (mkVec (mkRaw (Ptr (Some 5%nat) 0) 2) 2) str_vector_full 4
              (str_init_until 1) 1%nat)
    as (s' & v' & Hrun & Hobjs & Hsz & Hcap & Hvals & _).
  - reflexivity.
  - split; [split; [reflexivity|]|split; [simpl; lia|reflexivity]].
    exists [Cell (Some (mkStr [1%nat])) true;
            Cell (Some (mkStr [2%nat; 3%nat])) true].
    split; reflexivity.
  - simpl. lia.
  - reflexivity.
  - intros _. split; [vm_compute; discriminate|split; reflexivity].
  - simpl. lia.
  - reflexivity.
  - exists s', v'. split; [exact Hrun|].
    split; [rewrite Hobjs; apply lookup_insert_eq|].
    split; [exact Hsz|]. split; [exact Hcap|]. rewrite Hvals. reflexivity.
Defined.

(** ** Indexing *)

Section Indexing.
Context {T : Type} `{Element T}.
Implicit Types (s : state T) (A : list (cell T)).

(** X25: [v[i]] for [i < Size()] is the slot [begin() + i], which holds the
    [i]-th value of the vector, and the call changes nothing; for
    [i >= Size()] the assertion fails and the call has no defined result. *)
Theorem Vector_index_reads (this : nat) (v : Vector) (s : state T) (i : N) :
  objs s !! this = Some v ->
  vector_ok s v ->
  (i < size_ v ->
   exists c,
     Vector_index this i s = Ok (ptr_add (begin v) i) s /\
     load_cell (ptr_add (begin v) i) s = Ok c s /\
     values s v !! N.to_nat i = Some (val c)) /\
  (size_ v <= i -> Vector_index this i s = Fault).
Proof.
  intros Hv Hok. split.
  - intros Hi.
    destruct (vector_ok_block s v Hok) as (b & A & Hd & HA & Hlen).
    { destruct Hok as (_ & ? & _). lia. }
    pose proof Hok as (_ & Hsz & _).
    destruct (lookup_lt_is_Some_2 A (N.to_nat i)) as [c Hc]; [lia|].
    assert (Hblock : block_of s v = A).
    { unfold block_of. rewrite Hd. simpl. rewrite HA. reflexivity. }
    exists c. split; [|split].
    + unfold Vector_index, RawMemory_index, bind, get_vec, assert_. rewrite Hv.
      destruct (N.ltb_spec i (size_ v)) as [_|]; [|lia]. unfold ret at 1.
      destruct (N.ltb_spec i (capacity_ (data_ v))) as [_|]; [|lia].
      reflexivity.
    + apply load_cell_block_of; [exact Hok|]. rewrite Hblock. exact Hc.
    + unfold values. rewrite Hblock, list_lookup_fmap.
      rewrite lookup_take_lt by lia. rewrite Hc. reflexivity.
  - intros Hi. unfold Vector_index, bind, get_vec, assert_. rewrite Hv.
    destruct (N.ltb_spec i (size_ v)) as [|_]; [lia|]. reflexivity.
Qed.

End Indexing.

Lemma Vector_index_reads_witness :
  Vector_index 0%nat 1 obj_vector_123 = Ok (Ptr (Some 5%nat) 1) obj_vector_123 /\
  load_cell (Ptr (Some 5%nat) 1) obj_vector_123 = Ok (live_obj 2) obj_vector_123 /\
  Vector_index 0%nat 3 obj_vector_123 = Fault.
Proof.
  destruct (Vector_index_reads 0%nat (mkVec (mkRaw (Ptr (Some 5%nat) 0) 4) 3)
              obj_vector_123 1) as [Hin _].
  - reflexivity.
  - split; [split; [reflexivity|]|split; [simpl; lia|reflexivity]].
    exists [live_obj 1; live_obj 2; live_obj 3; raw_cell]. split; reflexivity.
  - destruct Hin as (c & Hidx & Hload & _); [simpl; lia|].
    split; [exact Hidx|]. split; [vm_compute; reflexivity|].
    vm_compute. reflexivity.
Defined.

(** ** [PushBack] into a free slot, and [PushBack] again and again *)

Section PushBacks.
Context {T : Type} `{Element T}.
Implicit Types (s : state T) (A : list (cell T)).

Lemma ForwardConstruct_constructs s b i ds args x :
  constructs args x ->
  heap s !! b = Some ds -> (i < length ds)%nat ->
  ForwardConstruct (at_ b i) args s
  = Ok tt (mkState (objs s) (<[b := <[i := Cell (Some x) true]> ds]> (heap s))
                   (log s ++ [ECtor (at_ b i)])).
Proof.
  intros [[-> Hx]|[[-> Hx]| ->]] Hb Hi; simpl; unfold bind;
    rewrite ?Hx, (store_cell_at s b i ds _ Hb Hi); reflexivity.
Qed.

(** X26: [PushBack(value)] on a vector with a free slot, when the
    construction of the new element does not throw: the element is built in
    the slot at the old size and nothing else happens.  The buffer is the
    same, every other slot of it and every other block is as before, and
    the one call on an element is that construction: no element is moved,
    copied or destroyed, so pointers to the elements stay good. *)
Theorem PushBack_in_place (this : nat) (v : Vector) (s : state T) (x : T)
    (push : nat -> T -> M (state T) unit) :
  push = PushBack /\ copy_throws x = false \/
  push = PushBack_rvalue /\ move_throws x = false ->
  objs s !! this = Some v ->
  vector_ok s v ->
  size_ v < capacity_ (data_ v) ->
  exists s' b,
    push this x s = Ok tt s' /\
    objs s' = <[this := mkVec (data_ v) (size_ v + 1)]> (objs s) /\
    buffer_ (data_ v) = Ptr (Some b) 0 /\
    heap s' = <[b := <[N.to_nat (size_ v) := Cell (Some x) true]> (block_of s v)]>
                (heap s) /\
    log s' = log s ++ [ECtor (end_ v)].
Proof.
  intros Hpush Hv Hok Hfree.
  assert (Hargs : exists args, constructs args x /\
            push this x s = (EmplaceBack this args;; ret tt) s).
  { destruct Hpush as [[-> Hx] | [-> Hx]].
    - exists (CopyOf x). split; [left; split; [reflexivity|exact Hx]|reflexivity].
    - exists (MoveOf x).
      split; [right; left; split; [reflexivity|exact Hx]|reflexivity]. }
  destruct Hargs as (args & Hargs & ->).
  destruct (vector_ok_block s v Hok) as (b & A & Hd & HA & Hlen); [lia|].
  destruct Hok as (_ & Hsz & Hcap).
  destruct v as [d sz]; simpl in *.
  set (cap := capacity_ d) in *. clearbody cap. subst d. simpl in *.
  exists (mkState (<[this := mkVec (mkRaw (Ptr (Some b) 0) cap) (sz + 1)]> (objs s))
                  (<[b := <[N.to_nat sz := Cell (Some x) true]> A]> (heap s))
                  (log s ++ [ECtor (Ptr (Some b) sz)])), b.
  split.
  { unfold EmplaceBack, Emplace, bind, get_vec. rewrite Hv. simpl.
    rewrite Hv. simpl.
    unfold cbegin, cend, begin, end_, GetAddress, ptr_add. simpl.
    rewrite !N.add_0_l, !ptr_le_same.
    destruct (N.leb_spec 0 sz) as [_|]; [|lia].
    destruct (N.leb_spec sz sz) as [_|]; [|lia]. simpl.
    destruct (N.eqb_spec sz cap) as [|_]; [lia|]. simpl.
    rewrite ?ptr_eqb_not_null, ptr_eqb_refl. simpl.
    unfold distance. simpl. rewrite N.sub_0_r.
    assert (Hrun : (p <- RawMemory_plus (mkRaw (Ptr (Some b) 0) cap) sz;;
                    ForwardConstruct p args) s
                   = Ok tt (mkState (objs s)
                              (<[b := <[N.to_nat sz := Cell (Some x) true]> A]> (heap s))
                              (log s ++ [ECtor (Ptr (Some b) sz)]))).
    { unfold RawMemory_plus, bind, assert_. simpl.
      destruct (N.leb_spec sz cap) as [_|]; [|lia]. unfold ret at 1.
      unfold ptr_add. simpl. rewrite N.add_0_l, (at_of_N b sz).
      apply (ForwardConstruct_constructs s b (N.to_nat sz) A args x);
        try assumption. lia. }
    unfold bind in Hrun.
    destruct (is_nothrow_move_constructible || is_copy_constructible).
    - unfold try_catch. rewrite Hrun. simpl. rewrite Hv. unfold ret. simpl.
      rewrite size_add_small by lia. reflexivity.
    - rewrite Hrun. simpl. rewrite Hv. unfold ret. simpl.
      rewrite size_add_small by lia. reflexivity. }
  simpl. split; [reflexivity|]. split; [reflexivity|].
  unfold block_of, end_, GetAddress, ptr_add. simpl. rewrite HA. simpl.
  rewrite N.add_0_l. split; reflexivity.
Qed.

Lemma pow2_ceiling_succ (n : N) :
  (if n =? pow2_ceiling n then if 0 <? n then 2 * n else 1 else pow2_ceiling n)
  = pow2_ceiling (n + 1).
Proof.
  unfold pow2_ceiling.
  destruct (N.eqb_spec (n + 1) 0) as [|_]; [lia|].
  destruct (N.eqb_spec n 0) as [->|Hn0]; [reflexivity|].
  destruct (N.ltb_spec 0 n) as [_|]; [|lia].
  destruct (N.eq_dec n 1) as [->|Hn1]; [reflexivity|].
  pose proof (N.log2_up_spec n) as [Hlo Hhi]; [lia|].
  set (k := N.log2_up n) in *.
  assert (Hk : 0 < k).
  { destruct (N.eq_dec k 0) as [Hk0|]; [|lia].
    rewrite Hk0 in Hhi. simpl in Hhi. lia. }
  assert (Hpow : 2 ^ k = 2 * 2 ^ N.pred k).
  { rewrite <- N.pow_succ_r'. f_equal. lia. }
  destruct (N.eqb_spec n (2 ^ k)) as [Heq|Hne].
  - rewrite (N.log2_up_unique (n + 1) (N.succ k)).
    + rewrite N.pow_succ_r'. lia.
    + lia.
    + rewrite N.pred_succ, N.pow_succ_r'. lia.
  - rewrite (N.log2_up_unique (n + 1) k); [reflexivity|lia|lia].
Qed.

Lemma pow2_ceiling_lt (n : N) : 0 < n -> pow2_ceiling n < 2 * n.
Proof.
  intros Hn. unfold pow2_ceiling.
  destruct (N.eqb_spec n 0) as [|_]; [lia|].
  destruct (N.eq_dec n 1) as [->|Hn1]; [reflexivity|].
  pose proof (N.log2_up_spec n) as [Hlo Hhi]; [lia|].
  set (k := N.log2_up n) in *.
  assert (Hk : 0 < k).
  { destruct (N.eq_dec k 0) as [Hk0|]; [|lia].
    rewrite Hk0 in Hhi. simpl in Hhi. lia. }
  assert (Hpow : 2 ^ k = 2 * 2 ^ N.pred k).
  { rewrite <- N.pow_succ_r'. f_equal. lia. }
  lia.
Qed.

Lemma PushBack_all_run (xs : list T) : forall this v s,
  objs s !! this = Some v ->
  vector_ok s v ->
  capacity_ (data_ v) = pow2_ceiling (size_ v) ->
  invariant s v ->
  4 * (size_ v + N.of_nat (length xs)) <= SIZE_MOD ->
  (forall y : T, copy_throws y = false) ->
  (forall y : T, move_throws y = false) ->
  exists s' v',
    PushBack_all this xs s = Ok tt s' /\
    objs s' !! this = Some v' /\
    vector_ok s' v' /\
    invariant s' v' /\
    size_ v' = size_ v + N.of_nat (length xs) /\
    capacity_ (data_ v') = pow2_ceiling (size_ v + N.of_nat (length xs)) /\
    values s' v' = values s v ++ (Some <$> xs).
Proof.
  induction xs as [|x xs IH]; intros this v s Hv Hok Hcap Hinv Hmax Hcp Hmv.
  - exists s, v. simpl. rewrite N.add_0_r, app_nil_r. auto 10.
  - pose proof Hok as (_ & Hsz & _).
    assert (Hdbl : 2 * capacity_ (data_ v) < SIZE_MOD).
    { rewrite Hcap. destruct (N.eq_dec (size_ v) 0) as [->|].
      - reflexivity.
      - pose proof (pow2_ceiling_lt (size_ v)). simpl length in Hmax. lia. }
    destruct (Emplace_end_or_full this v s (size_ v) (CopyOf x) x)
      as (s1 & v1 & Hrun & Hobjs & Hok1 & Hsz1 & Hcap1 & Hvals1 & _ & Hinv1);
      try assumption; [lia|left; reflexivity|left; reflexivity|].
    rewrite Hcap, pow2_ceiling_succ in Hcap1.
    pose proof (length_values s v Hok) as HlenV.
    rewrite take_ge, drop_ge in Hvals1 by lia. simpl in Hvals1.
    destruct (IH this v1 s1) as (s' & v' & Hrun' & Hv' & Hok' & Hinv' & Hsz' & Hcap' & Hvals');
      try assumption.
    + rewrite Hobjs. apply lookup_insert_eq.
    + rewrite Hcap1, Hsz1. reflexivity.
    + apply Hinv1. exact Hinv.
    + rewrite Hsz1. simpl length in Hmax. lia.
    + exists s', v'. split.
      { simpl. unfold bind at 1. unfold PushBack, EmplaceBack, bind, get_vec.
        rewrite Hv. change (end_ v) with (ptr_add (begin v) (size_ v)).
        rewrite Hrun. unfold ret at 1. exact Hrun'. }
      split; [exact Hv'|]. split; [exact Hok'|]. split; [exact Hinv'|].
      simpl length.
      split; [rewrite Hsz', Hsz1; lia|].
      split; [rewrite Hcap', Hsz1; f_equal; lia|].
      rewrite Hvals', Hvals1, <- app_assoc. reflexivity.
Qed.

(** X27: [PushBack] of the elements of a list, one after the other, on a
    vector that has no buffer, when no constructor of the element type
    throws: every call returns, the vector holds the elements of the list in
    order, and its capacity is the least power of two that is at least
    their number; the invariant holds. *)
Theorem PushBack_all_from_empty (this : nat) (v : Vector) (s : state T)
    (xs : list T) :
  objs s !! this = Some v ->
  vector_ok s v ->
  capacity_ (data_ v) = 0 ->
  4 * N.of_nat (length xs) <= SIZE_MOD ->
  (forall y : T, copy_throws y = false) ->
  (forall y : T, move_throws y = false) ->
  exists s' v',
    PushBack_all this xs s = Ok tt s' /\
    objs s' !! this = Some v' /\
    values s' v' = Some <$> xs /\
    size_ v' = N.of_nat (length xs) /\
    capacity_ (data_ v') = pow2_ceiling (N.of_nat (length xs)) /\
    invariant s' v'.
Proof.
  intros Hv Hok Hcap0 Hmax Hcp Hmv.
  pose proof Hok as (_ & Hsz & _).
  assert (Hsz0 : size_ v = 0) by lia.
  destruct (PushBack_all_run xs this v s)
    as (s' & v' & Hrun & Hv' & _ & Hinv' & Hsz' & Hcap' & Hvals'); try assumption.
  - rewrite Hcap0, Hsz0. reflexivity.
  - split; [lia|]. unfold lives, block_of.
    rewrite Hsz0, Hcap0. simpl.
    destruct Hok as ((_ & Hown) & _).
    destruct (blk (buffer_ (data_ v))) as [b|]; [|reflexivity].
    destruct Hown as (cs & -> & Hlen). simpl.
    rewrite Hcap0 in Hlen. destruct cs; [reflexivity|discriminate].
  - rewrite Hsz0. lia.
  - exists s', v'. split; [exact Hrun|]. split; [exact Hv'|].
    rewrite Hsz0 in *. rewrite N.add_0_l in *.
    split; [rewrite Hvals'; unfold values; rewrite Hsz0; reflexivity|].
    auto.
Qed.

End PushBacks.

Lemma PushBack_in_place_witness :
  exists s',
    PushBack 0%nat (mkObj 4) obj_vector_123 = Ok tt s' /\
    heap s' = <[5%nat := [live_obj 1; live_obj 2; live_obj 3; live_obj 4]]>
                (heap obj_vector_123) /\
    log s' = [ECtor (Ptr (Some 5%nat) 3)].
Proof.
  destruct (PushBack_in_place 0%nat (mkVec (mkRaw (Ptr (Some 5%nat) 0) 4) 3)
              obj_vector_123 (mkObj 4) PushBack)
    as (s' & b & Hrun & _ & Hbuf & Hheap & Hlog).
  - left. split; reflexivity.
  - reflexivity.
  - split; [split; [reflexivity|]|split; [simpl; lia|reflexivity]].
    exists [live_obj 1; live_obj 2; live_obj 3; raw_cell]. split; reflexivity.
  - simpl. lia.
  - exists s'. split; [exact Hrun|].
    injection Hbuf as <-. split; [exact Hheap|exact Hlog].
Defined.

Lemma PushBack_all_from_empty_witness :
  exists s' v',
    PushBack_all 0%nat [1%Z; 2%Z; 3%Z; 4%Z; 5%Z] fresh_vector = Ok tt s' /\
    objs s' !! 0%nat = Some v' /\
    values s' v' = [Some 1%Z; Some 2%Z; Some 3%Z; Some 4%Z; Some 5%Z] /\
    capacity_ (data_ v') = 8.
Proof.
  destruct (PushBack_all_from_empty 0%nat Vector_default fresh_vector
              [1%Z; 2%Z; 3%Z; 4%Z; 5%Z])
    as (s' & v' & Hrun & Hv' & Hvals & _ & Hcap & _).
  - reflexivity.
  - split; [split; reflexivity|split; [simpl; lia|reflexivity]].
  - reflexivity.
  - vm_compute. discriminate.
  - reflexivity.
  - reflexivity.
  - exists s', v'. split; [exact Hrun|]. split; [exact Hv'|].
    split; [exact Hvals|]. rewrite Hcap. reflexivity.
Defined.

(** ** [Insert] on trivially destructible element types *)

Section EmplaceAlias.
Context {T : Type} `{Element T}.
Implicit Types (s : state T) (cs ss ds A : list (cell T)) (b k l n : nat).

(** after the shift, the slot moved from last has what the move left *)
Lemma shift_right_src n : forall l cs,
  (0 < n)%nat -> (n <= l)%nat -> (l < length cs)%nat ->
  val <$> (shift_right n l cs !! (l - n)%nat)
  = option_map moved_from <$> (val <$> (cs !! (l - n)%nat)).
Proof.
  induction n as [|n IH]; intros l cs Hn Hl Hlen; [lia|].
  destruct l as [|l']; [lia|]. simpl.
  destruct (lookup_lt_is_Some_2 cs l') as [c Hc]; [lia|].
  destruct (lookup_lt_is_Some_2 cs (S l')) as [x Hx]; [lia|].
  rewrite (assign_in_eq true (S l') l' cs c x Hc Hx) by lia.
  destruct n as [|n'].
  - simpl. rewrite Nat.sub_0_r.
    rewrite list_lookup_insert_eq by (rewrite length_insert; lia).
    rewrite Hc. reflexivity.
  - rewrite IH by (rewrite ?length_insert; lia).
    rewrite !list_lookup_insert_ne by lia. reflexivity.
Qed.

(** before the end, with a free slot, of a reference to a slot of the
    buffer: the slot is read after the shift *)
Lemma Emplace_middle_ref_run this s b (cap sz p i : N) A c c' :
  objs s !! this = Some (mkVec (mkRaw (Ptr (Some b) 0) cap) sz) ->
  heap s !! b = Some A -> length A = N.to_nat cap ->
  p < sz -> sz < cap -> cap < SIZE_MOD ->
  A !! N.to_nat sz = Some c ->
  alter kill_cell (N.to_nat sz)
    (shift_right (N.to_nat sz - N.to_nat p) (N.to_nat sz)
       (<[N.to_nat sz := Cell (moved_from <$> val c) true]> A)) !! N.to_nat i
  = Some c' ->
  throws_on copy_throws (val c') = false ->
  (forall y : T, move_throws y = false) ->
  exists lg,
  Emplace this (Ptr (Some b) p) (RefCopy (Ptr (Some b) i)) s
  = Ok (Ptr (Some b) p)
       (mkState (<[this := mkVec (mkRaw (Ptr (Some b) 0) cap) (sz + 1)]> (objs s))
          (<[b := <[N.to_nat p := live_from c']>
                    (alter kill_cell (N.to_nat sz)
                       (shift_right (N.to_nat sz - N.to_nat p) (N.to_nat sz)
                          (<[N.to_nat sz := Cell (moved_from <$> val c) true]> A)))]>
             (heap s))
          lg).
Proof.
  intros Hv HA Hlen Hp Hsz Hcap Hc Hc' Hthr Hmv.
  eexists.
  unfold Emplace, bind, get_vec. rewrite Hv. simpl.
  unfold cbegin, cend, begin, end_, GetAddress, ptr_add. simpl.
  rewrite !N.add_0_l, !ptr_le_same.
  destruct (N.leb_spec 0 p) as [_|]; [|lia].
  destruct (N.leb_spec p sz) as [_|]; [|lia]. simpl.
  destruct (N.eqb_spec sz cap) as [|_]; [lia|]. simpl.
  rewrite ?ptr_eqb_not_null, ptr_eqb_at_ne by lia. simpl.
  unfold distance. simpl. rewrite N.sub_0_r.
  unfold RawMemory_index, RawMemory_plus, bind, assert_. simpl.
  destruct (N.ltb_spec sz cap) as [_|]; [|lia].
  destruct (N.leb_spec p cap) as [_|]; [|lia].
  destruct (N.leb_spec sz cap) as [_|]; [|lia].
  unfold ret at 1. unfold ptr_add. simpl. rewrite !N.add_0_l.
  rewrite !(at_of_N b).
  rewrite (move_construct_self s b (N.to_nat sz) A c HA Hc)
    by (destruct (val c); simpl; auto).
  unfold ret at 1. unfold move_backward, bind, assert_.
  unfold at_ at 1 2. rewrite ptr_le_same.
  destruct (N.leb_spec (N.of_nat (N.to_nat p)) (N.of_nat (N.to_nat sz)))
    as [_|]; [|lia].
  unfold ret at 1. rewrite at_distance.
  fold (next (at_ b (N.to_nat sz))). rewrite at_next.
  erewrite move_backward_loop_run; simpl;
    [|apply lookup_insert_eq|lia|rewrite length_insert; lia].
  erewrite destroy_at_run; simpl;
    [|apply lookup_insert_eq|rewrite length_shift_right, length_insert; lia].
  erewrite (copy_construct_run _ b b (N.to_nat i) (N.to_nat p) _ _ c'); simpl;
    [|apply lookup_insert_eq|exact Hc'|apply lookup_insert_eq
     |rewrite length_alter, length_shift_right, length_insert; lia].
  rewrite Hthr. simpl.
  rewrite Hv. simpl. rewrite size_add_small by lia.
  rewrite !insert_insert_eq.
  unfold at_. rewrite ?N2Nat.id, ?N.add_0_l. reflexivity.
Qed.

(** what a slot below the size holds after the shift *)
Lemma middle_read A (p sz i : nat) c0 c' :
  (p < sz)%nat -> (sz < length A)%nat -> (i < sz)%nat ->
  alter kill_cell sz (shift_right (sz - p) sz (<[sz := c0]> A)) !! i = Some c' ->
  read_through (val <$> take sz A) true p i = Some (val c').
Proof.
  intros Hp Hsz Hi Hc'.
  rewrite list_lookup_alter_ne in Hc' by lia.
  assert (Hval : val <$> (shift_right (sz - p) sz (<[sz := c0]> A) !! i)
                 = Some (val c')) by (rewrite Hc'; reflexivity).
  rewrite <- Hval. unfold read_through.
  destruct (decide (i = p)) as [->|Hne].
  - destruct (decide (p < p)%nat) as [|_]; [lia|].
    destruct (decide (p = p)) as [_|]; [|done].
    replace p with (sz - (sz - p))%nat at 2 by lia.
    rewrite shift_right_src by (rewrite ?length_insert; lia).
    replace (sz - (sz - p))%nat with p by lia.
    rewrite list_lookup_insert_ne by lia.
    rewrite list_lookup_fmap, lookup_take_lt by lia. reflexivity.
  - rewrite shift_right_val by (rewrite ?length_insert; lia).
    replace (sz - (sz - p))%nat with p by lia.
    destruct (decide (i < p)%nat).
    + rewrite decide_False by lia.
      rewrite list_lookup_insert_ne by lia.
      rewrite list_lookup_fmap, lookup_take_lt by lia. reflexivity.
    + rewrite decide_True by lia.
      rewrite list_lookup_insert_ne by lia.
      rewrite list_lookup_fmap, lookup_take_lt by lia. reflexivity.
Qed.

End EmplaceAlias.

Section InsertTrivial.
Context {T : Type} `{Element T}.
Implicit Types (s : state T) (A : list (cell T)).

(** X28: [Insert(pos, value)] at any position [0 <= pos <= size], for a
    trivially destructible element type whose constructors do not throw,
    when a new buffer, if one is needed, is one [operator new] grants.  When
    [value] names an object of the caller's that is no element of the vector
    (either overload), the call returns an iterator to slot [pos], the size
    is one more and the values are the old ones with [value] put in at
    [pos], the later ones one slot further.  When [value] is the element
    [v[i]] of this vector, the same holds with the value the reference
    names when the new element is built: with a free slot and [pos] before
    the end that is after the elements from [pos] on have been moved up, so
    it is the old [v[i - 1]] for [i > pos], what the move left of [v[pos]]
    for [i = pos], and [v[i]] for [i < pos]; with a full buffer or [pos] at
    the end it is [v[i]]. *)
Theorem Insert_trivially_destructible (this : nat) (v : Vector) (s : state T)
    (p : N) :
  is_trivially_destructible = true ->
  objs s !! this = Some v ->
  vector_ok s v ->
  p <= size_ v ->
  2 * capacity_ (data_ v) < SIZE_MOD ->
  (size_ v = capacity_ (data_ v) ->
   N.max 1 (2 * capacity_ (data_ v)) * size_of (T := T) <= MAX_REQUEST) ->
  (forall y : T, copy_throws y = false) ->
  (forall y : T, move_throws y = false) ->
  (forall (x : T) (insert : nat -> ptr -> T -> M (state T) ptr),
     insert = Insert \/ insert = Insert_rvalue ->
     exists s' v',
       insert this (ptr_add (begin v) p) x s = Ok (ptr_add (begin v') p) s' /\
       objs s' !! this = Some v' /\
       vector_ok s' v' /\
       size_ v' = size_ v + 1 /\
       values s' v'
       = take (N.to_nat p) (values s v) ++ Some x :: drop (N.to_nat p) (values s v) /\
       values s' v' !! N.to_nat p = Some (Some x)) /\
  (forall (i : N) (x : T),
     i < size_ v ->
     read_through (values s v)
       ((size_ v <? capacity_ (data_ v)) && (p <? size_ v))
       (N.to_nat p) (N.to_nat i) = Some (Some x) ->
     exists s' v',
       Insert_ref this (ptr_add (begin v) p) (ptr_add (begin v) i) s
       = Ok (ptr_add (begin v') p) s' /\
       objs s' !! this = Some v' /\
       vector_ok s' v' /\
       size_ v' = size_ v + 1 /\
       values s' v'
       = take (N.to_nat p) (values s v) ++ Some x :: drop (N.to_nat p) (values s v) /\
       values s' v' !! N.to_nat p = Some (Some x)).
Proof.
  intros Htriv Hv Hok Hp Hdbl _ Hcp Hmv.
  pose proof (length_values s v Hok) as HlenV.
  assert (Hat : forall x : T,
            (take (N.to_nat p) (values s v) ++ Some x :: drop (N.to_nat p) (values s v))
              !! N.to_nat p = Some (Some x)).
  { intros x. rewrite lookup_app_r by (rewrite length_take; lia).
    rewrite length_take.
    replace (N.to_nat p - N.to_nat p `min` length (values s v))%nat with 0%nat by lia.
    reflexivity. }
  split.
  - intros x insert Hins.
    assert (Hargs : exists args, builds args x /\
              insert this (ptr_add (begin v) p) x s
              = Emplace this (ptr_add (begin v) p) args s).
    { destruct Hins as [-> | ->].
      - exists (CopyOf x). split; [left|]; reflexivity.
      - exists (MoveOf x). split; [right; left|]; reflexivity. }
    destruct Hargs as (args & Hargs & ->).
    destruct (Emplace_effect this v s p args x Htriv Hv Hok Hp Hdbl Hargs Hcp Hmv)
      as (s1 & v1 & Hrun & Hv1 & Hok1 & Hsz1 & Hvals).
    exists s1, v1. split; [exact Hrun|]. split; [exact Hv1|].
    split; [exact Hok1|]. split; [exact Hsz1|]. split; [exact Hvals|].
    rewrite Hvals. apply Hat.
  - intros i x Hi Hread. unfold Insert_ref.
    destruct (vector_ok_block s v Hok) as (b & A & Hd & HA & Hlen).
    { destruct Hok as (_ & ? & _). lia. }
    assert (HV : values s v = val <$> take (N.to_nat (size_ v)) A).
    { unfold values, block_of. rewrite Hd. simpl. rewrite HA. reflexivity. }
    assert (Hsrc : ptr_add (begin v) i = at_ b (N.to_nat i)).
    { unfold begin, GetAddress, ptr_add. rewrite Hd. simpl.
      rewrite N.add_0_l. apply at_of_N. }
    destruct (N.ltb_spec (size_ v) (capacity_ (data_ v))) as [Hfree|Hfull];
      [destruct (N.ltb_spec p (size_ v)) as [Hmid|Hend]|].
    + (* the elements from [p] on are moved up first *)
      change (read_through (values s v) true (N.to_nat p) (N.to_nat i)
              = Some (Some x)) in Hread.
      pose proof Hok as (_ & Hsz & Hcap).
      destruct (lookup_lt_is_Some_2 A (N.to_nat (size_ v))) as [c Hc]; [lia|].
      destruct (lookup_lt_is_Some_2
                  (alter kill_cell (N.to_nat (size_ v))
                     (shift_right (N.to_nat (size_ v) - N.to_nat p)
                        (N.to_nat (size_ v))
                        (<[N.to_nat (size_ v) := Cell (moved_from <$> val c) true]> A)))
                  (N.to_nat i)) as [c' Hc'].
      { rewrite length_alter, length_shift_right, length_insert. lia. }
      assert (Hx : val c' = Some x).
      { pose proof (middle_read A (N.to_nat p) (N.to_nat (size_ v)) (N.to_nat i)
                      _ c' ltac:(lia) ltac:(lia) ltac:(lia) Hc') as Hrd.
        rewrite HV in Hread. rewrite Hread in Hrd. congruence. }
      clear Hread.
      destruct v as [d sz]; simpl in *.
      set (cap := capacity_ d) in *. clearbody cap. subst d. simpl in *.
      unfold begin, GetAddress, ptr_add. simpl. rewrite !N.add_0_l.
      destruct (Emplace_middle_ref_run this s b cap sz p i A c c')
        as (lg & Hrun); try assumption; try lia.
      { rewrite Hx. simpl. apply Hcp. }
      rewrite Hrun.
      eexists _, (mkVec (mkRaw (Ptr (Some b) 0) cap) (sz + 1)).
      split; [reflexivity|]. simpl.
      split; [apply lookup_insert_eq|].
      split; [|split; [reflexivity|]].
      * split; [|split; [simpl; lia|simpl; lia]].
        split; [reflexivity|]. simpl.
        eexists. split; [apply lookup_insert_eq|].
        rewrite length_insert, length_alter, length_shift_right, length_insert.
        assumption.
      * assert (Hvals' : values (mkState
                   (<[this := mkVec (mkRaw (Ptr (Some b) 0) cap) (sz + 1)]> (objs s))
                   (<[b := <[N.to_nat p := live_from c']>
                      (alter kill_cell (N.to_nat sz)
                         (shift_right (N.to_nat sz - N.to_nat p) (N.to_nat sz)
                            (<[N.to_nat sz := Cell (moved_from <$> val c) true]> A)))]>
                      (heap s)) lg)
                   (mkVec (mkRaw (Ptr (Some b) 0) cap) (sz + 1))
                 = take (N.to_nat p) (values s (mkVec (mkRaw (Ptr (Some b) 0) cap) sz))
                   ++ Some x :: drop (N.to_nat p)
                                  (values s (mkVec (mkRaw (Ptr (Some b) 0) cap) sz))).
        { rewrite HV.
          unfold values, block_of. simpl. rewrite lookup_insert_eq. simpl.
          replace (N.to_nat (sz + 1)) with (S (N.to_nat sz)) by lia.
          unfold live_from. rewrite Hx.
          apply middle_values; [assumption|lia|lia]. }
        split; [exact Hvals'|]. rewrite Hvals'. apply Hat.
    + (* at the end, with a free slot *)
      assert (Hpe : p = size_ v) by lia.
      destruct (Emplace_end_or_full_makes this v s p (RefCopy (at_ b (N.to_nat i))) x)
        as (s1 & v1 & Hrun & Hobjs & Hok1 & Hsz1 & _ & Hvals & _ & _);
        try assumption; [left; exact Hpe| | |].
      { right. rewrite HV in Hread. unfold read_through in Hread.
        simpl in Hread.
        rewrite list_lookup_fmap, lookup_take_lt in Hread by lia.
        destruct (A !! N.to_nat i) as [c|] eqn:Hc; [|discriminate].
        exists b, (N.to_nat i), A, c. split; [reflexivity|].
        split; [exact HA|]. split; [exact Hc|].
        split; [simpl in Hread; congruence|apply Hcp]. }
      { intros Hc. lia. }
      rewrite Hsrc. exists s1, v1. split; [exact Hrun|].
      split; [rewrite Hobjs; apply lookup_insert_eq|].
      split; [exact Hok1|]. split; [exact Hsz1|]. split; [exact Hvals|].
      rewrite Hvals. apply Hat.
    + (* with a full buffer *)
      assert (Hfe : size_ v = capacity_ (data_ v))
        by (destruct Hok as (_ & ? & _); lia).
      destruct (Emplace_end_or_full_makes this v s p (RefCopy (at_ b (N.to_nat i))) x)
        as (s1 & v1 & Hrun & Hobjs & Hok1 & Hsz1 & _ & Hvals & _ & _);
        try assumption; [right; exact Hfe| | |].
      { right. rewrite HV in Hread. unfold read_through in Hread.
        simpl in Hread.
        rewrite list_lookup_fmap, lookup_take_lt in Hread by lia.
        destruct (A !! N.to_nat i) as [c|] eqn:Hc; [|discriminate].
        exists b, (N.to_nat i), A, c. split; [reflexivity|].
        split; [exact HA|]. split; [exact Hc|].
        split; [simpl in Hread; congruence|apply Hcp]. }
      { intros _. split; [exact Hdbl|]. split; assumption. }
      rewrite Hsrc. exists s1, v1. split; [exact Hrun|].
      split; [rewrite Hobjs; apply lookup_insert_eq|].
      split; [exact Hok1|]. split; [exact Hsz1|]. split; [exact Hvals|].
      rewrite Hvals. apply Hat.
Qed.

End InsertTrivial.

Lemma Insert_trivially_destructible_witness :
  (exists s' v',
     Insert 0%nat (Ptr (Some 5%nat) 0) 9%Z int_vector_123
     = Ok (ptr_add (begin v') 0) s' /\
     objs s' !! 0%nat = Some v' /\
     values s' v' = [Some 9%Z; Some 1%Z; Some 2%Z; Some 3%Z]) /\
  (exists s' v',
     Insert_ref 0%nat (Ptr (Some 5%nat) 0) (Ptr (Some 5%nat) 2) int_vector_123
     = Ok (ptr_add (begin v') 0) s' /\
     objs s' !! 0%nat = Some v' /\
     values s' v' = [Some 2%Z; Some 1%Z; Some 2%Z; Some 3%Z]).
Proof.
  destruct (Insert_trivially_destructible 0%nat
              (mkVec (mkRaw (Ptr (Some 5%nat) 0) 4) 3) int_vector_123 0)
    as [Hvalue Helem].
  - reflexivity.
  - reflexivity.
  - split; [split; [reflexivity|]|split; [simpl; lia|reflexivity]].
    exists [Cell (Some 1%Z) true; Cell (Some 2%Z) true; Cell (Some 3%Z) true;
            raw_cell].
    split; reflexivity.
  - simpl. lia.
  - reflexivity.
  - intros _. vm_compute. discriminate.
  - reflexivity.
  - reflexivity.
  - split.
    + destruct (Hvalue 9%Z Insert) as (s' & v' & Hrun & Hv' & _ & _ & Hvals & _);
        [left; reflexivity|].
      exists s', v'. split; [exact Hrun|]. split; [exact Hv'|].
      rewrite Hvals. reflexivity.
    + destruct (Helem 2 2%Z) as (s' & v' & Hrun & Hv' & _ & _ & Hvals & _);
        [reflexivity|reflexivity|].
      exists s', v'. split; [exact Hrun|]. split; [exact Hv'|].
      rewrite Hvals. reflexivity.
Defined.

(** ** [Emplace] into a new buffer: what becomes of the new element when a
    copy throws *)

Section EmplaceLeak.
Context {T : Type} `{Element T}.
Implicit Types (s : state T) (A B ss ds : list (cell T)).

Lemma on_slots_mono b lo hi lo' hi' e :
  (lo' <= lo)%nat -> (hi <= hi')%nat -> on_slots b lo hi e -> on_slots b lo' hi' e.
Proof.
  intros Hlo Hhi (i & Hi & He). exists i. split; [lia|exact He].
Qed.

Lemma on_slots_dtors b lo hi m : forall j,
  (lo <= j)%nat -> (j + m <= hi)%nat ->
  Forall (on_slots b lo hi) (EDtor <$> ptrs m (at_ b j)).
Proof.
  induction m as [|m IH]; intros j Hlo Hhi; simpl; [constructor|].
  constructor.
  - exists j. split; [lia|left; reflexivity].
  - rewrite at_next. apply IH; lia.
Qed.

(** [uninitialized_copy_n] between two blocks, with the calls it makes:
    all of them are on the destination slots it was given *)
Lemma uninitialized_copy_loop_log bs bd ss j0 n : forall i j ds s,
  heap s !! bs = Some ss -> heap s !! bd = Some ds -> bs <> bd ->
  (i + n <= length ss)%nat -> (j0 <= j)%nat -> (j + n <= length ds)%nat ->
  exists ds' lg,
    length ds' = length ds /\
    Forall (on_slots bd j0 (j + n)) lg /\
    ((uninitialized_copy_loop n (at_ bs i) (at_ bd j) (at_ bd j0) s
      = Ok tt (mkState (objs s) (<[bd := ds']> (heap s)) (log s ++ lg)) /\
      forall k c, (k < n)%nat -> ss !! (i + k)%nat = Some c ->
                  throws_on copy_throws (val c) = false) \/
     uninitialized_copy_loop n (at_ bs i) (at_ bd j) (at_ bd j0) s
     = Throw (mkState (objs s) (<[bd := ds']> (heap s)) (log s ++ lg))).
Proof.
  induction n as [|n IH]; intros i j ds s Hs Hd Hne Hi Hj0 Hj; simpl.
  - exists ds, []. split; [done|]. split; [constructor|].
    left. split; [|intros; lia].
    unfold ret. rewrite insert_id by assumption. rewrite app_nil_r.
    destruct s; reflexivity.
  - destruct (lookup_lt_is_Some_2 ss i) as [c Hc]; [lia|].
    unfold bind, try_catch.
    rewrite (copy_construct_run s bs bd i j ss ds c Hs Hc Hd) by lia.
    destruct (throws_on copy_throws (val c)) eqn:Hthr.
    + unfold destroy_n. rewrite at_distance.
      rewrite (destroy_loop_run bd (j - j0) j0 ds s Hd) by lia.
      exists (kill (j - j0) j0 ds), (EDtor <$> ptrs (j - j0) (at_ bd j0)).
      split; [apply length_kill|].
      split; [apply on_slots_dtors; lia|].
      right. reflexivity.
    + rewrite !at_next.
      set (s1 := mkState _ _ _).
      destruct (IH (S i) (S j) (<[j := live_from c]> ds) s1)
        as (ds' & lg & Hlen & Hlg & Hcase);
        [subst s1; simpl; rewrite lookup_insert_ne by done; assumption
        |subst s1; apply lookup_insert_eq|assumption|lia|lia
        |rewrite length_insert; lia|].
      rewrite length_insert in Hlen.
      exists ds', (ECopyCtor (at_ bd j) (at_ bs i) :: lg).
      split; [assumption|]. split.
      { constructor.
        - exists j. split; [lia|right; eauto].
        - eapply Forall_impl; [exact Hlg|].
          intros e. apply on_slots_mono; lia. }
      subst s1. simpl in Hcase. rewrite insert_insert_eq in Hcase.
      rewrite <- app_assoc in Hcase. simpl in Hcase.
      destruct Hcase as [[Hrun Hall]|Hrun].
      * left. split; [exact Hrun|]. intros k c' Hk Hc'.
        destruct k as [|k].
        -- rewrite Nat.add_0_r in Hc'. congruence.
        -- apply (Hall k c'); [lia|]. rewrite <- Hc'. f_equal. lia.
      * right. exact Hrun.
Qed.

Local Ltac heap_lookup :=
  simpl;
  repeat first [rewrite lookup_insert_eq | rewrite lookup_insert_ne by congruence];
  first [reflexivity | eassumption].

(** X30: [Insert(pos, const T&)] on a full vector of an element type that
    [Relocate] copies, when the copy of [value] does not throw and the copy
    of one of the elements does: the exception goes on with the vector
    object and the whole free store as before the call; the new element had
    been constructed in the new buffer, and until the buffer is released no
    destructor is called on it. *)
Theorem Insert_at_capacity_abandons_new_element (this : nat) (v : Vector)
    (s : state T) (p : N) (x : T) (k : nat) (c : cell T) :
  objs s !! this = Some v ->
  vector_ok s v ->
  size_ v = capacity_ (data_ v) ->
  p <= size_ v ->
  2 * capacity_ (data_ v) < SIZE_MOD ->
  by_move = false ->
  copy_throws x = false ->
  (k < N.to_nat (size_ v))%nat ->
  block_of s v !! k = Some c ->
  throws_on copy_throws (val c) = true ->
  exists s' lg,
    Insert this (ptr_add (begin v) p) x s = Throw s' /\
    objs s' = objs s /\ heap s' = heap s /\
    log s' = log s ++ ECtor (Ptr (Some (fresh (dom (heap s)))) p) :: lg /\
    EDtor (Ptr (Some (fresh (dom (heap s)))) p) ∉ lg.
Proof.
  intros Hv Hok Hfull Hp Hdbl Hby Hx Hk Hc Ht.
  destruct (vector_ok_block s v Hok) as (b & A & Hd & HA & Hlen); [lia|].
  assert (HcA : A !! k = Some c).
  { unfold block_of in Hc. rewrite Hd in Hc. simpl in Hc.
    rewrite HA in Hc. exact Hc. }
  clear Hc. destruct v as [d sz]; simpl in *. subst sz.
  set (sz := capacity_ d) in *. clearbody sz. subst d. simpl in *.
  set (bn := fresh (dom (heap s))).
  assert (Hbn : heap s !! bn = None) by apply fresh_block_free.
  assert (Hne : b <> bn) by congruence.
  assert (Hnot : forall lo hi lg, (hi <= N.to_nat p \/ N.to_nat p < lo)%nat ->
            Forall (on_slots bn lo hi) lg -> EDtor (Ptr (Some bn) p) ∉ lg).
  { intros lo hi lg Hout Hlg Hin.
    rewrite Forall_forall in Hlg. destruct (Hlg _ Hin) as (i & Hi & [He|[src He]]).
    - injection He as He. lia.
    - discriminate. }
  unfold Insert, Emplace, bind, get_vec. rewrite Hv. simpl.
  unfold cbegin, cend, begin, end_, GetAddress, ptr_add. simpl.
  rewrite !N.add_0_l, !ptr_le_same.
  destruct (N.leb_spec 0 p) as [_|]; [|lia].
  destruct (N.leb_spec p sz) as [_|]; [|lia]. simpl.
  rewrite N.eqb_refl. simpl.
  destruct (N.ltb_spec 0 sz) as [_|]; [|lia].
  unfold size_mul. rewrite (N.mod_small (sz * 2)) by lia.
  replace (sz * 2) with (2 * sz) by lia.
  unfold RawMemory_new, bind, Allocate.
  destruct (N.eqb_spec (2 * sz) 0) as [|_]; [lia|].
  fold bn. unfold ret at 1. unfold with_RawMemory, bind. simpl.
  unfold distance. simpl. rewrite N.sub_0_r.
  unfold RawMemory_plus, bind, assert_. simpl.
  destruct (N.leb_spec p (2 * sz)) as [_|]; [|lia].
  unfold ret at 1. unfold GetAddress, ptr_add. simpl. rewrite !N.add_0_l.
  rewrite size_sub_small by lia.
  assert (Hfree : forall q cap ds l,
            blk q = Some bn -> off q = 0 ->
            RawMemory_dtor (mkRaw q cap) (mkState (objs s) (<[bn := ds]> (heap s)) l)
            = Ok tt (mkState (objs s) (heap s) l)).
  { intros q cap ds l Hq Ho. unfold RawMemory_dtor, Deallocate. simpl.
    rewrite Hq, Ho. simpl. rewrite lookup_insert_eq.
    rewrite delete_insert_id by assumption. reflexivity. }
  rewrite Hx. unfold bind.
  rewrite (at_of_N bn p).
  erewrite store_cell_at; [|heap_lookup|rewrite length_replicate; lia].
  unfold emit. simpl. rewrite insert_insert_eq.
  rewrite <- (at_of_N bn p).
  unfold Relocate. fold by_move. rewrite Hby.
  unfold uninitialized_copy_n.
  change (Ptr (Some b) 0) with (at_ b 0). change (Ptr (Some bn) 0) with (at_ bn 0).
  rewrite (at_of_N b p), (at_of_N bn (p + 1)).
  replace (N.to_nat (p + 1)) with (S (N.to_nat p)) by lia.
  replace (N.to_nat (sz - p)) with (N.to_nat sz - N.to_nat p)%nat by lia.
  set (s1 := mkState _ _ _).
  destruct (uninitialized_copy_loop_log b bn A 0 (N.to_nat p) 0 0
              (<[N.to_nat p := Cell (Some x) true]>
                 (replicate (N.to_nat (2 * sz)) raw_cell)) s1)
    as (D1 & lg1 & HlD1 & Hlg1 & [[Hr1 Hall1]|Hr1]);
    [subst s1; heap_lookup|subst s1; heap_lookup|assumption|lia|lia
    |rewrite length_insert, length_replicate; lia| |];
    rewrite Hr1; subst s1; simpl; rewrite insert_insert_eq.
  2:{ rewrite Hfree by reflexivity. unfold throw.
      eexists _, lg1. split; [reflexivity|]. simpl.
      split; [reflexivity|]. split; [reflexivity|].
      split; [rewrite <- app_assoc; reflexivity|].
      apply (Hnot 0%nat (0 + N.to_nat p)%nat); [lia|exact Hlg1]. }
  rewrite length_insert, length_replicate in HlD1.
  set (s2 := mkState _ _ _).
  destruct (uninitialized_copy_loop_log b bn A (S (N.to_nat p))
              (N.to_nat sz - N.to_nat p) (N.to_nat p) (S (N.to_nat p)) D1 s2)
    as (D2 & lg2 & HlD2 & Hlg2 & [[Hr2 Hall2]|Hr2]);
    [subst s2; heap_lookup|subst s2; heap_lookup|assumption|lia|lia|lia| |];
    rewrite Hr2; subst s2; simpl; rewrite insert_insert_eq.
  { exfalso.
    destruct (decide (k < N.to_nat p)%nat) as [Hlt|Hge].
    - rewrite (Hall1 k c) in Ht; [discriminate|lia|exact HcA].
    - rewrite (Hall2 (k - N.to_nat p)%nat c) in Ht; [discriminate|lia|].
      rewrite <- HcA. f_equal. lia. }
  rewrite Hfree by reflexivity. unfold throw.
  eexists _, (lg1 ++ lg2). split; [reflexivity|]. simpl.
  split; [reflexivity|]. split; [reflexivity|].
  split; [rewrite <- !app_assoc; reflexivity|].
  intros Hin. apply elem_of_app in Hin as [Hin|Hin].
  - revert Hin. apply (Hnot 0%nat (0 + N.to_nat p)%nat); [lia|exact Hlg1].
  - revert Hin.
    apply (Hnot (S (N.to_nat p)) (S (N.to_nat p) + (N.to_nat sz - N.to_nat p))%nat);
      [lia|exact Hlg2].
Qed.

End EmplaceLeak.

Lemma Insert_at_capacity_abandons_new_element_witness :
  exists s' lg,
    Insert 0%nat (Ptr (Some 5%nat) 0) (mkObj 9) obj_vector_full = Throw s' /\
    heap s' = heap obj_vector_full /\
    log s' = ECtor (Ptr (Some (fresh (dom (heap obj_vector_full)))) 0) :: lg /\
    EDtor (Ptr (Some (fresh (dom (heap obj_vector_full)))) 0) ∉ lg.
Proof.
  destruct (Insert_at_capacity_abandons_new_element 0%nat
              (mkVec (mkRaw (Ptr (Some 5%nat) 0) 3) 3) obj_vector_full 0 (mkObj 9)
              1%nat (live_obj (-2)))
    as (s' & lg & Hrun & _ & Hheap & Hlog & Hnot).
  - reflexivity.
  - split; [split; [reflexivity|]|split; [simpl; lia|reflexivity]].
    exists [live_obj 1; live_obj (-2); live_obj 3]. split; reflexivity.
  - reflexivity.
  - simpl. lia.
  - reflexivity.
  - reflexivity.
  - reflexivity.
  - simpl. lia.
  - reflexivity.
  - reflexivity.
  - exists s', lg. split; [exact Hrun|]. split; [exact Hheap|].
    split; [exact Hlog|exact Hnot].
Defined.
